(** * Vector: a shallow embedding of [vectors.py]

    The module [vectors.py] defines one class, [Vector], over Python's
    [decimal.Decimal] numbers (context precision 30) with [math.sqrt],
    [math.acos] and [math.degrees] on binary64 floats.  This file embeds

    - the exceptions the class raises and an error monad for them,
    - the part of [decimal] the class uses (construction, [+], [-], [*],
      [/], unary minus, [abs], [** 2], comparisons) with its rounding,
      as the implementation of CPython computes it on a 64-bit build,
    - binary64 floats as far as [math.sqrt], [float(Decimal)],
      [Decimal(float)] and [math.degrees] need them,
    - the class itself, method by method,

    and then states and proves the properties of the specification. *)

From Stdlib Require Import ZArith NArith Lia List String Ascii Bool.
Import ListNotations.
Local Open Scope Z_scope.

(** ** Exceptions and the error monad *)

(** The exception classes that can leave a method of [Vector].  The
    string is the message given at the [raise] site in [vectors.py];
    exceptions raised by the interpreter or by [decimal] carry no
    message or a short tag. *)
Inductive exn : Type :=
| ValueError (msg : string)
| TypeError (msg : string)
| InvalidOperation (msg : string)
| ZeroDivisionError (msg : string)
| NotImplementedError
| PyException (msg : string)
| IndexError
| AttributeError
| Overflow
| DivisionByZero.

Inductive result (A : Type) : Type :=
| Ok (a : A)
| Raise (e : exn).
Arguments Ok {A} a.
Arguments Raise {A} e.

Definition bind {A B : Type} (c : result A) (k : A -> result B) : result B :=
  match c with
  | Ok a => k a
  | Raise e => Raise e
  end.

Declare Scope py_scope.
Delimit Scope py_scope with py.
Notation "x <- c ;; k" := (bind c (fun x => k))
  (at level 61, c at next level, right associativity) : py_scope.
Local Open Scope py_scope.

(** [[f x for x in l]]: a list comprehension whose body can raise; the
    elements are evaluated left to right and the first exception wins. *)
Fixpoint mapM {A B : Type} (f : A -> result B) (l : list A) : result (list B) :=
  match l with
  | [] => Ok []
  | x :: t => y <- f x ;; ys <- mapM f t ;; Ok (y :: ys)
  end.

(** The names the specification gives to the failures of the class. *)
Definition EmptyVectorError : exn := ValueError EmptyString.
Definition InvalidNumberError : exn :=
  InvalidOperation "The coordinates must be a valid number".
Definition NotIterableError : exn := TypeError "The coordinates must be iterable".
Definition NotAVectorError : exn := TypeError "Argument must be a vector".
Definition UnsupportedDimensionError : exn := NotImplementedError.
Definition ZeroVectorError : exn :=
  ZeroDivisionError "Cannot normalize the zero vector".
Definition ZeroMagnitudeError : exn :=
  PyException "Cannot find angle for a zero vector".
Definition InvalidOperandError : exn :=
  TypeError "Argument must be number or a vector".

(** ** Decimal numbers *)

Module Dec.

(** A [decimal.Decimal]: a finite number [(-1)^sign * coeff * 10^exp],
    an infinity, or a NaN (quiet or signalling; the payload of a NaN is
    not kept, nothing in [vectors.py] reads it). *)
Inductive t : Type :=
| Fin (sign : bool) (coeff : N) (exp : Z)
| Inf (sign : bool)
| NaN (sign : bool) (signalling : bool).

(** [getcontext().prec = 30]; the other fields are the defaults of the
    module [decimal]: rounding half-even, [Emax = 999999],
    [Emin = -999999], [clamp = 0], traps on [InvalidOperation],
    [DivisionByZero] and [Overflow]. *)
Definition prec : Z := 30.
Definition Emax : Z := 999999.
Definition Emin : Z := -999999.
Definition Etiny : Z := Emin - prec + 1.
Definition Etop : Z := Emax - prec + 1.

(** Number of decimal digits of [n], that is [len(str(n))]; 1 for 0. *)
Fixpoint ndigits_aux (fuel : nat) (n : Z) : Z :=
  match fuel with
  | O => 1
  | S f => if n <? 10 then 1 else 1 + ndigits_aux f (n / 10)
  end.

Definition ndigits (n : Z) : Z := ndigits_aux (Z.to_nat (Z.log2 n)) n.

(** Drop the last [k] digits of [c], rounding half to even. *)
Definition round_half_even (c k : Z) : Z :=
  let q := c / 10 ^ k in
  let r := c mod 10 ^ k in
  let half := 5 * 10 ^ (k - 1) in
  if (half <? r) || ((r =? half) && Z.odd q) then q + 1 else q.

(** [Decimal._fix]: round a finite result to the context.  Zero keeps
    its sign and has its exponent clamped; a non-zero number is rounded
    to [prec] digits (fewer when subnormal), and [Overflow], which is
    trapped, is raised when the rounded exponent exceeds [Etop]. *)
Definition fix_fin (s : bool) (c : N) (e : Z) : result t :=
  if (c =? 0)%N then Ok (Fin s 0 (Z.min (Z.max e Etiny) Emax))
  else
    let len := ndigits (Z.of_N c) in
    let exp_min := len + e - prec in
    if Etop <? exp_min then Raise Overflow
    else
      let exp_min := Z.max exp_min Etiny in
      if e <? exp_min then
        let q := round_half_even (Z.of_N c) (exp_min - e) in
        let '(q, exp_min) :=
          if prec <? ndigits q then (q / 10, exp_min + 1) else (q, exp_min) in
        if Etop <? exp_min then Raise Overflow
        else Ok (Fin s (Z.to_N q) exp_min)
      else Ok (Fin s c e).

Definition fix_ (d : t) : result t :=
  match d with
  | Fin s c e => fix_fin s c e
  | _ => Ok d
  end.

(** The same rounding in a working context of precision [p] with the
    exponent range of the context.  The working context traps nothing:
    an overflow there sets the flag [Overflow], which the context of
    the caller traps when the operation returns. *)
Definition fix_at (p : Z) (s : bool) (c : N) (e : Z) : result t :=
  if (c =? 0)%N then Ok (Fin s 0 (Z.min (Z.max e (Emin - p + 1)) Emax))
  else
    let len := ndigits (Z.of_N c) in
    let exp_min := len + e - p in
    if Emax - p + 1 <? exp_min then Raise Overflow
    else
      let exp_min := Z.max exp_min (Emin - p + 1) in
      if e <? exp_min then
        let q := round_half_even (Z.of_N c) (exp_min - e) in
        let '(q, exp_min) :=
          if p <? ndigits q then (q / 10, exp_min + 1) else (q, exp_min) in
        if Emax - p + 1 <? exp_min then Raise Overflow
        else Ok (Fin s (Z.to_N q) exp_min)
      else Ok (Fin s c e).

Definition is_zero (d : t) : bool :=
  match d with
  | Fin _ c _ => (c =? 0)%N
  | _ => false
  end.

(** [Decimal._check_nans] for two operands: a signalling NaN raises
    [InvalidOperation], a quiet NaN is the result ([Some]), [None] when
    neither operand is a NaN. *)
Definition check_nans (a b : t) : result (option t) :=
  match a, b with
  | NaN _ true, _ => Raise (InvalidOperation "sNaN")
  | _, NaN _ true => Raise (InvalidOperation "sNaN")
  | NaN s false, _ => Ok (Some (NaN s false))
  | _, NaN s false => Ok (Some (NaN s false))
  | _, _ => Ok None
  end.

Definition copy_negate (d : t) : t :=
  match d with
  | Fin s c e => Fin (negb s) c e
  | Inf s => Inf (negb s)
  | NaN s q => NaN (negb s) q
  end.

(** The signed coefficient of a finite number scaled to exponent [e0],
    for [e0] not above the number's own exponent. *)
Definition scaled (s : bool) (c : N) (e e0 : Z) : Z :=
  (if s then -1 else 1) * Z.of_N c * 10 ^ (e - e0).

(** [Decimal.__add__]. *)
Definition add (a b : t) : result t :=
  n <- check_nans a b ;;
  match n with
  | Some r => Ok r
  | None =>
    match a, b with
    | Inf s1, Inf s2 =>
        if Bool.eqb s1 s2 then Ok (Inf s1)
        else Raise (InvalidOperation "-INF + INF")
    | Inf s1, _ => Ok (Inf s1)
    | _, Inf s2 => Ok (Inf s2)
    | Fin s1 c1 e1, Fin s2 c2 e2 =>
        let exp := Z.min e1 e2 in
        if (c1 =? 0)%N && (c2 =? 0)%N then fix_fin (s1 && s2) 0 exp
        else if (c1 =? 0)%N then
          let exp := Z.max exp (e2 - prec - 1) in
          fix_fin s2 (Z.to_N (Z.of_N c2 * 10 ^ (e2 - exp))) exp
        else if (c2 =? 0)%N then
          let exp := Z.max exp (e1 - prec - 1) in
          fix_fin s1 (Z.to_N (Z.of_N c1 * 10 ^ (e1 - exp))) exp
        else
          let r := scaled s1 c1 e1 exp + scaled s2 c2 e2 exp in
          if r =? 0 then fix_fin false 0 exp
          else fix_fin (r <? 0) (Z.to_N (Z.abs r)) exp
    | _, _ => Ok a
    end
  end.

(** [Decimal.__sub__]: [a + b.copy_negate()] after the NaN check. *)
Definition sub (a b : t) : result t :=
  n <- check_nans a b ;;
  match n with
  | Some r => Ok r
  | None => add a (copy_negate b)
  end.

(** [Decimal.__mul__]. *)
Definition mul (a b : t) : result t :=
  n <- check_nans a b ;;
  match n with
  | Some r => Ok r
  | None =>
    match a, b with
    | Inf s1, Inf s2 => Ok (Inf (xorb s1 s2))
    | Inf s1, Fin s2 c2 _ =>
        if (c2 =? 0)%N then Raise (InvalidOperation "(+-)INF * 0")
        else Ok (Inf (xorb s1 s2))
    | Fin s1 c1 _, Inf s2 =>
        if (c1 =? 0)%N then Raise (InvalidOperation "0 * (+-)INF")
        else Ok (Inf (xorb s1 s2))
    | Fin s1 c1 e1, Fin s2 c2 e2 => fix_fin (xorb s1 s2) (c1 * c2) (e1 + e2)
    | _, _ => Ok a
    end
  end.

(** The loop of [__truediv__] for an exact quotient: strip trailing
    zeros while the exponent is below the ideal one. *)
Fixpoint strip_zeros (fuel : nat) (coeff exp ideal : Z) : Z * Z :=
  match fuel with
  | O => (coeff, exp)
  | S f =>
      if (exp <? ideal) && (coeff mod 10 =? 0)
      then strip_zeros f (coeff / 10) (exp + 1) ideal
      else (coeff, exp)
  end.

(** [Decimal.__truediv__]. *)
Definition div (a b : t) : result t :=
  n <- check_nans a b ;;
  match n with
  | Some r => Ok r
  | None =>
    match a, b with
    | Inf _, Inf _ => Raise (InvalidOperation "(+-)INF/(+-)INF")
    | Inf s1, Fin s2 _ _ => Ok (Inf (xorb s1 s2))
    | Fin s1 _ _, Inf s2 => Ok (Fin (xorb s1 s2) 0 Etiny)
    | Fin s1 c1 e1, Fin s2 c2 e2 =>
        let sign := xorb s1 s2 in
        if (c2 =? 0)%N then
          if (c1 =? 0)%N then Raise (InvalidOperation "0 / 0")
          else Raise DivisionByZero
        else if (c1 =? 0)%N then fix_fin sign 0 (e1 - e2)
        else
          let shift := ndigits (Z.of_N c2) - ndigits (Z.of_N c1) + prec + 1 in
          let exp := e1 - e2 - shift in
          let '(num, den) :=
            if 0 <=? shift then (Z.of_N c1 * 10 ^ shift, Z.of_N c2)
            else (Z.of_N c1, Z.of_N c2 * 10 ^ (- shift)) in
          let coeff := num / den in
          let remainder := num mod den in
          let '(coeff, exp) :=
            if negb (remainder =? 0)
            then (if coeff mod 5 =? 0 then coeff + 1 else coeff, exp)
            else strip_zeros (Z.to_nat (e1 - e2 - exp)) coeff exp (e1 - e2) in
          fix_fin sign (Z.to_N coeff) exp
    | _, _ => Ok a
    end
  end.

(** [Decimal.__neg__]: a zero loses its sign (the rounding mode is not
    [ROUND_FLOOR]), and the result is rounded to the context. *)
Definition neg (a : t) : result t :=
  match a with
  | NaN _ true => Raise (InvalidOperation "sNaN")
  | NaN s false => Ok (NaN s false)
  | Inf s => Ok (Inf (negb s))
  | Fin s c e => if (c =? 0)%N then fix_fin false c e else fix_fin (negb s) c e
  end.

(** [Decimal.__abs__]: [__neg__] for a negative number, [__pos__]
    otherwise; both round to the context. *)
Definition abs (a : t) : result t :=
  match a with
  | NaN _ true => Raise (InvalidOperation "sNaN")
  | NaN s false => Ok (NaN s false)
  | Inf _ => Ok (Inf false)
  | Fin _ c e => fix_fin false c e
  end.

(** [x ** 2].  Zero gives [Decimal('0')] and an infinity gives
    [Infinity].  For a finite non-zero number the power with an integer
    exponent is computed by repeated multiplication in a working
    context of [prec + 2 + 1] digits (2, plus the number of digits of
    the exponent 2), and the result is then rounded to the context: the
    square is rounded twice, to 33 and then to 30 digits. *)
Definition sq (a : t) : result t :=
  match a with
  | NaN _ true => Raise (InvalidOperation "sNaN")
  | NaN s false => Ok (NaN s false)
  | Inf _ => Ok (Inf false)
  | Fin _ c e =>
      if (c =? 0)%N then Ok (Fin false 0 0)
      else r <- fix_at (prec + 3) false (c * c) (e + e) ;; fix_ r
  end.

(** Numeric comparison of two numbers that are not NaN
    ([Decimal._cmp]). *)
Definition cmp (a b : t) : comparison :=
  match a, b with
  | Inf s1, Inf s2 =>
      if Bool.eqb s1 s2 then Eq else if s1 then Lt else Gt
  | Inf s1, _ => if s1 then Lt else Gt
  | _, Inf s2 => if s2 then Gt else Lt
  | Fin s1 c1 e1, Fin s2 c2 e2 =>
      let e0 := Z.min e1 e2 in
      scaled s1 c1 e1 e0 ?= scaled s2 c2 e2 e0
  | _, _ => Eq
  end.

Definition is_nan (a : t) : bool :=
  match a with
  | NaN _ _ => true
  | _ => false
  end.

Definition is_snan (a : t) : bool :=
  match a with
  | NaN _ true => true
  | _ => false
  end.

(** [a == b]: a signalling NaN raises, a quiet NaN compares unequal to
    everything. *)
Definition eq (a b : t) : result bool :=
  if is_snan a || is_snan b then Raise (InvalidOperation "sNaN")
  else if is_nan a || is_nan b then Ok false
  else Ok (match cmp a b with Eq => true | _ => false end).

(** [a != b]: the negation of [a == b]. *)
Definition ne (a b : t) : result bool :=
  r <- eq a b ;; Ok (negb r).

(** [a < b]: any NaN raises [InvalidOperation]. *)
Definition lt (a b : t) : result bool :=
  if is_nan a || is_nan b
  then Raise (InvalidOperation "comparison involving NaN")
  else Ok (match cmp a b with Lt => true | _ => false end).

(** [Decimal(n)] for an [int]: exact. *)
Definition of_Z (n : Z) : t := Fin (n <? 0) (Z.to_N (Z.abs n)) 0.

End Dec.

(** ** Binary64 floats *)

Module Flt.

(** A Python [float]: [(-1)^sign * m * 2^e], an infinity or a NaN.  The
    pair [(m, e)] need not be normalised; every function below reads
    only its value. *)
Inductive t : Type :=
| Fin (sign : bool) (m : N) (e : Z)
| Inf (sign : bool)
| NaN.

(** Drop the last [k] bits of [m], rounding half to even. *)
Definition round_bits (m k : Z) : Z :=
  let q := m / 2 ^ k in
  let r := m mod 2 ^ k in
  let half := 2 ^ (k - 1) in
  if (half <? r) || ((r =? half) && Z.odd q) then q + 1 else q.

(** Round the positive number [m * 2^e] to binary64: 53 bits of
    precision, least exponent [-1074], overflow to infinity.  A caller
    that folds a sticky bit into [m] gives [m] at least 55 bits. *)
Definition round (s : bool) (m e : Z) : t :=
  let bits := Z.log2 m + 1 in
  let e' := Z.max (e + bits - 53) (-1074) in
  if e' <=? e then
    if 1024 <? bits + e then Inf s else Fin s (Z.to_N m) e
  else
    let q := round_bits m (e' - e) in
    if 1024 <? Z.log2 q + 1 + e' then Inf s else Fin s (Z.to_N q) e'.

(** The correctly rounded quotient [num / den] of two positive
    integers: at least 64 quotient bits and a sticky bit. *)
Definition round_ratio (s : bool) (num den : Z) : t :=
  let shift := Z.max 0 (64 + Z.log2 den - Z.log2 num) in
  let q := (num * 2 ^ shift) / den in
  let sticky := if (num * 2 ^ shift) mod den =? 0 then 0 else 1 in
  round s (2 * q + sticky) (- shift - 1).

(** [float(d)] for a [Decimal] ([Decimal.__float__]): the nearest
    binary64; a signalling NaN raises [ValueError]. *)
Definition of_Dec (d : Dec.t) : result t :=
  match d with
  | Dec.NaN _ true => Raise (ValueError "Cannot convert signaling NaN to float")
  | Dec.NaN _ false => Ok NaN
  | Dec.Inf s => Ok (Inf s)
  | Dec.Fin s c e =>
      if (c =? 0)%N then Ok (Fin s 0 0)
      else if 0 <=? e then Ok (round s (Z.of_N c * 10 ^ e) 0)
      else Ok (round_ratio s (Z.of_N c) (10 ^ (- e)))
  end.

(** Number of trailing zero bits. *)
Fixpoint trailing_zeros (p : positive) : Z :=
  match p with
  | xO q => 1 + trailing_zeros q
  | _ => 0
  end.

(** [Decimal(f)] for a [float]: exact.  The float is the ratio
    [n / 2^k] in lowest terms ([float.as_integer_ratio]) and the result
    is [n * 5^k] with exponent [-k]. *)
Definition to_Dec (f : t) : Dec.t :=
  match f with
  | NaN => Dec.NaN false false
  | Inf s => Dec.Inf s
  | Fin s m e =>
      match m with
      | N0 => Dec.Fin s 0 0
      | Npos p =>
          if 0 <=? e then Dec.Fin s (Z.to_N (Z.pos p * 2 ^ e)) 0
          else
            let t := Z.min (trailing_zeros p) (- e) in
            let k := - e - t in
            Dec.Fin s (Z.to_N (Z.pos p / 2 ^ t * 5 ^ k)) (- k)
      end
  end.

(** [math.sqrt]: correctly rounded; a negative argument raises
    [ValueError] (math domain error). *)
Definition sqrt (f : t) : result t :=
  match f with
  | NaN => Ok NaN
  | Inf false => Ok (Inf false)
  | Inf true => Raise (ValueError "math domain error")
  | Fin s m e =>
      if (m =? 0)%N then Ok (Fin s 0 0)
      else if s then Raise (ValueError "math domain error")
      else
        let sh := 128 + e mod 2 in
        let M := Z.of_N m * 2 ^ sh in
        let r := Z.sqrt M in
        let sticky := if r * r =? M then 0 else 1 in
        Ok (round false (2 * r + sticky) ((e - sh) / 2 - 1))
  end.

(** Float multiplication and division, correctly rounded. *)
Definition mul (a b : t) : t :=
  match a, b with
  | NaN, _ | _, NaN => NaN
  | Inf s1, Inf s2 => Inf (xorb s1 s2)
  | Inf s1, Fin s2 m _ | Fin s2 m _, Inf s1 =>
      if (m =? 0)%N then NaN else Inf (xorb s1 s2)
  | Fin s1 m1 e1, Fin s2 m2 e2 =>
      if (m1 * m2 =? 0)%N then Fin (xorb s1 s2) 0 0
      else round (xorb s1 s2) (Z.of_N (m1 * m2)) (e1 + e2)
  end.

(** The constants of the module [math] that [vectors.py] reaches:
    [math.pi], and [180.0 / pi], the factor of [math.degrees]. *)
Definition pi : t := Fin false 7074237752028440 (-51).

Definition radToDeg : t :=
  Eval vm_compute in round_ratio false (180 * 2 ^ 51) 7074237752028440.

(** [math.degrees]. *)
Definition degrees (x : t) : t := mul x radToDeg.

Definition is_nan (f : t) : bool :=
  match f with
  | NaN => true
  | _ => false
  end.

(** [fabs(f) <= 1.0], false for a NaN. *)
Definition abs_le_one (f : t) : bool :=
  match f with
  | Fin _ m e =>
      if 0 <=? e then Z.of_N m * 2 ^ e <=? 1 else Z.of_N m <=? 2 ^ (- e)
  | _ => false
  end.

(** The literal [1e-10], the default tolerance of [is_zero] and
    [is_orthogonal_to], and the literal [1.0]. *)
Definition tol_default : t := Fin false 7737125245533627 (-86).
Definition one : t := Fin false 1 0.

End Flt.

(** ** Parsing a [Decimal] from a string *)

(** A [str] is modelled by its ASCII text, one character per [ascii].
    Outside ASCII the constructor of [Decimal] also accepts the decimal
    digits and the whitespace of other scripts, and a [str] is iterated
    by code point: the statements that rest on a literal being refused
    state that the text is ASCII. *)

Module Parse.

Definition is_digit (c : ascii) : bool :=
  let n := nat_of_ascii c in (48 <=? n)%nat && (n <=? 57)%nat.

(** The characters [str.strip] removes, within ASCII. *)
Definition is_space (c : ascii) : bool :=
  let n := nat_of_ascii c in
  ((9 <=? n)%nat && (n <=? 13)%nat) || ((28 <=? n)%nat && (n <=? 32)%nat).

Definition lower (c : ascii) : ascii :=
  let n := nat_of_ascii c in
  if (65 <=? n)%nat && (n <=? 90)%nat then ascii_of_nat (n + 32) else c.

Fixpoint drop_spaces (l : list ascii) : list ascii :=
  match l with
  | c :: t => if is_space c then drop_spaces t else l
  | [] => []
  end.

Definition strip (l : list ascii) : list ascii :=
  rev (drop_spaces (rev (drop_spaces l))).

Fixpoint take_digits (l : list ascii) : list ascii * list ascii :=
  match l with
  | c :: t =>
      if is_digit c then let '(d, r) := take_digits t in (c :: d, r)
      else ([], l)
  | [] => ([], [])
  end.

Definition digits_value (l : list ascii) : Z :=
  fold_left (fun acc c => 10 * acc + (Z.of_nat (nat_of_ascii c) - 48)) l 0.

Definition take_sign (l : list ascii) : bool * list ascii :=
  match l with
  | "-"%char :: t => (true, t)
  | "+"%char :: t => (false, t)
  | _ => (false, l)
  end.

(** The exponent part: empty, or [E] with an optional sign and at least
    one digit, up to the end of the string. *)
Definition exponent (l : list ascii) : option Z :=
  match l with
  | [] => Some 0
  | c :: t =>
      if Ascii.eqb (lower c) "e" then
        let '(s, t) := take_sign t in
        match take_digits t with
        | ((_ :: _) as d, []) => Some (if s then - digits_value d else digits_value d)
        | _ => None
        end
      else None
  end.

(** The constructor is exact and refuses a literal it cannot hold
    without rounding: the exponent must be at least [MIN_ETINY], and
    the exponent of the leading digit (of the number itself for a zero)
    at most [MAX_EMAX], the constants of the module [decimal] on a
    64-bit build. *)
Definition MAX_EMAX : Z := 999999999999999999.
Definition MIN_ETINY : Z := -1999999999999999997.

Definition representable (c e : Z) : bool :=
  (MIN_ETINY <=? e)
  && (if c =? 0 then e <=? MAX_EMAX else e + Dec.ndigits c - 1 <=? MAX_EMAX).

(** The number alternative of the grammar: digits with an optional
    fraction, at least one digit in all, and an optional exponent. *)
Definition number (s : bool) (l : list ascii) : option Dec.t :=
  let '(ip, r1) := take_digits l in
  let '(fp, r2) :=
    match r1 with
    | "."%char :: t => take_digits t
    | _ => ([], r1)
    end in
  match ip ++ fp with
  | [] => None
  | ds =>
      match exponent r2 with
      | Some e =>
          let c := digits_value ds in
          let e := e - Z.of_nat (List.length fp) in
          if representable c e then Some (Dec.Fin s (Z.to_N c) e) else None
      | None => None
      end
  end.

Definition all_digits (l : list ascii) : bool := forallb is_digit l.

(** [Decimal(s)] for a string: surrounding whitespace and underscores
    are removed, then the string is a signed number, infinity or NaN;
    [None] is the conversion-syntax failure. *)
Definition decimal (str : string) : option Dec.t :=
  let l := strip (list_ascii_of_string str) in
  let l := filter (fun c => negb (Ascii.eqb c "_")) l in
  let '(s, body) := take_sign l in
  match map lower body with
  | ["i"; "n"; "f"]%char => Some (Dec.Inf s)
  | ["i"; "n"; "f"; "i"; "n"; "i"; "t"; "y"]%char => Some (Dec.Inf s)
  | "n"%char :: "a"%char :: "n"%char :: d =>
      if all_digits d then Some (Dec.NaN s false) else None
  | "s"%char :: "n"%char :: "a"%char :: "n"%char :: d =>
      if all_digits d then Some (Dec.NaN s true) else None
  | _ => number s body
  end.

End Parse.

(** ** Python values *)

(** A [Vector] object: the two attributes set by [__init__]. *)
Record Vector : Type := mkVector {
  coordinates : list Dec.t;
  dimension : Z
}.

(** The Python values that reach the class: the scalars, and lists and
    tuples of scalars.  A [str] is a scalar that can also be iterated,
    character by character; its text is ASCII (see [Parse]). *)
Inductive atom : Type :=
| ANone
| ABool (b : bool)
| AInt (n : Z)
| AFloat (f : Flt.t)
| AStr (s : string)
| ADec (d : Dec.t)
| AVec (v : Vector).

Inductive pyval : Type :=
| Atom (a : atom)
| PyList (l : list atom)
| PyTuple (l : list atom).

Coercion Atom : atom >-> pyval.

(** Truth value of a Python object, as [not coordinates] reads it. *)
Definition truthy (v : pyval) : bool :=
  match v with
  | Atom ANone => false
  | Atom (ABool b) => b
  | Atom (AInt n) => negb (n =? 0)
  | Atom (AFloat (Flt.Fin _ m _)) => negb (m =? 0)%N
  | Atom (AFloat _) => true
  | Atom (AStr s) => negb (String.eqb s EmptyString)
  | Atom (ADec d) => negb (Dec.is_zero d)
  | Atom (AVec _) => true
  | PyList l | PyTuple l => negb (Nat.eqb (List.length l) 0)
  end.

(** [for x in coordinates]: the items of an iterable, [TypeError] for
    an object that is not iterable. *)
Definition iterate (v : pyval) : result (list atom) :=
  match v with
  | PyList l | PyTuple l => Ok l
  | Atom (AStr s) =>
      Ok (map (fun c => AStr (String c EmptyString)) (list_ascii_of_string s))
  | Atom _ => Raise (TypeError "object is not iterable")
  end.

(** [len(coordinates)] for the iterables above. *)
Definition len (v : pyval) : result Z :=
  l <- iterate v ;; Ok (Z.of_nat (List.length l)).

(** [Decimal(x)]: exact for [int], [bool], [float] and [Decimal];
    a string is parsed and a malformed one raises [InvalidOperation];
    any other object raises [TypeError]. *)
Definition Decimal (x : atom) : result Dec.t :=
  match x with
  | ABool b => Ok (Dec.of_Z (if b then 1 else 0))
  | AInt n => Ok (Dec.of_Z n)
  | AFloat f => Ok (Flt.to_Dec f)
  | ADec d => Ok d
  | AStr s =>
      match Parse.decimal s with
      | Some d => Ok d
      | None => Raise (InvalidOperation "Invalid literal for Decimal")
      end
  | ANone | AVec _ => Raise (TypeError "conversion to Decimal is not supported")
  end.

(** [isinstance(v, numbers.Number)]: [int], [bool], [float] and
    [Decimal] are numbers. *)
Definition is_number (v : pyval) : bool :=
  match v with
  | Atom (ABool _) | Atom (AInt _) | Atom (AFloat _) | Atom (ADec _) => true
  | _ => false
  end.

(** [isinstance(v, Vector)], with the object when it holds. *)
Definition as_Vector (v : pyval) : option Vector :=
  match v with
  | Atom (AVec w) => Some w
  | _ => None
  end.

(** ** The class [Vector] *)

Definition catch {A : Type} (c : result A) (h : exn -> exn) : result A :=
  match c with
  | Ok a => Ok a
  | Raise e => Raise (h e)
  end.

(** The two [except] clauses of [__init__]; any other exception
    propagates unchanged. *)
Definition init_except (e : exn) : exn :=
  match e with
  | InvalidOperation _ => InvalidOperation "The coordinates must be a valid number"
  | TypeError _ => TypeError "The coordinates must be iterable"
  | _ => e
  end.

(** [Vector.__init__]. *)
Definition __init__ (coords : pyval) : result Vector :=
  if negb (truthy coords) then Raise (ValueError EmptyString)
  else
    cs <- catch (l <- iterate coords ;; mapM Decimal l) init_except ;;
    n <- len coords ;;
    Ok (mkVector cs n).

(** [Vector([...])] on a list of [Decimal]s built inside a method. *)
Definition Vector_of (l : list Dec.t) : result Vector :=
  __init__ (PyList (map ADec l)).

(** The builtin [sum] on [Decimal]s: starts from the [int] 0, so the
    first step is [0 + x], evaluated as [x.__radd__(0)], that is
    [x + Decimal(0)]; every step rounds to the context.  The sum of the
    empty list is 0. *)
Fixpoint sum_from (acc : Dec.t) (l : list Dec.t) : result Dec.t :=
  match l with
  | [] => Ok acc
  | x :: t => a <- Dec.add acc x ;; sum_from a t
  end.

Definition sum (l : list Dec.t) : result Dec.t :=
  match l with
  | [] => Ok (Dec.of_Z 0)
  | x :: t => a <- Dec.add x (Dec.of_Z 0) ;; sum_from a t
  end.

(** [enumerate(l)] and [t[i]] for a non-negative index. *)
Definition enumerate {A : Type} (l : list A) : list (nat * A) :=
  combine (seq 0 (List.length l)) l.

Definition index (l : list Dec.t) (i : nat) : result Dec.t :=
  match nth_error l i with
  | Some y => Ok y
  | None => Raise IndexError
  end.

(** The operand of [Decimal * v] for a number [v]: an [int] or [bool]
    is converted exactly, a [float] is refused with [TypeError]. *)
Definition mul_operand (x : Dec.t) (v : pyval) : result Dec.t :=
  match v with
  | Atom (ADec d) => Dec.mul x d
  | Atom (AInt n) => Dec.mul x (Dec.of_Z n)
  | Atom (ABool b) => Dec.mul x (Dec.of_Z (if b then 1 else 0))
  | _ => Raise (TypeError "unsupported operand type(s) for *")
  end.

Section VectorClass.

(** [math.acos] on [[-1, 1]] is the platform's C library function; it
    is the one primitive kept abstract. *)
Variable acos : Flt.t -> Flt.t.

(** [math.acos(x)] for a [Decimal] argument: converted with
    [float(x)]; a NaN gives NaN, a value outside [[-1, 1]] raises
    [ValueError] (math domain error). *)
Definition math_acos (x : Dec.t) : result Flt.t :=
  f <- Flt.of_Dec x ;;
  if Flt.is_nan f then Ok Flt.NaN
  else if Flt.abs_le_one f then Ok (acos f)
  else Raise (ValueError "math domain error").

(** [Vector.mag]. *)
Definition mag (self : Vector) : result Dec.t :=
  sqs <- mapM Dec.sq (coordinates self) ;;
  s <- sum sqs ;;
  f <- Flt.of_Dec s ;;
  r <- Flt.sqrt f ;;
  Ok (Flt.to_Dec r).

(** [Vector.dot]. *)
Definition dot (self : Vector) (v : pyval) : result Dec.t :=
  match as_Vector v with
  | None => Raise (TypeError "Argument must be a vector")
  | Some w =>
      ps <- mapM (fun '(i, x) => y <- index (coordinates w) i ;; Dec.mul x y)
                 (enumerate (coordinates self)) ;;
      sum ps
  end.

(** [Vector.cross]. *)
Definition cross (self : Vector) (v : pyval) : result Vector :=
  match as_Vector v with
  | None => Raise (TypeError "Argument must be a vector")
  | Some w =>
      if negb ((dimension self =? dimension w) && (dimension w =? 3))
      then Raise NotImplementedError
      else
        match coordinates self, coordinates w with
        | [x1; y1; z1], [x2; y2; z2] =>
            a <- Dec.mul y1 z2 ;; b <- Dec.mul y2 z1 ;; x <- Dec.sub a b ;;
            a <- Dec.mul x1 z2 ;; b <- Dec.mul x2 z1 ;; c <- Dec.sub a b ;;
            y <- Dec.neg c ;;
            a <- Dec.mul x1 y2 ;; b <- Dec.mul x2 y1 ;; z <- Dec.sub a b ;;
            Vector_of [x; y; z]
        | _, _ => Raise (ValueError "not enough values to unpack")
        end
  end.

(** [Vector.__mul__], also [__rmul__]. *)
Definition __mul__ (self : Vector) (v : pyval) : result Vector :=
  if is_number v then
    cs <- mapM (fun x => mul_operand x v) (coordinates self) ;;
    Vector_of cs
  else
    match as_Vector v with
    | Some _ => cross self v
    | None => Raise (TypeError "Argument must be number or a vector")
    end.

(** [Vector.norm]. *)
Definition norm (self : Vector) : result Vector :=
  m <- mag self ;;
  b <- Dec.ne m (Dec.of_Z 0) ;;
  if b then
    m' <- mag self ;;
    k <- Dec.div (Flt.to_Dec Flt.one) m' ;;
    __mul__ self (ADec k)
  else Raise (ZeroDivisionError "Cannot normalize the zero vector").

(** [Vector.area_of_parallelogram] and [Vector.area_of_triangle]. *)
Definition area_of_parallelogram (self : Vector) (v : pyval) : result Dec.t :=
  match as_Vector v with
  | None => Raise (TypeError "Argument must be a vector")
  | Some _ => c <- cross self v ;; mag c
  end.

Definition area_of_triangle (self : Vector) (v : pyval) : result Dec.t :=
  match as_Vector v with
  | None => Raise (TypeError "Argument must be a vector")
  | Some _ => a <- area_of_parallelogram self v ;; Dec.div a (Dec.of_Z 2)
  end.

(** [Vector.__clean_angle]. [min(1, max(a, -1))] keeps [a] unless
    [-1 > a], then keeps 1 unless the result is below 1; with a
    [Decimal] the comparisons are [Decimal.__lt__] and a NaN raises. *)
Definition __clean_angle (a : pyval) : result Dec.t :=
  if negb (is_number a) then Raise (TypeError "Invalied number provided")
  else
    match a with
    | Atom (ADec d) =>
        below <- Dec.lt d (Dec.of_Z (-1)) ;;
        if below then Ok (Dec.of_Z (-1))
        else
          inside <- Dec.lt d (Dec.of_Z 1) ;;
          if inside then Ok d else Ok (Dec.of_Z 1)
    | Atom (AInt n) =>
        let m := if n <? -1 then -1 else n in
        Ok (Dec.of_Z (if m <? 1 then m else 1))
    | Atom (ABool b) => Ok (Dec.of_Z (if b then 1 else 0))
    | Atom (AFloat f) =>
        if Flt.is_nan f then Ok (Dec.of_Z 1)
        else
          match Dec.cmp (Flt.to_Dec f) (Dec.of_Z (-1)) with
          | Lt => Ok (Dec.of_Z (-1))
          | _ =>
              match Dec.cmp (Flt.to_Dec f) (Dec.of_Z 1) with
              | Lt => Ok (Flt.to_Dec f)
              | _ => Ok (Dec.of_Z 1)
              end
          end
    | _ => Raise (TypeError "Invalied number provided")
    end.

(** [Vector.theta]. *)
Definition theta (self : Vector) (v : pyval) (in_degrees : bool) : result Flt.t :=
  match as_Vector v with
  | None => Raise (TypeError "Argument must be a vector")
  | Some w =>
      m1 <- mag self ;;
      m2 <- mag w ;;
      mag_product <- Dec.mul m1 m2 ;;
      z <- Dec.eq mag_product (Dec.of_Z 0) ;;
      if z then Raise (PyException "Cannot find angle for a zero vector")
      else
        d <- dot self v ;;
        q <- Dec.div d mag_product ;;
        a <- __clean_angle (ADec q) ;;
        t <- math_acos a ;;
        if in_degrees then Ok (Flt.degrees t) else Ok t
  end.

(** [Vector.__add__] and [Vector.__sub__]. *)
Definition __add__ (self : Vector) (v : pyval) : result Vector :=
  match as_Vector v with
  | None => Raise (TypeError "You can only add two vectors")
  | Some w =>
      cs <- mapM (fun '(i, x) => y <- index (coordinates w) i ;; Dec.add x y)
                 (enumerate (coordinates self)) ;;
      Vector_of cs
  end.

Definition __sub__ (self : Vector) (v : pyval) : result Vector :=
  match as_Vector v with
  | None => Raise (TypeError "You can only add two vectors")
  | Some w =>
      cs <- mapM (fun '(i, x) => y <- index (coordinates w) i ;; Dec.sub x y)
                 (enumerate (coordinates self)) ;;
      Vector_of cs
  end.

(** [Vector.proj_on]: [self.dot(v.norm) * v.norm]; the product of a
    [Decimal] and a [Vector] is [Vector.__rmul__]. *)
Definition proj_on (self : Vector) (v : pyval) : result Vector :=
  match as_Vector v with
  | None => Raise (TypeError "Argument must be a vector")
  | Some w =>
      n <- norm w ;;
      d <- dot self (AVec n) ;;
      n' <- norm w ;;
      __mul__ n' (ADec d)
  end.

(** [Vector.orthogonal_to]. *)
Definition orthogonal_to (self : Vector) (v : pyval) : result Vector :=
  match as_Vector v with
  | None => Raise (TypeError "Argument must be a vector")
  | Some _ => p <- proj_on self v ;; __sub__ self (AVec p)
  end.

(** [Vector.decompose]. *)
Definition decompose (self : Vector) (v : pyval) : result (Vector * Vector) :=
  match as_Vector v with
  | None => Raise (TypeError "Argument must be a vector")
  | Some _ =>
      p <- proj_on self v ;;
      o <- orthogonal_to self v ;;
      Ok (p, o)
  end.

(** [Vector.is_zero]: [self.mag < tolerance], a [Decimal] compared
    with a [float]. *)
Definition is_zero (self : Vector) (tolerance : Flt.t) : result bool :=
  m <- mag self ;; Dec.lt m (Flt.to_Dec tolerance).

(** [Vector.is_orthogonal_to]. *)
Definition is_orthogonal_to (self : Vector) (v : pyval) (tolerance : Flt.t)
  : result bool :=
  match as_Vector v with
  | None => Raise (TypeError "Argument must be a vector")
  | Some _ =>
      d <- dot self v ;;
      a <- Dec.abs d ;;
      Dec.lt a (Flt.to_Dec tolerance)
  end.

(** [x == Decimal(c)] for a [float] [x]: the comparison is
    [Decimal.__eq__] on the exact value of the float. *)
Definition float_eq_Dec (x : Flt.t) (c : Dec.t) : result bool :=
  Dec.eq c (Flt.to_Dec x).

(** [Vector.is_parallel_to]: a chain of [or], evaluated left to right
    and stopping at the first true operand. *)
Definition is_parallel_to (self : Vector) (v : pyval) : result bool :=
  match as_Vector v with
  | None => Raise (TypeError "Argument must be a vector")
  | Some w =>
      z1 <- is_zero self Flt.tol_default ;;
      if z1 then Ok true
      else
        z2 <- is_zero w Flt.tol_default ;;
        if z2 then Ok true
        else
          t <- theta self v false ;;
          p <- float_eq_Dec t (Flt.to_Dec Flt.pi) ;;
          if p then Ok true
          else
            t' <- theta self v false ;;
            float_eq_Dec t' (Dec.of_Z 0)
  end.

(** Equality of two tuples of [Decimal]s that are not the same
    objects: the first pair of unequal items decides, then the
    lengths. *)
Fixpoint tuple_eq (l1 l2 : list Dec.t) : result bool :=
  match l1, l2 with
  | [], [] => Ok true
  | x :: t, y :: u => b <- Dec.eq x y ;; if b then tuple_eq t u else Ok false
  | _, _ => Ok false
  end.

(** [Vector.__eq__]. *)
Definition __eq__ (self : Vector) (v : pyval) : result bool :=
  match as_Vector v with
  | None => Raise AttributeError
  | Some w => tuple_eq (coordinates self) (coordinates w)
  end.

End VectorClass.

(** ** Specification-level definitions *)

(** The invariant [__init__] establishes: [dimension] is the number of
    coordinates, and there is at least one. *)
Definition wf (v : Vector) : Prop :=
  dimension v = Z.of_nat (List.length (coordinates v)) /\ coordinates v <> [].

Definition is_finite (d : Dec.t) : bool :=
  match d with
  | Dec.Fin _ _ _ => true
  | _ => false
  end.

(** Elementwise combination of two coordinate sequences paired by
    position, in the arithmetic of the context. *)
Definition zip_with (op : Dec.t -> Dec.t -> result Dec.t) (a b : list Dec.t)
  : result (list Dec.t) :=
  mapM (fun '(x, y) => op x y) (combine a b).

(** The comprehension [[op(x, w[i]) for i, x in enumerate(a)]] of
    [dot], [__add__] and [__sub__], with the index running from the
    length of [pre] into [pre ++ b]. *)
Definition indexed (op : Dec.t -> Dec.t -> result Dec.t) (pre b a : list Dec.t)
  : result (list Dec.t) :=
  mapM (fun '(i, x) => y <- index (pre ++ b) i ;; op x y)
       (combine (seq (List.length pre) (List.length a)) a).

(** The sum of the elementwise products, as the specification words
    the dot product. *)
Definition dot_spec (a b : list Dec.t) : result Dec.t :=
  ps <- zip_with Dec.mul a b ;; sum ps.

(** The three components of the cross product, as the specification
    writes them: [(y1*z2 - y2*z1, -(x1*z2 - x2*z1), x1*y2 - x2*y1)]. *)
Definition cross_spec (x1 y1 z1 x2 y2 z2 : Dec.t) : result (list Dec.t) :=
  a <- Dec.mul y1 z2 ;; b <- Dec.mul y2 z1 ;; x <- Dec.sub a b ;;
  a <- Dec.mul x1 z2 ;; b <- Dec.mul x2 z1 ;; c <- Dec.sub a b ;;
  y <- Dec.neg c ;;
  a <- Dec.mul x1 y2 ;; b <- Dec.mul x2 y1 ;; z <- Dec.sub a b ;;
  Ok [x; y; z].

(** [scale]: multiplication of every coordinate by a [Decimal]. *)
Definition scale_spec (v : Vector) (k : Dec.t) : result Vector :=
  cs <- mapM (fun x => Dec.mul x k) (coordinates v) ;; Vector_of cs.

(** The exceptions the arithmetic of [decimal] raises: the trapped
    signals of the context. *)
Definition arith_exn (e : exn) : Prop :=
  match e with
  | InvalidOperation _ | Overflow | DivisionByZero => True
  | _ => False
  end.

(** A number that [Decimal._fix] leaves unchanged, whatever its sign:
    every result of the arithmetic is one. *)
Definition rounded (d : Dec.t) : Prop :=
  match d with
  | Dec.Fin _ c e => forall s, Dec.fix_fin s c e = Ok (Dec.Fin s c e)
  | _ => True
  end.

(** [r'] is [r] with the opposite sign; a zero may carry any sign. *)
Definition negated (r r' : Dec.t) : Prop :=
  match r, r' with
  | Dec.Fin s c e, Dec.Fin s' c' e' =>
      c' = c /\ e' = e /\ (c <> 0%N -> s' = negb s)
  | Dec.Inf s, Dec.Inf s' => s' = negb s
  | _, _ => False
  end.

(** A finite number below [10^B] in absolute value: the position of
    its leading digit, [ndigits coeff + exp], is at most [B]. *)
Definition small (B : Z) (d : Dec.t) : Prop :=
  match d with
  | Dec.Fin _ c e => Dec.ndigits (Z.of_N c) + e <= B
  | _ => False
  end.

(** The clamp of a number that is not NaN to [[-1, 1]]. *)
Definition clamp_spec (q : Dec.t) : Dec.t :=
  match Dec.cmp q (Dec.of_Z (-1)) with
  | Lt => Dec.of_Z (-1)
  | _ =>
      match Dec.cmp q (Dec.of_Z 1) with
      | Lt => q
      | _ => Dec.of_Z 1
      end
  end.

(** The angle as the specification writes it, from the dot product [d]
    and the product [p] of the magnitudes:
    [acos(clamp(d / p, -1, 1))], in degrees when asked; a quotient that
    is not a number is refused. *)
Definition angle_spec (acos : Flt.t -> Flt.t) (d p : Dec.t) (in_degrees : bool)
  : result Flt.t :=
  q <- Dec.div d p ;;
  if Dec.is_nan q then Raise (InvalidOperation "comparison involving NaN")
  else
    f <- Flt.of_Dec (clamp_spec q) ;;
    Ok (if in_degrees then Flt.degrees (acos f) else acos f).

(** A vector from a list of integers, and one from a list of decimal
    literals, for the examples. *)
Definition vec (l : list Z) : result Vector := __init__ (PyList (map AInt l)).

Definition vec_str (l : list string) : result Vector :=
  __init__ (PyList (map AStr l)).

(** The values of [math.acos] at 1, -1 and 0, for the examples. *)
Definition acos_sample (f : Flt.t) : Flt.t :=
  match f with
  | Flt.Fin false 1 0 => Flt.Fin false 0 0
  | Flt.Fin true 1 0 => Flt.pi
  | Flt.Fin _ 0 _ => Flt.Fin false 7074237752028440 (-52)
  | _ => Flt.NaN
  end.

(** ** The sum of the components of [decompose] *)

(** The exponent of the unit in the 30th significant digit of a finite
    number, never below [Etiny]: every rounding of the context is off
    by at most half of this unit of its result. *)
Definition ulp_exp (d : Dec.t) : Z :=
  match d with
  | Dec.Fin _ c e => Z.max (Dec.ndigits (Z.of_N c) + e - Dec.prec) Dec.Etiny
  | _ => 0
  end.

(** [s] is [x] up to the roundings of [o = x - p] and [s = p + o]: the
    two differ by at most half a unit in the 30th digit of [o] plus half
    a unit in the 30th digit of [s].  The numbers are compared as
    integers, scaled to a common exponent [E]. *)
Definition within_rounding (x o s : Dec.t) : bool :=
  match x, o, s with
  | Dec.Fin sx cx ex, Dec.Fin _ _ _, Dec.Fin ss cs es =>
      let E := Z.min (Z.min ex es) (Z.min (ulp_exp o) (ulp_exp s)) in
      2 * Z.abs (Dec.scaled ss cs es E - Dec.scaled sx cx ex E)
      <=? 10 ^ (ulp_exp o - E) + 10 ^ (ulp_exp s - E)
  | _, _, _ => false
  end.

(** The coordinates [s] of [p + o] give back the coordinates [v], each
    up to the two roundings, [o] being the coordinates of [v - p]. *)
Definition sums_back (v o s : list Dec.t) : Prop :=
  List.length o = List.length v /\ List.length s = List.length v
  /\ Forall (fun '(x, (oi, si)) => within_rounding x oi si = true)
       (combine v (combine o s)).

(** ** Predicates for the further properties *)

(** A [Decimal] that is not below zero: a finite number or an infinity
    with the sign bit clear, or a quiet NaN. *)
Definition nonneg (d : Dec.t) : Prop :=
  match d with
  | Dec.Fin s _ _ => s = false
  | Dec.Inf s => s = false
  | Dec.NaN _ g => g = false
  end.

(** The same for a float. *)
Definition fnonneg (f : Flt.t) : Prop :=
  match f with
  | Flt.Fin s _ _ => s = false
  | Flt.Inf s => s = false
  | Flt.NaN => True
  end.

(** A vector none of whose coordinates is a NaN. *)
Definition no_nan (v : Vector) : Prop :=
  Forall (fun d => Dec.is_nan d = false) (coordinates v).

(** A coordinate as the arithmetic of the class produces it: already
    rounded to the context and not a signalling NaN. *)
Definition canonical (d : Dec.t) : Prop :=
  rounded d /\ Dec.is_snan d = false.

(** A vector all of whose coordinates are zeros, of either sign and
    any exponent. *)
Definition zero_vector (v : Vector) : Prop :=
  Forall (fun d => Dec.is_zero d = true) (coordinates v).

(** A vector all of whose coordinates are finite numbers. *)
Definition finite_vector (v : Vector) : Prop :=
  Forall (fun d => is_finite d = true) (coordinates v).

(** The characters of a [str], as iterating it yields them, and the
    number a decimal digit stands for. *)
Definition chars (s : string) : list ascii := list_ascii_of_string s.

Definition digit_value (c : ascii) : Dec.t :=
  Dec.of_Z (Z.of_nat (nat_of_ascii c) - 48).

Definition is_ascii (c : ascii) : bool := (nat_of_ascii c <? 128)%nat.

(** ** Checks of the model against the interpreter *)

Example tol_default_value :
  Flt.of_Dec (Dec.Fin false 1 (-10)) = Ok Flt.tol_default.
Proof. vm_compute. reflexivity. Qed.

Example radToDeg_value :
  Flt.radToDeg = Flt.Fin false 8063664102031864 (-47).
Proof. reflexivity. Qed.

Example sq_rounds_twice :
  Dec.sq (Dec.of_Z 72975599719047501)
  = Ok (Dec.Fin false 532543815435464570688550669434 4).
Proof. vm_compute. reflexivity. Qed.

Example parse_exponent_limit :
  Parse.decimal "1e999999999999999999" = Some (Dec.Fin false 1 999999999999999999)
  /\ Parse.decimal "1e1000000000000000000" = None.
Proof. split; vm_compute; reflexivity. Qed.

Example sqrt_25 :
  Flt.sqrt (Flt.Fin false 25 0) = Ok (Flt.Fin false 5629499534213120 (-50)).
Proof. vm_compute. reflexivity. Qed.

Example parse_signed_exponent :
  Parse.decimal "-12.50e3" = Some (Dec.Fin true 1250 1).
Proof. reflexivity. Qed.

Example parse_leading_point : Parse.decimal " .5 " = Some (Dec.Fin false 5 (-1)).
Proof. reflexivity. Qed.

Example parse_letters : Parse.decimal "abc" = None.
Proof. reflexivity. Qed.

Example parse_nan : Parse.decimal "NaN" = Some (Dec.NaN false false).
Proof. reflexivity. Qed.

Example parse_lone_point : Parse.decimal "." = None.
Proof. reflexivity. Qed.

Example third_rounds :
  Dec.div (Dec.of_Z 1) (Dec.of_Z 3)
  = Ok (Dec.Fin false 333333333333333333333333333333 (-30)).
Proof. vm_compute. reflexivity. Qed.

Example mag_3_4 : (w <- vec [3; 4] ;; mag w) = Ok (Dec.Fin false 5 0).
Proof. vm_compute. reflexivity. Qed.

Example degrees_of_right_angle :
  (v <- vec [1; 0; 0] ;; w <- vec [0; 1; 0] ;;
   t <- theta acos_sample v (AVec w) true ;; Ok (Flt.to_Dec t))
  = Ok (Dec.Fin false 90 0).
Proof. vm_compute. reflexivity. Qed.

(** ** Lemmas on the monad and on construction *)

Lemma bind_ok_inv {A B : Type} (c : result A) (k : A -> result B) (b : B) :
  bind c k = Ok b -> exists a, c = Ok a /\ k a = Ok b.
Proof.
  destruct c as [a | e]; simpl; intros H.
  - exists a. split; [reflexivity | exact H].
  - discriminate H.
Qed.

Lemma bind_raise_inv {A B : Type} (c : result A) (k : A -> result B) (e : exn) :
  bind c k = Raise e -> c = Raise e \/ exists a, c = Ok a /\ k a = Raise e.
Proof.
  destruct c as [a | e']; simpl; intros H.
  - right. exists a. split; [reflexivity | exact H].
  - left. injection H as ->. reflexivity.
Qed.

Lemma mapM_length {A B : Type} (f : A -> result B) (l : list A) (l' : list B) :
  mapM f l = Ok l' -> List.length l' = List.length l.
Proof.
  revert l'. induction l as [| x t IH]; simpl; intros l' H.
  - injection H as <-. reflexivity.
  - destruct (f x) as [y | e]; simpl in H; [| discriminate H].
    destruct (mapM f t) as [ys | e]; simpl in H; [| discriminate H].
    injection H as <-. simpl. f_equal. apply IH. reflexivity.
Qed.

Lemma mapM_Decimal_ADec (l : list Dec.t) : mapM Decimal (map ADec l) = Ok l.
Proof.
  induction l as [| d t IH]; simpl; [reflexivity |].
  rewrite IH. reflexivity.
Qed.

Lemma Vector_of_ok (l : list Dec.t) :
  l <> [] -> Vector_of l = Ok (mkVector l (Z.of_nat (List.length l))).
Proof.
  intros Hl. unfold Vector_of, __init__.
  destruct l as [| d t]; [contradiction Hl; reflexivity |].
  cbn [truthy map List.length Nat.eqb negb iterate len bind].
  change (ADec d :: map ADec t) with (map ADec (d :: t)).
  rewrite mapM_Decimal_ADec. cbn [catch bind].
  rewrite length_map. reflexivity.
Qed.

Lemma Vector_of_inv (l : list Dec.t) (v : Vector) :
  Vector_of l = Ok v -> l <> [] /\ v = mkVector l (Z.of_nat (List.length l)).
Proof.
  intros H. destruct l as [| d t].
  - discriminate H.
  - assert (Hne : d :: t <> []) by discriminate.
    rewrite (Vector_of_ok _ Hne) in H. injection H as <-.
    split; [exact Hne | reflexivity].
Qed.

Lemma Vector_of_raise (l : list Dec.t) (e : exn) :
  Vector_of l = Raise e -> l = [] /\ e = ValueError EmptyString.
Proof.
  intros H. destruct l as [| d t].
  - injection H as <-. split; reflexivity.
  - rewrite Vector_of_ok in H by discriminate. discriminate H.
Qed.

Lemma iterate_truthy_nonempty (input : pyval) (l : list atom) :
  truthy input = true -> iterate input = Ok l -> l <> [].
Proof.
  destruct input as [a | l' | l']; simpl.
  - destruct a; try discriminate. intros Ht Hi. injection Hi as <-.
    destruct s; [discriminate Ht | discriminate].
  - intros Ht Hi. injection Hi as <-. destruct l'; [discriminate Ht | discriminate].
  - intros Ht Hi. injection Hi as <-. destruct l'; [discriminate Ht | discriminate].
Qed.

Lemma Vector_init_ok_inv (input : pyval) (v : Vector) :
  __init__ input = Ok v ->
  exists l, truthy input = true /\ iterate input = Ok l
            /\ mapM Decimal l = Ok (coordinates v)
            /\ dimension v = Z.of_nat (List.length l).
Proof.
  unfold __init__. destruct (truthy input) eqn:Ht; simpl; [| discriminate].
  unfold len. destruct (iterate input) as [l | e] eqn:Hi; simpl; [| discriminate].
  destruct (mapM Decimal l) as [cs | e] eqn:Hm; simpl; [| discriminate].
  intros H. injection H as <-. exists l. simpl. auto.
Qed.

Lemma Vector_init_wf (input : pyval) (v : Vector) :
  __init__ input = Ok v -> wf v.
Proof.
  intros H. destruct (Vector_init_ok_inv _ _ H) as (l & Ht & Hi & Hm & Hd).
  pose proof (mapM_length _ _ _ Hm) as Hlen.
  pose proof (iterate_truthy_nonempty _ _ Ht Hi) as Hne.
  split.
  - rewrite Hd, Hlen. reflexivity.
  - intros Hc. rewrite Hc in Hlen. destruct l; [apply Hne; reflexivity | discriminate Hlen].
Qed.

Lemma mapM_app_raise {A B : Type} (f : A -> result B) (l1 l2 : list A)
      (x : A) (ys : list B) (e : exn) :
  mapM f l1 = Ok ys -> f x = Raise e -> mapM f (l1 ++ x :: l2) = Raise e.
Proof.
  revert ys. induction l1 as [| a t IH]; simpl; intros ys H1 Hx.
  - rewrite Hx. reflexivity.
  - destruct (f a) as [y | e']; simpl in *; [| discriminate H1].
    destruct (mapM f t) as [ys' | e']; simpl in *; [| discriminate H1].
    rewrite (IH ys' eq_refl Hx). reflexivity.
Qed.

(** ** Construction *)

(** C5.  An empty sequence fails with [EmptyVectorError] and a
    non-iterable object whose truth value is true fails with
    [NotIterableError]; but [None] and [0], which are not iterable,
    are refused by the emptiness test before any iteration and fail
    with [EmptyVectorError] as well. *)
Theorem init_falsy_non_iterable :
  __init__ (PyList []) = Raise EmptyVectorError
  /\ __init__ (PyTuple []) = Raise EmptyVectorError
  /\ __init__ (Atom (AInt 5)) = Raise NotIterableError
  /\ iterate (Atom ANone) = Raise (TypeError "object is not iterable")
  /\ __init__ (Atom ANone) = Raise EmptyVectorError
  /\ iterate (Atom (AInt 0)) = Raise (TypeError "object is not iterable")
  /\ __init__ (Atom (AInt 0)) = Raise EmptyVectorError.
Proof. repeat split; reflexivity. Qed.

(** C4, as stated, fails: the strings ["NaN"] and ["Infinity"] are
    accepted by [Decimal] and stored. *)
Lemma init_accepts_nan_and_infinity :
  exists v, __init__ (PyList [AStr "NaN"; AStr "Infinity"]) = Ok v
            /\ Forall (fun d => is_finite d = false) (coordinates v).
Proof.
  eexists. split; [reflexivity |].
  simpl. repeat constructor.
Qed.

(** C4, amended.  After a successful construction the stored
    coordinates are exactly the [Decimal] conversions of the elements
    of the input, in order, and [dimension] is their number; and
    construction from a non-empty iterable fails with
    [InvalidNumberError] when the first element whose conversion fails
    is a string of ASCII characters that is not a decimal literal. *)
Theorem init_converts_each_element (input : pyval) :
  (forall v, __init__ input = Ok v ->
     exists l, iterate input = Ok l
               /\ mapM Decimal l = Ok (coordinates v)
               /\ dimension v = Z.of_nat (List.length l))
  /\ (forall l1 s l2 ds,
        truthy input = true ->
        iterate input = Ok (l1 ++ AStr s :: l2) ->
        mapM Decimal l1 = Ok ds ->
        forallb is_ascii (chars s) = true ->
        Parse.decimal s = None ->
        __init__ input = Raise InvalidNumberError).
Proof.
  split.
  - intros v H. destruct (Vector_init_ok_inv _ _ H) as (l & _ & Hi & Hm & Hd).
    exists l. auto.
  - intros l1 s l2 ds Ht Hi Hm _ Hp. unfold __init__. rewrite Ht, Hi. simpl.
    rewrite (mapM_app_raise Decimal l1 l2 (AStr s) ds
               (InvalidOperation "Invalid literal for Decimal") Hm).
    + reflexivity.
    + simpl. rewrite Hp. reflexivity.
Qed.

Lemma init_converts_each_element_witness :
  __init__ (PyList [AInt 1; AStr "abc"]) = Raise InvalidNumberError
  /\ exists l, iterate (PyList [AInt 1; AStr "2.5"]) = Ok l
               /\ mapM Decimal l = Ok [Dec.Fin false 1 0; Dec.Fin false 25 (-1)]
               /\ 2 = Z.of_nat (List.length l).
Proof.
  split.
  - apply (proj2 (init_converts_each_element (PyList [AInt 1; AStr "abc"]))
             [AInt 1] "abc"%string [] [Dec.Fin false 1 0]); reflexivity.
  - apply (proj1 (init_converts_each_element (PyList [AInt 1; AStr "2.5"]))
             (mkVector [Dec.Fin false 1 0; Dec.Fin false 25 (-1)] 2)).
    reflexivity.
Defined.

(** ** Operations that pair coordinates by position *)

Section Paired.

Variable op : Dec.t -> Dec.t -> result Dec.t.

Lemma index_middle (pre b : list Dec.t) (y : Dec.t) :
  index (pre ++ y :: b) (List.length pre) = Ok y.
Proof.
  unfold index. rewrite nth_error_app2 by apply Nat.le_refl.
  rewrite Nat.sub_diag. reflexivity.
Qed.

Lemma index_end (pre : list Dec.t) :
  index (pre ++ []) (List.length pre) = Raise IndexError.
Proof.
  unfold index. rewrite nth_error_app2 by apply Nat.le_refl.
  rewrite Nat.sub_diag. reflexivity.
Qed.

Lemma indexed_long (a : list Dec.t) :
  forall pre b, (List.length a <= List.length b)%nat ->
    indexed op pre b a = zip_with op a b.
Proof.
  unfold indexed, zip_with.
  induction a as [| x t IH]; intros pre b Hlen; [reflexivity |].
  destruct b as [| y u]; [simpl in Hlen; lia |].
  simpl. rewrite index_middle. simpl.
  destruct (op x y) as [r | e]; simpl; [| reflexivity].
  specialize (IH (pre ++ [y]) u).
  rewrite length_app, Nat.add_1_r, <- app_assoc in IH. simpl in IH.
  rewrite IH by (simpl in Hlen; lia). reflexivity.
Qed.

Lemma indexed_short (a : list Dec.t) :
  forall pre b, (List.length b < List.length a)%nat ->
    (exists e, indexed op pre b a = Raise e)
    /\ (forall l, zip_with op (firstn (List.length b) a) b = Ok l ->
          indexed op pre b a = Raise IndexError).
Proof.
  unfold indexed, zip_with.
  induction a as [| x t IH]; intros pre b Hlen; [simpl in Hlen; lia |].
  destruct b as [| y u].
  - simpl. rewrite index_end. simpl. split; [eexists; reflexivity | reflexivity].
  - simpl. rewrite index_middle. simpl.
    destruct (op x y) as [r | e]; simpl.
    + specialize (IH (pre ++ [y]) u).
      rewrite length_app, Nat.add_1_r, <- app_assoc in IH. simpl in IH.
      destruct IH as [[e He] IH2]; [simpl in Hlen; lia |].
      split.
      * exists e. rewrite He. reflexivity.
      * intros l Hl.
        destruct (mapM (fun '(x0, y0) => op x0 y0)
                       (combine (firstn (List.length u) t) u)) as [l' | e'] eqn:Hm;
          simpl in Hl; [| discriminate Hl].
        rewrite (IH2 l' eq_refl). reflexivity.
    + split; [eexists; reflexivity | intros l Hl; discriminate Hl].
Qed.

End Paired.

Lemma zip_with_length (op : Dec.t -> Dec.t -> result Dec.t) (a b l : list Dec.t) :
  (List.length a <= List.length b)%nat ->
  zip_with op a b = Ok l -> List.length l = List.length a.
Proof.
  intros Hlen H. unfold zip_with in H. apply mapM_length in H.
  rewrite H, length_combine. lia.
Qed.

Lemma dot_indexed (self w : Vector) :
  dot self (AVec w)
  = (ps <- indexed Dec.mul [] (coordinates w) (coordinates self) ;; sum ps).
Proof. reflexivity. Qed.

Lemma add_indexed (self w : Vector) :
  __add__ self (AVec w)
  = (cs <- indexed Dec.add [] (coordinates w) (coordinates self) ;; Vector_of cs).
Proof. reflexivity. Qed.

Lemma sub_indexed (self w : Vector) :
  __sub__ self (AVec w)
  = (cs <- indexed Dec.sub [] (coordinates w) (coordinates self) ;; Vector_of cs).
Proof. reflexivity. Qed.

(** An elementwise operation on a well-formed vector whose operand is
    at least as long: the result has the dimension of [self]. *)
Lemma paired_result (op : Dec.t -> Dec.t -> result Dec.t) (self : Vector)
      (b : list Dec.t) :
  wf self -> (List.length (coordinates self) <= List.length b)%nat ->
  (cs <- zip_with op (coordinates self) b ;; Vector_of cs)
  = (cs <- zip_with op (coordinates self) b ;; Ok (mkVector cs (dimension self))).
Proof.
  intros [Hd Hne] Hlen.
  destruct (zip_with op (coordinates self) b) as [l | e] eqn:Hz; simpl; [| reflexivity].
  pose proof (zip_with_length _ _ _ _ Hlen Hz) as Hl.
  rewrite Vector_of_ok.
  - rewrite Hl, Hd. reflexivity.
  - intros ->. destruct (coordinates self); [apply Hne; reflexivity | discriminate Hl].
Qed.

(** ** Dot product *)

(** C6.  For two vectors of equal dimension [dot] is the sum of the
    elementwise products paired by position; an operand that is not a
    [Vector] fails with [NotAVectorError]; and the dot product of
    (1, 2, 3) and (4, 5, 6) is exactly 32. *)
Theorem dot_sum_of_products :
  (forall self w, wf self -> wf w -> dimension self = dimension w ->
     dot self (AVec w) = dot_spec (coordinates self) (coordinates w))
  /\ (forall self v, as_Vector v = None -> dot self v = Raise NotAVectorError)
  /\ (v <- vec [1; 2; 3] ;; w <- vec [4; 5; 6] ;; dot v (AVec w))
     = Ok (Dec.of_Z 32).
Proof.
  split; [| split].
  - intros self w [Hd1 _] [Hd2 _] Hdim.
    rewrite dot_indexed, indexed_long; [reflexivity |].
    rewrite Hd1, Hd2 in Hdim. lia.
  - intros self v Hv. unfold dot. rewrite Hv. reflexivity.
  - vm_compute. reflexivity.
Qed.

Lemma dot_sum_of_products_witness :
  dot (mkVector [Dec.of_Z 1; Dec.of_Z 2] 2) (AVec (mkVector [Dec.of_Z 3; Dec.of_Z 4] 2))
  = dot_spec [Dec.of_Z 1; Dec.of_Z 2] [Dec.of_Z 3; Dec.of_Z 4]
  /\ dot (mkVector [Dec.of_Z 1] 1) (Atom (AInt 7)) = Raise NotAVectorError.
Proof.
  split.
  - apply (proj1 dot_sum_of_products
             (mkVector [Dec.of_Z 1; Dec.of_Z 2] 2)
             (mkVector [Dec.of_Z 3; Dec.of_Z 4] 2)).
    + split; [reflexivity | discriminate].
    + split; [reflexivity | discriminate].
    + reflexivity.
  - apply (proj1 (proj2 dot_sum_of_products)). reflexivity.
Defined.

(** ** Cross product *)

Lemma wf_three (v : Vector) :
  wf v -> dimension v = 3 -> exists x y z, coordinates v = [x; y; z].
Proof.
  intros [Hd _] H3. rewrite Hd in H3.
  destruct (coordinates v) as [| x [| y [| z [| u t]]]]; simpl in H3; try lia.
  exists x, y, z. reflexivity.
Qed.

Lemma cross_spec_length (x1 y1 z1 x2 y2 z2 : Dec.t) (cs : list Dec.t) :
  cross_spec x1 y1 z1 x2 y2 z2 = Ok cs -> exists x y z, cs = [x; y; z].
Proof.
  unfold cross_spec. intros H.
  repeat (apply bind_ok_inv in H; destruct H as (? & _ & H)).
  injection H as <-. eauto.
Qed.

(** The arithmetic of [decimal] raises only its trapped signals. *)
Lemma fix_fin_exn (s : bool) (c : N) (e : Z) (x : exn) :
  Dec.fix_fin s c e = Raise x -> x = Overflow.
Proof.
  unfold Dec.fix_fin. intros H.
  repeat match type of H with
         | context [if ?b then _ else _] => destruct b
         | context [let '(_, _) := ?p in _] => destruct p
         end; congruence.
Qed.

Lemma check_nans_exn (a b : Dec.t) (x : exn) :
  Dec.check_nans a b = Raise x -> arith_exn x.
Proof.
  destruct a as [? ? ? | ? | ? []], b as [? ? ? | ? | ? []]; simpl; intros H;
    try discriminate H; injection H as <-; exact I.
Qed.

Ltac arith_exn_tac H :=
  repeat match type of H with
         | context [if ?b then _ else _] => destruct b
         | context [let '(_, _) := ?p in _] => destruct p
         end;
  try discriminate H;
  try (apply fix_fin_exn in H; subst; exact I);
  try (injection H as <-; exact I).

Lemma add_exn (a b : Dec.t) (x : exn) : Dec.add a b = Raise x -> arith_exn x.
Proof.
  unfold Dec.add. intros H. apply bind_raise_inv in H.
  destruct H as [H | (n & _ & H)]; [exact (check_nans_exn _ _ _ H) |].
  destruct n; [discriminate H |].
  destruct a, b; simpl in H; arith_exn_tac H.
Qed.

Lemma sub_exn (a b : Dec.t) (x : exn) : Dec.sub a b = Raise x -> arith_exn x.
Proof.
  unfold Dec.sub. intros H. apply bind_raise_inv in H.
  destruct H as [H | (n & _ & H)]; [exact (check_nans_exn _ _ _ H) |].
  destruct n; [discriminate H |]. exact (add_exn _ _ _ H).
Qed.

Lemma mul_exn (a b : Dec.t) (x : exn) : Dec.mul a b = Raise x -> arith_exn x.
Proof.
  unfold Dec.mul. intros H. apply bind_raise_inv in H.
  destruct H as [H | (n & _ & H)]; [exact (check_nans_exn _ _ _ H) |].
  destruct n; [discriminate H |].
  destruct a, b; simpl in H; arith_exn_tac H.
Qed.

Lemma div_exn (a b : Dec.t) (x : exn) : Dec.div a b = Raise x -> arith_exn x.
Proof.
  unfold Dec.div. intros H. apply bind_raise_inv in H.
  destruct H as [H | (n & _ & H)]; [exact (check_nans_exn _ _ _ H) |].
  destruct n; [discriminate H |].
  destruct a, b; simpl in H; arith_exn_tac H.
Qed.

Lemma neg_exn (a : Dec.t) (x : exn) : Dec.neg a = Raise x -> arith_exn x.
Proof.
  destruct a as [? ? ? | ? | ? []]; simpl; intros H; arith_exn_tac H.
Qed.

Lemma fix_at_cases (p : Z) (s : bool) (c : N) (e : Z) :
  Dec.fix_at p s c e = Raise Overflow
  \/ exists q e1, Dec.fix_at p s c e = Ok (Dec.Fin s q e1).
Proof.
  unfold Dec.fix_at.
  destruct (c =? 0)%N; [right; eauto |].
  destruct (Dec.Emax - p + 1 <? Dec.ndigits (Z.of_N c) + e - p); [left; reflexivity |].
  destruct (e <? Z.max (Dec.ndigits (Z.of_N c) + e - p) (Dec.Emin - p + 1));
    [| right; eauto].
  destruct (p <? Dec.ndigits _).
  - destruct (Dec.Emax - p + 1 <? _); [left; reflexivity | right; eauto].
  - destruct (Dec.Emax - p + 1 <? _); [left; reflexivity | right; eauto].
Qed.

Lemma fix_at_exn (p : Z) (s : bool) (c : N) (e : Z) (x : exn) :
  Dec.fix_at p s c e = Raise x -> x = Overflow.
Proof.
  destruct (fix_at_cases p s c e) as [-> | (q & e1 & ->)]; congruence.
Qed.

Lemma fix_at_sign (p : Z) (s : bool) (c : N) (e : Z) (r : Dec.t) :
  Dec.fix_at p s c e = Ok r -> exists q e1, r = Dec.Fin s q e1.
Proof.
  destruct (fix_at_cases p s c e) as [-> | (q & e1 & ->)]; [discriminate |].
  intros [= <-]. eauto.
Qed.

Lemma sq_exn (a : Dec.t) (x : exn) : Dec.sq a = Raise x -> arith_exn x.
Proof.
  destruct a as [s c e | ? | ? []]; cbn [Dec.sq]; intros H; try discriminate H.
  - destruct (c =? 0)%N; [discriminate H |].
    apply bind_raise_inv in H. destruct H as [H | (r & Hr & H)].
    + apply fix_at_exn in H. subst x. exact I.
    + destruct (fix_at_sign _ _ _ _ _ Hr) as (q & e1 & ->). cbn [Dec.fix_] in H.
      apply fix_fin_exn in H. subst x. exact I.
  - injection H as <-. exact I.
Qed.

Ltac step_raise H :=
  match type of H with
  | bind _ _ = Raise _ =>
      apply bind_raise_inv in H; destruct H as [H | (? & _ & H)]
  end.

Ltac arith_raise H :=
  match type of H with
  | Dec.mul _ _ = Raise _ => exact (mul_exn _ _ _ H)
  | Dec.sub _ _ = Raise _ => exact (sub_exn _ _ _ H)
  | Dec.add _ _ = Raise _ => exact (add_exn _ _ _ H)
  | Dec.div _ _ = Raise _ => exact (div_exn _ _ _ H)
  | Dec.neg _ = Raise _ => exact (neg_exn _ _ H)
  | Dec.sq _ = Raise _ => exact (sq_exn _ _ H)
  end.

Lemma cross_spec_exn (x1 y1 z1 x2 y2 z2 : Dec.t) (x : exn) :
  cross_spec x1 y1 z1 x2 y2 z2 = Raise x -> arith_exn x.
Proof.
  unfold cross_spec. intros H.
  repeat (step_raise H; [arith_raise H |]).
  discriminate H.
Qed.

Lemma cross_three (self w : Vector) (x1 y1 z1 x2 y2 z2 : Dec.t) :
  coordinates self = [x1; y1; z1] -> coordinates w = [x2; y2; z2] ->
  dimension self = 3 -> dimension w = 3 ->
  cross self (AVec w) = (cs <- cross_spec x1 y1 z1 x2 y2 z2 ;; Ok (mkVector cs 3)).
Proof.
  intros Hc1 Hc2 Hd1 Hd2. unfold cross, cross_spec. simpl.
  rewrite Hc1, Hc2, Hd1, Hd2. simpl.
  destruct (Dec.mul y1 z2); simpl; [| reflexivity].
  destruct (Dec.mul y2 z1); simpl; [| reflexivity].
  destruct (Dec.sub _ _); simpl; [| reflexivity].
  destruct (Dec.mul x1 z2); simpl; [| reflexivity].
  destruct (Dec.mul x2 z1); simpl; [| reflexivity].
  destruct (Dec.sub _ _); simpl; [| reflexivity].
  destruct (Dec.neg _); simpl; [| reflexivity].
  destruct (Dec.mul x1 y2); simpl; [| reflexivity].
  destruct (Dec.mul x2 y1); simpl; [| reflexivity].
  destruct (Dec.sub _ _); simpl; [| reflexivity].
  reflexivity.
Qed.

Lemma cross_wrong_dimension (self w : Vector) :
  ~ (dimension self = 3 /\ dimension w = 3) ->
  cross self (AVec w) = Raise UnsupportedDimensionError.
Proof.
  intros Hn. unfold cross. simpl.
  destruct (dimension self =? dimension w) eqn:E1;
    destruct (dimension w =? 3) eqn:E2; simpl; try reflexivity.
  apply Z.eqb_eq in E1, E2. exfalso. apply Hn. split; congruence.
Qed.

Lemma cross_ok_dims (self w : Vector) (r : Vector) :
  cross self (AVec w) = Ok r -> dimension self = 3 /\ dimension w = 3.
Proof.
  intros H.
  destruct (Z.eq_dec (dimension self) 3) as [H1 | H1];
    destruct (Z.eq_dec (dimension w) 3) as [H2 | H2]; [split; assumption | | |];
    rewrite cross_wrong_dimension in H by (intros [? ?]; contradiction); discriminate H.
Qed.

(** ** Magnitude, normalization and projection *)

Lemma mapM_raise_inv {A B : Type} (f : A -> result B) (l : list A) (e : exn) :
  mapM f l = Raise e -> exists x, In x l /\ f x = Raise e.
Proof.
  induction l as [| a t IH]; simpl; intros H; [discriminate H |].
  step_raise H.
  - exists a. auto.
  - step_raise H.
    + destruct (IH H) as (y & Hy & Hf). exists y. auto.
    + discriminate H.
Qed.

Lemma sum_from_exn (l : list Dec.t) :
  forall acc e, sum_from acc l = Raise e -> arith_exn e.
Proof.
  induction l as [| x t IH]; simpl; intros acc e H; [discriminate H |].
  step_raise H; [arith_raise H | exact (IH _ _ H)].
Qed.

Lemma sum_exn (l : list Dec.t) (e : exn) : sum l = Raise e -> arith_exn e.
Proof.
  destruct l as [| x t]; simpl; intros H; [discriminate H |].
  step_raise H; [arith_raise H | exact (sum_from_exn _ _ _ H)].
Qed.

Lemma of_Dec_exn (d : Dec.t) (e : exn) :
  Flt.of_Dec d = Raise e -> exists m, e = ValueError m.
Proof.
  destruct d as [s c x | s | s []]; simpl; intros H; try discriminate H.
  - repeat match type of H with
           | context [if ?b then _ else _] => destruct b
           end; discriminate H.
  - injection H as <-. eexists. reflexivity.
Qed.

Lemma sqrt_exn (f : Flt.t) (e : exn) :
  Flt.sqrt f = Raise e -> exists m, e = ValueError m.
Proof.
  destruct f as [s m x | [] |]; simpl; intros H; try discriminate H.
  - repeat match type of H with
           | context [if ?b then _ else _] => destruct b
           end; try discriminate H.
    injection H as <-. eexists. reflexivity.
  - injection H as <-. eexists. reflexivity.
Qed.

(** [mag] raises only signals of the arithmetic or a [ValueError]. *)
Lemma mag_exn (v : Vector) (e : exn) :
  mag v = Raise e -> arith_exn e \/ exists m, e = ValueError m.
Proof.
  unfold mag. intros H.
  step_raise H.
  { apply mapM_raise_inv in H. destruct H as (x & _ & H). left. arith_raise H. }
  step_raise H; [left; exact (sum_exn _ _ H) |].
  step_raise H; [right; exact (of_Dec_exn _ _ H) |].
  step_raise H; [right; exact (sqrt_exn _ _ H) |].
  discriminate H.
Qed.

Lemma indexed_exn (op : Dec.t -> Dec.t -> result Dec.t) (pre b a : list Dec.t)
      (e : exn) :
  (forall x y e', op x y = Raise e' -> arith_exn e') ->
  indexed op pre b a = Raise e -> arith_exn e \/ e = IndexError.
Proof.
  intros Hop H. unfold indexed in H. apply mapM_raise_inv in H.
  destruct H as ([i x] & _ & H). step_raise H.
  - right. unfold index in H. destruct (nth_error _ _); [discriminate H |].
    injection H as <-. reflexivity.
  - left. exact (Hop _ _ _ H).
Qed.

Lemma dot_exn (self w : Vector) (e : exn) :
  dot self (AVec w) = Raise e -> arith_exn e \/ e = IndexError.
Proof.
  rewrite dot_indexed. intros H. step_raise H.
  - exact (indexed_exn _ _ _ _ _ mul_exn H).
  - left. exact (sum_exn _ _ H).
Qed.

Lemma mul_scalar (v : Vector) (k : Dec.t) : __mul__ v (ADec k) = scale_spec v k.
Proof. reflexivity. Qed.

Lemma scale_spec_exn (v : Vector) (k : Dec.t) (e : exn) :
  scale_spec v k = Raise e -> arith_exn e \/ e = ValueError EmptyString.
Proof.
  unfold scale_spec. intros H. step_raise H.
  - apply mapM_raise_inv in H. destruct H as (x & _ & H). left. arith_raise H.
  - right. apply Vector_of_raise in H. apply H.
Qed.

Lemma eq_exn (a b : Dec.t) (e : exn) : Dec.eq a b = Raise e -> arith_exn e.
Proof.
  unfold Dec.eq. intros H.
  repeat match type of H with
         | context [if ?b then _ else _] => destruct b
         end; try discriminate H.
  injection H as <-. exact I.
Qed.

Lemma arith_exn_not_zde (e : exn) (m : string) :
  arith_exn e -> e <> ZeroDivisionError m.
Proof. intros H ->. exact H. Qed.

(** [norm] raises [ZeroDivisionError] only at its own [raise]. *)
Lemma norm_zde (v : Vector) (msg : string) :
  norm v = Raise (ZeroDivisionError msg) ->
  exists m, mag v = Ok m /\ Dec.eq m (Dec.of_Z 0) = Ok true.
Proof.
  unfold norm, Dec.ne. intros H.
  destruct (mag v) as [m | e] eqn:Hm; simpl in H.
  - exists m. split; [reflexivity |].
    destruct (Dec.eq m (Dec.of_Z 0)) as [[|] | e] eqn:Hq; simpl in H.
    + reflexivity.
    + exfalso. step_raise H.
      { apply div_exn in H. contradiction H. }
      rewrite mul_scalar in H. apply scale_spec_exn in H.
      destruct H as [H | H]; [contradiction H | discriminate H].
    + injection H as ->. apply eq_exn in Hq. contradiction Hq.
  - injection H as ->. apply mag_exn in Hm.
    destruct Hm as [Hm | [? Hm]]; [contradiction Hm | discriminate Hm].
Qed.

Lemma norm_of_zero (v : Vector) (m : Dec.t) :
  mag v = Ok m -> Dec.eq m (Dec.of_Z 0) = Ok true -> norm v = Raise ZeroVectorError.
Proof.
  intros Hm Hz. unfold norm, Dec.ne. rewrite Hm. simpl. rewrite Hz. reflexivity.
Qed.

Lemma norm_of_nonzero (v : Vector) (m : Dec.t) :
  mag v = Ok m -> Dec.eq m (Dec.of_Z 0) = Ok false ->
  norm v = (k <- Dec.div (Dec.of_Z 1) m ;; scale_spec v k).
Proof.
  intros Hm Hz. unfold norm, Dec.ne. rewrite Hm. simpl. rewrite Hz. simpl.
  reflexivity.
Qed.

(** C2.  [normalized] fails with [ZeroVectorError] if and only if the
    magnitude is exactly zero, [mag == 0] with no tolerance, and
    otherwise is the vector scaled by [1 / magnitude]; [project_on]
    fails with the same error exactly when the magnitude of its operand
    is zero. *)
Theorem norm_zero_vector :
  (forall v,
     norm v = Raise ZeroVectorError
     <-> exists m, mag v = Ok m /\ Dec.eq m (Dec.of_Z 0) = Ok true)
  /\ (forall v m, mag v = Ok m -> Dec.eq m (Dec.of_Z 0) = Ok false ->
        norm v = (k <- Dec.div (Dec.of_Z 1) m ;; scale_spec v k))
  /\ (forall self w,
        proj_on self (AVec w) = Raise ZeroVectorError
        <-> exists m, mag w = Ok m /\ Dec.eq m (Dec.of_Z 0) = Ok true).
Proof.
  split; [| split].
  - intros v. split.
    + apply norm_zde.
    + intros (m & Hm & Hz). exact (norm_of_zero _ _ Hm Hz).
  - exact norm_of_nonzero.
  - intros self w. split.
    + intros H. unfold proj_on in H. simpl in H.
      step_raise H; [exact (norm_zde _ _ H) |].
      step_raise H.
      { apply dot_exn in H. destruct H as [H | H]; [contradiction H | discriminate H]. }
      step_raise H; [exact (norm_zde _ _ H) |].
      rewrite mul_scalar in H. apply scale_spec_exn in H.
      destruct H as [H | H]; [contradiction H | discriminate H].
    + intros (m & Hm & Hz). unfold proj_on. simpl.
      rewrite (norm_of_zero _ _ Hm Hz). reflexivity.
Qed.

Lemma norm_zero_vector_witness :
  norm (mkVector [Dec.of_Z 0; Dec.of_Z 0; Dec.of_Z 0] 3) = Raise ZeroVectorError
  /\ norm (mkVector [Dec.of_Z 3; Dec.of_Z 4] 2)
     = (k <- Dec.div (Dec.of_Z 1) (Dec.of_Z 5) ;;
        scale_spec (mkVector [Dec.of_Z 3; Dec.of_Z 4] 2) k)
  /\ proj_on (mkVector [Dec.of_Z 1; Dec.of_Z 2] 2)
             (AVec (mkVector [Dec.of_Z 0; Dec.of_Z 0] 2))
     = Raise ZeroVectorError.
Proof.
  destruct norm_zero_vector as (Hn & Hs & Hp).
  split; [| split].
  - apply Hn. exists (Dec.of_Z 0). split; vm_compute; reflexivity.
  - apply Hs; vm_compute; reflexivity.
  - apply Hp. exists (Dec.of_Z 0). split; vm_compute; reflexivity.
Defined.

(** ** Decomposition *)

Lemma scale_spec_length (v p : Vector) (k : Dec.t) :
  scale_spec v k = Ok p ->
  List.length (coordinates p) = List.length (coordinates v)
  /\ dimension p = Z.of_nat (List.length (coordinates v)).
Proof.
  unfold scale_spec. intros H.
  apply bind_ok_inv in H. destruct H as (cs & Hm & H).
  apply mapM_length in Hm. apply Vector_of_inv in H. destruct H as [_ ->].
  simpl. rewrite Hm. split; reflexivity.
Qed.

Lemma norm_length (v n : Vector) :
  norm v = Ok n ->
  List.length (coordinates n) = List.length (coordinates v)
  /\ dimension n = Z.of_nat (List.length (coordinates v)).
Proof.
  unfold norm. intros H.
  apply bind_ok_inv in H. destruct H as (m & _ & H).
  apply bind_ok_inv in H. destruct H as ([|] & _ & H); [| discriminate H].
  apply bind_ok_inv in H. destruct H as (m' & _ & H).
  apply bind_ok_inv in H. destruct H as (k & _ & H).
  rewrite mul_scalar in H. exact (scale_spec_length _ _ _ H).
Qed.

Lemma proj_on_length (self w p : Vector) :
  proj_on self (AVec w) = Ok p ->
  List.length (coordinates p) = List.length (coordinates w)
  /\ dimension p = Z.of_nat (List.length (coordinates w)).
Proof.
  unfold proj_on. simpl. intros H.
  apply bind_ok_inv in H. destruct H as (n & _ & H).
  apply bind_ok_inv in H. destruct H as (d & _ & H).
  apply bind_ok_inv in H. destruct H as (n' & Hn & H).
  rewrite mul_scalar in H. apply scale_spec_length in H.
  apply norm_length in Hn. destruct H as [H1 H2], Hn as [Hn1 Hn2].
  rewrite H1, H2, Hn1. split; reflexivity.
Qed.

(** C7, as stated, fails: for v = (100000000, 0) and w = (1, 1) the
    second component of [decompose] has a dot product with w of about
    1.4e-8, above the tolerance 1e-10 of [is_orthogonal_to]. *)
Lemma decompose_not_orthogonal :
  exists v w p o,
    vec [100000000; 0] = Ok v /\ vec [1; 1] = Ok w
    /\ dimension v = dimension w
    /\ is_zero w Flt.tol_default = Ok false
    /\ decompose v (AVec w) = Ok (p, o)
    /\ dot o (AVec w) = Ok (Dec.Fin false 136716173153240 (-22))
    /\ is_orthogonal_to o (AVec w) Flt.tol_default = Ok false.
Proof.
  do 4 eexists.
  split; [reflexivity |]. split; [reflexivity |]. split; [reflexivity |].
  split; [vm_compute; reflexivity |].
  split; [vm_compute; reflexivity |].
  split; vm_compute; reflexivity.
Qed.

(** ** Digits, rounding and the range of the clamp *)

Lemma ndigits_aux_pos (fuel : nat) (n : Z) : 1 <= Dec.ndigits_aux fuel n.
Proof.
  revert n. induction fuel as [| f IH]; intros n; cbn [Dec.ndigits_aux]; [lia |].
  destruct (n <? 10); [lia |]. specialize (IH (n / 10)). lia.
Qed.

Lemma ndigits_aux_spec (fuel : nat) :
  forall n, 0 < n -> Z.log2 n <= Z.of_nat fuel ->
    10 ^ (Dec.ndigits_aux fuel n - 1) <= n < 10 ^ Dec.ndigits_aux fuel n.
Proof.
  induction fuel as [| f IH]; intros n Hn Hl.
  - simpl. assert (n < 2 ^ 1) by (apply Z.log2_lt_pow2; lia). 
    change (2 ^ 1) with 2 in H. change (10 ^ (1 - 1)) with 1. change (10 ^ 1) with 10. lia.
  - cbn [Dec.ndigits_aux]. destruct (n <? 10) eqn:E.
    + apply Z.ltb_lt in E. change (10 ^ (1 - 1)) with 1. change (10 ^ 1) with 10. lia.
    + apply Z.ltb_ge in E.
      assert (H1 : 0 < n / 10) by (apply Z.div_str_pos; lia).
      assert (H2 : Z.log2 (n / 10) <= Z.of_nat f).
      { assert (n / 10 <= n / 2) by (apply Z.div_le_compat_l; lia).
        assert (Z.log2 (n / 10) <= Z.log2 (n / 2)) by (apply Z.log2_le_mono; lia).
        assert (Z.log2 (n / 2) = Z.log2 n - 1).
        { assert (1 <= Z.log2 n) by (apply Z.log2_le_pow2; simpl; lia).
          rewrite <- Z.div2_div, Z.div2_spec, Z.log2_shiftr by lia. lia. }
        lia. }
      specialize (IH _ H1 H2).
      pose proof (ndigits_aux_pos f (n / 10)) as Hp.
      set (d := Dec.ndigits_aux f (n / 10)) in *.
      replace (1 + d - 1) with (Z.succ (d - 1)) by lia.
      replace (1 + d) with (Z.succ d) by lia.
      rewrite !Z.pow_succ_r by lia.
      pose proof (Z.div_mod n 10 ltac:(lia)) as Hdm.
      pose proof (Z.mod_pos_bound n 10 ltac:(lia)) as Hmb.
      lia.
Qed.

Lemma ndigits_spec (n : Z) :
  0 < n -> 10 ^ (Dec.ndigits n - 1) <= n < 10 ^ Dec.ndigits n.
Proof.
  intros Hn. unfold Dec.ndigits. apply ndigits_aux_spec; [exact Hn |].
  rewrite Z2Nat.id by apply Z.log2_nonneg. lia.
Qed.

Lemma ndigits_pos (n : Z) : 1 <= Dec.ndigits n.
Proof. apply ndigits_aux_pos. Qed.

Lemma round_bits_nonneg (M k : Z) : 0 <= M -> 0 <= Flt.round_bits M k.
Proof.
  intros HM. unfold Flt.round_bits.
  assert (0 <= M / 2 ^ k).
  { destruct (Z.le_gt_cases 0 k).
    - apply Z.div_pos; [lia | apply Z.pow_pos_nonneg; lia].
    - rewrite Z.pow_neg_r by lia. rewrite Z.div_0_r. lia. }
  destruct (_ || _); lia.
Qed.

Lemma round_bits_le (M k B : Z) :
  0 <= M -> 0 < k -> M <= B * 2 ^ k -> Flt.round_bits M k <= B.
Proof.
  intros HM Hk HB. unfold Flt.round_bits.
  assert (Hp : 0 < 2 ^ k) by (apply Z.pow_pos_nonneg; lia).
  assert (Hh : 0 < 2 ^ (k - 1)) by (apply Z.pow_pos_nonneg; lia).
  pose proof (Z.div_mod M (2 ^ k) ltac:(lia)) as Hdm.
  pose proof (Z.mod_pos_bound M (2 ^ k) Hp) as Hmb.
  set (q := M / 2 ^ k) in *. set (r := M mod 2 ^ k) in *.
  assert (Hq : q <= B) by nia.
  destruct ((2 ^ (k - 1) <? r) || ((r =? 2 ^ (k - 1)) && Z.odd q)) eqn:E; [| lia].
  destruct (Z.eq_dec q B) as [-> | Hne]; [| lia].
  assert (r = 0) by nia. subst r.
  apply orb_true_iff in E. destruct E as [E | E].
  - apply Z.ltb_lt in E. lia.
  - apply andb_true_iff in E. destruct E as [E _]. apply Z.eqb_eq in E. lia.
Qed.

Lemma log2_le_of_le_pow2 (q b : Z) : 0 <= b -> q <= 2 ^ b -> Z.log2 q <= b.
Proof.
  intros Hb Hq. destruct (Z.le_gt_cases q 0) as [H | H].
  - rewrite Z.log2_nonpos by lia. lia.
  - assert (Z.log2 q <= Z.log2 (2 ^ b)) by (apply Z.log2_le_mono; lia).
    rewrite Z.log2_pow2 in * by lia. lia.
Qed.

Lemma round_le_one (s : bool) (M e : Z) :
  0 <= M -> e < 0 -> M <= 2 ^ (- e) -> Flt.abs_le_one (Flt.round s M e) = true.
Proof.
  intros HM He Hle. unfold Flt.round.
  pose proof (log2_le_of_le_pow2 M (- e) ltac:(lia) Hle) as Hl.
  set (bits := Z.log2 M + 1) in *.
  set (e' := Z.max (e + bits - 53) (-1074)).
  assert (He' : e' < 0) by (unfold e', bits; lia).
  destruct (e' <=? e) eqn:E1.
  - assert (E2 : (1024 <? bits + e) = false) by (apply Z.ltb_ge; unfold bits; lia).
    rewrite E2. unfold Flt.abs_le_one.
    assert (E3 : (0 <=? e) = false) by (apply Z.leb_gt; lia).
    rewrite E3, Z2N.id by lia. apply Z.leb_le. exact Hle.
  - apply Z.leb_gt in E1.
    assert (Hq : Flt.round_bits M (e' - e) <= 2 ^ (- e')).
    { apply round_bits_le; [lia | lia |].
      rewrite <- Z.pow_add_r by lia. replace (- e' + (e' - e)) with (- e) by lia.
      exact Hle. }
    pose proof (round_bits_nonneg M (e' - e) HM) as Hq0.
    set (q := Flt.round_bits M (e' - e)) in *.
    pose proof (log2_le_of_le_pow2 q (- e') ltac:(lia) Hq) as Hlq.
    assert (E2 : (1024 <? Z.log2 q + 1 + e') = false) by (apply Z.ltb_ge; lia).
    rewrite E2. unfold Flt.abs_le_one.
    assert (E3 : (0 <=? e') = false) by (apply Z.leb_gt; lia).
    rewrite E3, Z2N.id by lia. apply Z.leb_le. exact Hq.
Qed.

Lemma round_ratio_le_one (s : bool) (c D : Z) :
  0 < c -> c <= D -> Flt.abs_le_one (Flt.round_ratio s c D) = true.
Proof.
  intros Hc HD. unfold Flt.round_ratio.
  set (shift := Z.max 0 (64 + Z.log2 D - Z.log2 c)).
  assert (Hs : 0 <= shift) by (unfold shift; lia).
  assert (Hp : 0 < 2 ^ shift) by (apply Z.pow_pos_nonneg; lia).
  pose proof (Z.div_mod (c * 2 ^ shift) D ltac:(lia)) as Hdm.
  pose proof (Z.mod_pos_bound (c * 2 ^ shift) D ltac:(lia)) as Hmb.
  set (q := c * 2 ^ shift / D) in *. set (r := (c * 2 ^ shift) mod D) in *.
  assert (Hq0 : 0 <= q) by (apply Z.div_pos; nia).
  assert (Hq : q <= 2 ^ shift).
  { apply Z.div_le_upper_bound; [lia | nia]. }
  apply round_le_one.
  - destruct (r =? 0); lia.
  - lia.
  - replace (- (- shift - 1)) with (Z.succ shift) by lia.
    rewrite Z.pow_succ_r by lia.
    destruct (r =? 0) eqn:E; [lia |].
    apply Z.eqb_neq in E.
    destruct (Z.eq_dec q (2 ^ shift)) as [Heq | Hne]; [| lia].
    exfalso. rewrite Heq in Hdm. nia.
Qed.

Lemma clean_angle_nan (q : Dec.t) :
  Dec.is_nan q = true ->
  __clean_angle (ADec q) = Raise (InvalidOperation "comparison involving NaN").
Proof.
  intros Hn. unfold __clean_angle, Dec.lt. simpl. rewrite Hn. reflexivity.
Qed.

Lemma clean_angle_clamp (q : Dec.t) :
  Dec.is_nan q = false -> __clean_angle (ADec q) = Ok (clamp_spec q).
Proof.
  intros Hn. unfold __clean_angle, Dec.lt, clamp_spec. simpl. rewrite Hn. simpl.
  destruct (Dec.cmp q (Dec.of_Z (-1))); simpl; try reflexivity;
    destruct (Dec.cmp q (Dec.of_Z 1)); reflexivity.
Qed.

Lemma scaled_one (e0 : Z) : Dec.scaled false 1 0 e0 = 10 ^ (0 - e0).
Proof. unfold Dec.scaled. change (Z.of_N 1) with 1. lia. Qed.

Lemma scaled_minus_one (e0 : Z) : Dec.scaled true 1 0 e0 = - 10 ^ (0 - e0).
Proof. unfold Dec.scaled. change (Z.of_N 1) with 1. lia. Qed.

Lemma of_Dec_unit_interval (s : bool) (c : N) (e : Z) :
  Dec.cmp (Dec.Fin s c e) (Dec.of_Z (-1)) <> Lt ->
  Dec.cmp (Dec.Fin s c e) (Dec.of_Z 1) = Lt ->
  exists f, Flt.of_Dec (Dec.Fin s c e) = Ok f /\ Flt.abs_le_one f = true.
Proof.
  change (Dec.of_Z (-1)) with (Dec.Fin true 1 0).
  change (Dec.of_Z 1) with (Dec.Fin false 1 0).
  cbn [Dec.cmp]. rewrite scaled_one, scaled_minus_one.
  intros Hlo Hhi. rewrite Z.compare_lt_iff in Hhi.
  assert (Hlo' : - 10 ^ (0 - Z.min e 0) <= Dec.scaled s c e (Z.min e 0)).
  { destruct (Z.compare_spec (Dec.scaled s c e (Z.min e 0)) (- 10 ^ (0 - Z.min e 0)));
      [lia | congruence | lia]. }
  clear Hlo. unfold Dec.scaled in *. cbn [Flt.of_Dec].
  destruct (c =? 0)%N eqn:Ec.
  { eexists. split; reflexivity. }
  apply N.eqb_neq in Ec. assert (Hc : 0 < Z.of_N c) by lia.
  destruct (0 <=? e) eqn:Ee.
  - apply Z.leb_le in Ee. rewrite Z.min_r in * by lia.
    replace (e - 0) with e in * by lia. change (10 ^ (0 - 0)) with 1 in *.
    assert (Hp : 0 < 10 ^ e) by (apply Z.pow_pos_nonneg; lia).
    assert (Hv : Z.of_N c * 10 ^ e = 1) by (destruct s; nia).
    rewrite Hv. eexists. split; [reflexivity |]. destruct s; reflexivity.
  - apply Z.leb_gt in Ee. rewrite Z.min_l in * by lia.
    replace (e - e) with 0 in * by lia. change (10 ^ 0) with 1 in *.
    replace (0 - e) with (- e) in * by lia.
    eexists. split; [reflexivity |].
    apply round_ratio_le_one; [exact Hc | destruct s; lia].
Qed.

Lemma clamp_range (q : Dec.t) :
  Dec.is_nan q = false ->
  exists f, Flt.of_Dec (clamp_spec q) = Ok f /\ Flt.abs_le_one f = true.
Proof.
  intros Hn. unfold clamp_spec.
  destruct (Dec.cmp q (Dec.of_Z (-1))) eqn:E1.
  2: { eexists. split; reflexivity. }
  all: destruct (Dec.cmp q (Dec.of_Z 1)) eqn:E2.
  all: try (eexists; split; reflexivity).
  all: destruct q as [s c e | s | s g]; [| | discriminate Hn].
  all: try (apply of_Dec_unit_interval; [rewrite E1; discriminate | exact E2]).
  all: destruct s; simpl in E1, E2; discriminate.
Qed.

Lemma tol_default_value_Dec :
  exists Tc, Flt.to_Dec Flt.tol_default = Dec.Fin false Tc (-86)
             /\ 10 ^ 76 <= Z.of_N Tc.
Proof.
  eexists. split; [vm_compute; reflexivity |]. vm_compute. discriminate.
Qed.

Lemma ndigits_mul_lower (a b : Z) :
  0 < a -> 0 < b -> Dec.ndigits a + Dec.ndigits b - 1 <= Dec.ndigits (a * b).
Proof.
  intros Ha Hb.
  pose proof (ndigits_spec a Ha) as [Ha1 _].
  pose proof (ndigits_spec b Hb) as [Hb1 _].
  pose proof (ndigits_spec (a * b) ltac:(nia)) as [_ Hab].
  pose proof (ndigits_pos a). pose proof (ndigits_pos b).
  pose proof (ndigits_pos (a * b)).
  assert (Hlow : 10 ^ (Dec.ndigits a - 1 + (Dec.ndigits b - 1)) <= a * b).
  { rewrite Z.pow_add_r by lia.
    assert (0 < 10 ^ (Dec.ndigits a - 1)) by (apply Z.pow_pos_nonneg; lia).
    assert (0 < 10 ^ (Dec.ndigits b - 1)) by (apply Z.pow_pos_nonneg; lia).
    nia. }
  assert (Hlt : 10 ^ (Dec.ndigits a - 1 + (Dec.ndigits b - 1)) < 10 ^ Dec.ndigits (a * b))
    by lia.
  apply Z.pow_lt_mono_r_iff in Hlt; lia.
Qed.

Lemma ge_tol_digits (s : bool) (c Tc : N) (e : Z) :
  10 ^ 76 <= Z.of_N Tc ->
  Dec.cmp (Dec.Fin s c e) (Dec.Fin false Tc (-86)) <> Lt ->
  s = false /\ c <> 0%N /\ -10 < Dec.ndigits (Z.of_N c) + e.
Proof.
  intros HT Hc. cbn [Dec.cmp] in Hc. unfold Dec.scaled in Hc.
  set (e0 := Z.min e (-86)) in *.
  assert (He0 : e0 <= e /\ e0 <= -86) by (unfold e0; lia).
  assert (Hge : 1 * Z.of_N Tc * 10 ^ (-86 - e0)
                <= (if s then -1 else 1) * Z.of_N c * 10 ^ (e - e0)).
  { destruct (Z.compare_spec ((if s then -1 else 1) * Z.of_N c * 10 ^ (e - e0))
                             (1 * Z.of_N Tc * 10 ^ (-86 - e0)));
      [lia | congruence | lia]. }
  assert (Hp1 : 0 < 10 ^ (-86 - e0)) by (apply Z.pow_pos_nonneg; lia).
  assert (Hp2 : 0 < 10 ^ (e - e0)) by (apply Z.pow_pos_nonneg; lia).
  assert (H76 : 0 < 10 ^ 76) by (apply Z.pow_pos_nonneg; lia).
  assert (Hlow : 10 ^ (-10 - e0) <= 1 * Z.of_N Tc * 10 ^ (-86 - e0)).
  { replace (-10 - e0) with (76 + (-86 - e0)) by lia.
    rewrite Z.pow_add_r by lia. nia. }
  assert (Hp3 : 0 < 10 ^ (-10 - e0)) by (apply Z.pow_pos_nonneg; lia).
  destruct s; [exfalso; nia |].
  split; [reflexivity |].
  assert (Hc0 : 0 < Z.of_N c) by nia.
  split; [lia |].
  pose proof (ndigits_spec _ Hc0) as [_ Hup].
  pose proof (ndigits_pos (Z.of_N c)) as Hd.
  assert (Hlt : 10 ^ (-10 - e0) < 10 ^ (Dec.ndigits (Z.of_N c) + (e - e0))).
  { rewrite Z.pow_add_r by lia. nia. }
  apply Z.pow_lt_mono_r_iff in Hlt; lia.
Qed.

Lemma round_half_even_lower (c k : Z) :
  0 <= c -> c / 10 ^ k <= Dec.round_half_even c k.
Proof.
  intros Hc. unfold Dec.round_half_even. destruct (_ || _); lia.
Qed.

Lemma ndigits_small (q : Z) : 1 < Dec.ndigits q -> 10 <= q.
Proof.
  unfold Dec.ndigits. destruct (Z.to_nat (Z.log2 q)) as [| f] eqn:E.
  - simpl. lia.
  - cbn [Dec.ndigits_aux]. destruct (q <? 10) eqn:E1; [lia |].
    apply Z.ltb_ge in E1. lia.
Qed.

Lemma fix_fin_pos (s : bool) (c : N) (e : Z) (r : Dec.t) :
  c <> 0%N ->
  Dec.Etiny <= Dec.ndigits (Z.of_N c) + e - Dec.prec ->
  Dec.fix_fin s c e = Ok r ->
  exists q e', r = Dec.Fin s q e' /\ q <> 0%N.
Proof.
  intros Hc Hn. unfold Dec.fix_fin.
  destruct (c =? 0)%N eqn:Ec; [apply N.eqb_eq in Ec; contradiction |].
  set (len := Dec.ndigits (Z.of_N c)) in *.
  destruct (Dec.Etop <? len + e - Dec.prec); [discriminate |].
  rewrite Z.max_l by exact Hn.
  destruct (e <? len + e - Dec.prec) eqn:E.
  - apply Z.ltb_lt in E.
    remember (len + e - Dec.prec - e) as k eqn:Ek.
    assert (Hk : 0 < k) by lia.
    assert (Hc0 : 0 < Z.of_N c) by lia.
    pose proof (ndigits_spec _ Hc0) as [Hlow _]. fold len in Hlow.
    assert (Hq : 10 ^ (Dec.prec - 1) <= Dec.round_half_even (Z.of_N c) k).
    { etransitivity; [| apply round_half_even_lower; lia].
      apply Z.div_le_lower_bound; [apply Z.pow_pos_nonneg; lia |].
      rewrite <- Z.pow_add_r by (unfold Dec.prec; lia).
      replace (k + (Dec.prec - 1)) with (len - 1) by lia.
      exact Hlow. }
    assert (Hp : 1 <= 10 ^ (Dec.prec - 1)).
    { assert (0 < 10 ^ (Dec.prec - 1)) by (apply Z.pow_pos_nonneg; unfold Dec.prec; lia).
      lia. }
    set (q := Dec.round_half_even (Z.of_N c) k) in *.
    destruct (Dec.prec <? Dec.ndigits q) eqn:Ep.
    + apply Z.ltb_lt in Ep.
      assert (10 <= q) by (apply ndigits_small; unfold Dec.prec in Ep; lia).
      assert (1 <= q / 10) by (apply Z.div_le_lower_bound; lia).
      destruct (Dec.Etop <? _); [discriminate |].
      intros Hr. injection Hr as <-. do 2 eexists. split; [reflexivity | lia].
    + destruct (Dec.Etop <? _); [discriminate |].
      intros Hr. injection Hr as <-. do 2 eexists. split; [reflexivity | lia].
  - intros Hr. injection Hr as <-. do 2 eexists. split; [reflexivity | exact Hc].
Qed.

Lemma eq_zero_of_pos (s : bool) (q : N) (e : Z) :
  q <> 0%N -> Dec.eq (Dec.Fin s q e) (Dec.of_Z 0) = Ok false.
Proof.
  intros Hq. unfold Dec.eq. change (Dec.of_Z 0) with (Dec.Fin false 0 0).
  cbn [Dec.is_snan Dec.is_nan orb Dec.cmp]. unfold Dec.scaled.
  change (Z.of_N 0) with 0.
  assert (Hp : 0 < 10 ^ (e - Z.min e 0)) by (apply Z.pow_pos_nonneg; lia).
  destruct s.
  - assert (H : (-1 * Z.of_N q * 10 ^ (e - Z.min e 0)
                 ?= 1 * 0 * 10 ^ (0 - Z.min e 0)) = Lt)
      by (apply Z.compare_lt_iff; nia).
    rewrite H. reflexivity.
  - assert (H : (1 * Z.of_N q * 10 ^ (e - Z.min e 0)
                 ?= 1 * 0 * 10 ^ (0 - Z.min e 0)) = Gt)
      by (apply Z.compare_gt_iff; nia).
    rewrite H. reflexivity.
Qed.

Lemma mul_above_tol_nonzero (m1 m2 p : Dec.t) :
  Dec.lt m1 (Flt.to_Dec Flt.tol_default) = Ok false ->
  Dec.lt m2 (Flt.to_Dec Flt.tol_default) = Ok false ->
  Dec.mul m1 m2 = Ok p ->
  Dec.eq p (Dec.of_Z 0) = Ok false.
Proof.
  destruct tol_default_value_Dec as (Tc & -> & HT).
  unfold Dec.lt. intros H1 H2 Hm.
  destruct m1 as [s1 c1 e1 | s1 | s1 g1]; [| | discriminate H1];
    destruct m2 as [s2 c2 e2 | s2 | s2 g2]; [| | discriminate H2 | | | discriminate H2].
  - cbn [Dec.is_nan orb] in H1, H2.
    assert (K1 : Dec.cmp (Dec.Fin s1 c1 e1) (Dec.Fin false Tc (-86)) <> Lt).
    { intros K. rewrite K in H1. discriminate H1. }
    assert (K2 : Dec.cmp (Dec.Fin s2 c2 e2) (Dec.Fin false Tc (-86)) <> Lt).
    { intros K. rewrite K in H2. discriminate H2. }
    destruct (ge_tol_digits _ _ _ _ HT K1) as (-> & Hc1 & Hd1).
    destruct (ge_tol_digits _ _ _ _ HT K2) as (-> & Hc2 & Hd2).
    cbn in Hm.
    apply fix_fin_pos in Hm.
    + destruct Hm as (q & e' & -> & Hq). apply eq_zero_of_pos. exact Hq.
    + lia.
    + rewrite N2Z.inj_mul.
      pose proof (ndigits_mul_lower (Z.of_N c1) (Z.of_N c2) ltac:(lia) ltac:(lia)).
      unfold Dec.Etiny, Dec.Emin, Dec.prec. lia.
  - cbn [Dec.is_nan orb] in H1, H2.
    assert (K1 : Dec.cmp (Dec.Fin s1 c1 e1) (Dec.Fin false Tc (-86)) <> Lt).
    { intros K. rewrite K in H1. discriminate H1. }
    destruct (ge_tol_digits _ _ _ _ HT K1) as (-> & Hc1 & Hd1).
    cbn in Hm. apply N.eqb_neq in Hc1. rewrite Hc1 in Hm. injection Hm as <-.
    destruct s2; reflexivity.
  - cbn [Dec.is_nan orb] in H1, H2.
    assert (K2 : Dec.cmp (Dec.Fin s2 c2 e2) (Dec.Fin false Tc (-86)) <> Lt).
    { intros K. rewrite K in H2. discriminate H2. }
    destruct (ge_tol_digits _ _ _ _ HT K2) as (-> & Hc2 & Hd2).
    cbn in Hm. apply N.eqb_neq in Hc2. rewrite Hc2 in Hm. injection Hm as <-.
    destruct s1; reflexivity.
  - cbn in Hm. injection Hm as <-. destruct s1, s2; reflexivity.
Qed.

(** ** Angles *)

Lemma lt_exn (a b : Dec.t) (e : exn) : Dec.lt a b = Raise e -> arith_exn e.
Proof.
  unfold Dec.lt. destruct (_ || _); intros H; [| discriminate H].
  injection H as <-. exact I.
Qed.

Lemma clean_angle_exn (q : Dec.t) (e : exn) :
  __clean_angle (ADec q) = Raise e -> arith_exn e.
Proof.
  destruct (Dec.is_nan q) eqn:Hn.
  - rewrite (clean_angle_nan _ Hn). intros H. injection H as <-. exact I.
  - rewrite (clean_angle_clamp _ Hn). discriminate.
Qed.


Lemma is_zero_false_inv (v : Vector) (tol : Flt.t) :
  is_zero v tol = Ok false ->
  exists m, mag v = Ok m /\ Dec.lt m (Flt.to_Dec tol) = Ok false.
Proof.
  unfold is_zero. intros H. apply bind_ok_inv in H. exact H.
Qed.

Section Angles.

Variable acos : Flt.t -> Flt.t.

Lemma math_acos_exn (a : Dec.t) (e : exn) :
  math_acos acos a = Raise e -> exists m, e = ValueError m.
Proof.
  unfold math_acos. intros H. step_raise H; [exact (of_Dec_exn _ _ H) |].
  repeat match type of H with
         | context [if ?b then _ else _] => destruct b
         end; try discriminate H.
  injection H as <-. eexists. reflexivity.
Qed.

(** After the clamp the arc cosine is always inside its domain. *)
Lemma math_acos_clamp (q : Dec.t) :
  Dec.is_nan q = false ->
  exists f, Flt.of_Dec (clamp_spec q) = Ok f /\ Flt.abs_le_one f = true
            /\ math_acos acos (clamp_spec q) = Ok (acos f).
Proof.
  intros Hn. destruct (clamp_range q Hn) as (f & Hf & Hr).
  exists f. split; [exact Hf |]. split; [exact Hr |].
  unfold math_acos. rewrite Hf. simpl.
  destruct f as [s m e | s |]; try discriminate Hr.
  cbn [Flt.is_nan]. rewrite Hr. reflexivity.
Qed.

(** [theta] raises the exception of its own [raise] only there. *)
Lemma theta_zero_inv (self w : Vector) (deg : bool) (msg : string) :
  theta acos self (AVec w) deg = Raise (PyException msg) ->
  exists m1 m2 p, mag self = Ok m1 /\ mag w = Ok m2 /\ Dec.mul m1 m2 = Ok p
                  /\ Dec.eq p (Dec.of_Z 0) = Ok true.
Proof.
  unfold theta. cbn [as_Vector]. intros H.
  destruct (mag self) as [m1 | e] eqn:H1; cbn [bind] in H.
  2: { injection H as ->. apply mag_exn in H1.
       destruct H1 as [H1 | [? H1]]; [contradiction H1 | discriminate H1]. }
  destruct (mag w) as [m2 | e] eqn:H2; cbn [bind] in H.
  2: { injection H as ->. apply mag_exn in H2.
       destruct H2 as [H2 | [? H2]]; [contradiction H2 | discriminate H2]. }
  destruct (Dec.mul m1 m2) as [p | e] eqn:Hp; cbn [bind] in H.
  2: { injection H as ->. apply mul_exn in Hp. contradiction Hp. }
  destruct (Dec.eq p (Dec.of_Z 0)) as [[|] | e] eqn:Hq; cbn [bind] in H.
  - exists m1, m2, p. auto.
  - exfalso. step_raise H.
    { apply dot_exn in H. destruct H as [H | H]; [contradiction H | discriminate H]. }
    step_raise H; [apply div_exn in H; contradiction H |].
    step_raise H; [apply clean_angle_exn in H; contradiction H |].
    step_raise H; [apply math_acos_exn in H; destruct H as [? H]; discriminate H |].
    destruct deg; discriminate H.
  - injection H as ->. apply eq_exn in Hq. contradiction Hq.
Qed.

Lemma theta_nonzero (self w : Vector) (deg : bool) (m1 m2 p : Dec.t) :
  mag self = Ok m1 -> mag w = Ok m2 -> Dec.mul m1 m2 = Ok p ->
  Dec.eq p (Dec.of_Z 0) = Ok false ->
  theta acos self (AVec w) deg
  = (d <- dot self (AVec w) ;; angle_spec acos d p deg).
Proof.
  intros H1 H2 Hp Hq. unfold theta, angle_spec. cbn [as_Vector].
  rewrite H1, H2. cbn [bind]. rewrite Hp. cbn [bind]. rewrite Hq. cbn [bind].
  destruct (dot self (AVec w)) as [d | e]; cbn [bind]; [| reflexivity].
  destruct (Dec.div d p) as [q | e]; cbn [bind]; [| reflexivity].
  destruct (Dec.is_nan q) eqn:Hn.
  - rewrite (clean_angle_nan _ Hn). reflexivity.
  - rewrite (clean_angle_clamp _ Hn). cbn [bind].
    destruct (math_acos_clamp q Hn) as (f & Hf & _ & Ha).
    rewrite Ha, Hf. cbn [bind]. destruct deg; reflexivity.
Qed.

(** C1.  [angle] fails with [ZeroMagnitudeError] if and only if the
    product of the two magnitudes is exactly zero; when it is not zero,
    [angle] is the arc cosine of the quotient of the dot product by
    that product, clamped to [[-1, 1]], in radians or converted to
    degrees; and the clamped value converted to a float always lies in
    [[-1, 1]], so the arc cosine never meets its domain error. *)
Theorem theta_clamped_acos (self w : Vector) (in_degrees : bool) :
  (theta acos self (AVec w) in_degrees = Raise ZeroMagnitudeError
   <-> exists m1 m2 p,
         mag self = Ok m1 /\ mag w = Ok m2 /\ Dec.mul m1 m2 = Ok p
         /\ Dec.eq p (Dec.of_Z 0) = Ok true)
  /\ (forall m1 m2 p,
        mag self = Ok m1 -> mag w = Ok m2 -> Dec.mul m1 m2 = Ok p ->
        Dec.eq p (Dec.of_Z 0) = Ok false ->
        theta acos self (AVec w) in_degrees
        = (d <- dot self (AVec w) ;; angle_spec acos d p in_degrees))
  /\ (forall q a, __clean_angle (ADec q) = Ok a ->
        Dec.is_nan q = false /\ a = clamp_spec q
        /\ exists f, Flt.of_Dec a = Ok f /\ Flt.abs_le_one f = true
                     /\ math_acos acos a = Ok (acos f)).
Proof.
  split; [| split].
  - split.
    + apply theta_zero_inv.
    + intros (m1 & m2 & p & H1 & H2 & Hp & Hq).
      unfold theta. cbn [as_Vector]. rewrite H1, H2. cbn [bind].
      rewrite Hp. cbn [bind]. rewrite Hq. reflexivity.
  - intros m1 m2 p. apply theta_nonzero.
  - intros q a H. destruct (Dec.is_nan q) eqn:Hn.
    + rewrite (clean_angle_nan _ Hn) in H. discriminate H.
    + rewrite (clean_angle_clamp _ Hn) in H. injection H as <-.
      split; [reflexivity |]. split; [reflexivity |].
      exact (math_acos_clamp q Hn).
Qed.


End Angles.

Lemma theta_clamped_acos_witness :
  theta acos_sample (mkVector [Dec.of_Z 0; Dec.of_Z 0] 2)
        (AVec (mkVector [Dec.of_Z 1; Dec.of_Z 0] 2)) false
  = Raise ZeroMagnitudeError
  /\ theta acos_sample (mkVector [Dec.of_Z 1; Dec.of_Z 0; Dec.of_Z 0] 3)
           (AVec (mkVector [Dec.of_Z 0; Dec.of_Z 1; Dec.of_Z 0] 3)) true
     = (d <- dot (mkVector [Dec.of_Z 1; Dec.of_Z 0; Dec.of_Z 0] 3)
                 (AVec (mkVector [Dec.of_Z 0; Dec.of_Z 1; Dec.of_Z 0] 3)) ;;
        angle_spec acos_sample d (Dec.of_Z 1) true).
Proof.
  split.
  - apply (proj1 (theta_clamped_acos acos_sample _ _ false)).
    exists (Dec.of_Z 0), (Dec.of_Z 1), (Dec.of_Z 0).
    repeat split; vm_compute; reflexivity.
  - apply (proj1 (proj2 (theta_clamped_acos acos_sample _ _ true))
             (Dec.of_Z 1) (Dec.of_Z 1) (Dec.of_Z 1));
      vm_compute; reflexivity.
Defined.


(** ** Rounded results and the exchange of operands *)

Lemma ndigits_le (n d : Z) : 0 <= n -> 1 <= d -> n < 10 ^ d -> Dec.ndigits n <= d.
Proof.
  intros Hn Hd Hlt. destruct (Z.eq_dec n 0) as [-> | Hne].
  - change (Dec.ndigits 0) with 1. lia.
  - pose proof (ndigits_spec n ltac:(lia)) as [Hlow _].
    pose proof (ndigits_pos n).
    assert (H10 : 10 ^ (Dec.ndigits n - 1) < 10 ^ d) by lia.
    apply Z.pow_lt_mono_r_iff in H10; lia.
Qed.

Lemma round_half_even_nonneg (c k : Z) : 0 <= c -> 0 <= Dec.round_half_even c k.
Proof.
  intros Hc. pose proof (round_half_even_lower c k Hc).
  assert (0 <= c / 10 ^ k).
  { destruct (Z.le_gt_cases 0 k).
    - apply Z.div_pos; [lia | apply Z.pow_pos_nonneg; lia].
    - rewrite Z.pow_neg_r by lia. rewrite Z.div_0_r. lia. }
  lia.
Qed.

Lemma round_half_even_upper (c k p : Z) :
  0 <= c -> 0 < k -> 0 <= p -> c < 10 ^ (k + p) ->
  Dec.round_half_even c k <= 10 ^ p.
Proof.
  intros Hc Hk Hp Hlt. unfold Dec.round_half_even.
  assert (H10 : 0 < 10 ^ k) by (apply Z.pow_pos_nonneg; lia).
  assert (Hq : c / 10 ^ k < 10 ^ p).
  { apply Z.div_lt_upper_bound; [exact H10 |]. rewrite <- Z.pow_add_r by lia. exact Hlt. }
  destruct (_ || _); lia.
Qed.

Lemma fix_fin_zero (s : bool) (e : Z) :
  Dec.Etiny <= e <= Dec.Emax -> Dec.fix_fin s 0 e = Ok (Dec.Fin s 0 e).
Proof.
  intros He. unfold Dec.fix_fin. cbn [N.eqb].
  rewrite Z.max_l, Z.min_l by lia. reflexivity.
Qed.

Lemma fix_fin_fixed (s : bool) (c : N) (e : Z) :
  c <> 0%N -> Dec.ndigits (Z.of_N c) <= Dec.prec -> Dec.Etiny <= e ->
  Dec.ndigits (Z.of_N c) + e - Dec.prec <= Dec.Etop ->
  Dec.fix_fin s c e = Ok (Dec.Fin s c e).
Proof.
  intros Hc Hlen He Ho. unfold Dec.fix_fin.
  apply N.eqb_neq in Hc. rewrite Hc.
  assert (E1 : (Dec.Etop <? Dec.ndigits (Z.of_N c) + e - Dec.prec) = false)
    by (apply Z.ltb_ge; lia).
  rewrite E1.
  assert (E2 : (e <? Z.max (Dec.ndigits (Z.of_N c) + e - Dec.prec) Dec.Etiny) = false)
    by (apply Z.ltb_ge; lia).
  rewrite E2. reflexivity.
Qed.

Lemma fix_fin_sign (s s' : bool) (c : N) (e : Z) (r : Dec.t) :
  Dec.fix_fin s c e = Ok r ->
  exists q e1, r = Dec.Fin s q e1 /\ Dec.fix_fin s' c e = Ok (Dec.Fin s' q e1).
Proof.
  unfold Dec.fix_fin. intros H.
  repeat match type of H with
         | context [if ?b then _ else _] => destruct b
         | context [let '(_, _) := ?p in _] => destruct p
         end; try discriminate H; injection H as <-; do 2 eexists; split; reflexivity.
Qed.

Lemma fix_fin_rounded (s : bool) (c : N) (e : Z) (r : Dec.t) :
  Dec.fix_fin s c e = Ok r -> rounded r.
Proof.
  assert (Hconst : Dec.Etiny <= Dec.Etop /\ Dec.Etop <= Dec.Emax /\ 1 <= Dec.prec)
    by (vm_compute; repeat split; discriminate).
  unfold Dec.fix_fin.
  destruct (c =? 0)%N eqn:Ec.
  { intros H. injection H as <-. intros s'. apply fix_fin_zero. lia. }
  apply N.eqb_neq in Ec. assert (Hc : 0 < Z.of_N c) by lia.
  set (len := Dec.ndigits (Z.of_N c)).
  destruct (Dec.Etop <? len + e - Dec.prec) eqn:Eo; [discriminate |].
  apply Z.ltb_ge in Eo.
  remember (Z.max (len + e - Dec.prec) Dec.Etiny) as em eqn:Eem.
  destruct (e <? em) eqn:Er.
  - apply Z.ltb_lt in Er.
    pose proof (round_half_even_nonneg (Z.of_N c) (em - e) ltac:(lia)) as Hq0.
    assert (Hup : Dec.round_half_even (Z.of_N c) (em - e) <= 10 ^ Dec.prec).
    { apply round_half_even_upper; [lia | lia | lia |].
      pose proof (ndigits_spec _ Hc) as [_ Hlt]. fold len in Hlt.
      eapply Z.lt_le_trans; [exact Hlt |].
      apply Z.pow_le_mono_r; lia. }
    remember (Dec.round_half_even (Z.of_N c) (em - e)) as q eqn:Eq.
    destruct (Dec.prec <? Dec.ndigits q) eqn:Ep.
    + apply Z.ltb_lt in Ep.
      destruct (Dec.Etop <? em + 1) eqn:Eo2; [discriminate |].
      apply Z.ltb_ge in Eo2.
      intros H. injection H as <-. intros s'.
      assert (H10 : 10 <= q) by (apply ndigits_small; lia).
      assert (Hq1 : 1 <= q / 10) by (apply Z.div_le_lower_bound; lia).
      assert (Hq2 : q / 10 < 10 ^ Dec.prec).
      { apply Z.div_lt_upper_bound; [lia |].
        assert (0 < 10 ^ Dec.prec) by (apply Z.pow_pos_nonneg; lia). lia. }
      apply fix_fin_fixed.
      * lia.
      * rewrite Z2N.id by lia. apply ndigits_le; lia.
      * lia.
      * rewrite Z2N.id by lia.
        assert (Dec.ndigits (q / 10) <= Dec.prec) by (apply ndigits_le; lia). lia.
    + apply Z.ltb_ge in Ep.
      destruct (Dec.Etop <? em) eqn:Eo2; [discriminate |].
      apply Z.ltb_ge in Eo2.
      intros H. injection H as <-. intros s'.
      destruct (Z.eq_dec q 0) as [-> | Hq].
      * apply fix_fin_zero. lia.
      * apply fix_fin_fixed; rewrite ?Z2N.id by lia; lia.
  - apply Z.ltb_ge in Er.
    intros H. injection H as <-. intros s'.
    apply fix_fin_fixed; fold len; lia.
Qed.

Lemma fix_fin_of_zero (s : bool) (e : Z) :
  Dec.fix_fin s 0 e = Ok (Dec.Fin s 0 (Z.min (Z.max e Dec.Etiny) Dec.Emax)).
Proof. reflexivity. Qed.

Lemma add_rounded (a b r : Dec.t) : Dec.add a b = Ok r -> rounded r.
Proof.
  unfold Dec.add. intros H. apply bind_ok_inv in H. destruct H as (n & Hn & H).
  destruct n as [d |].
  - injection H as <-.
    destruct a as [? ? ? | ? | ? []], b as [? ? ? | ? | ? []]; simpl in Hn;
      try discriminate Hn; injection Hn as <-; exact I.
  - destruct a as [? ? ? | ? | ? []], b as [? ? ? | ? | ? []]; simpl in Hn;
      try discriminate Hn; simpl in H;
      repeat match type of H with
             | context [if ?c then _ else _] => destruct c
             end;
      try discriminate H;
      try (exact (fix_fin_rounded _ _ _ _ H));
      injection H as <-; exact I.
Qed.

Lemma sub_rounded (a b r : Dec.t) : Dec.sub a b = Ok r -> rounded r.
Proof.
  unfold Dec.sub. intros H. apply bind_ok_inv in H. destruct H as (n & Hn & H).
  destruct n as [d |].
  - injection H as <-.
    destruct a as [? ? ? | ? | ? []], b as [? ? ? | ? | ? []]; simpl in Hn;
      try discriminate Hn; injection Hn as <-; exact I.
  - exact (add_rounded _ _ _ H).
Qed.

Lemma mul_rounded (a b r : Dec.t) : Dec.mul a b = Ok r -> rounded r.
Proof.
  unfold Dec.mul. intros H. apply bind_ok_inv in H. destruct H as (n & Hn & H).
  destruct n as [d |].
  - injection H as <-.
    destruct a as [? ? ? | ? | ? []], b as [? ? ? | ? | ? []]; simpl in Hn;
      try discriminate Hn; injection Hn as <-; exact I.
  - destruct a as [? ? ? | ? | ? []], b as [? ? ? | ? | ? []]; simpl in Hn;
      try discriminate Hn; simpl in H;
      repeat match type of H with
             | context [if ?c then _ else _] => destruct c
             end;
      try discriminate H;
      try (exact (fix_fin_rounded _ _ _ _ H));
      injection H as <-; exact I.
Qed.

Lemma fix_fin_not_nan (s : bool) (c : N) (e : Z) (r : Dec.t) :
  Dec.fix_fin s c e = Ok r -> Dec.is_nan r = false.
Proof.
  intros H. destruct (fix_fin_sign s s c e r H) as (q & e1 & -> & _). reflexivity.
Qed.

Lemma mul_not_nan (a b r : Dec.t) :
  Dec.is_nan a = false -> Dec.is_nan b = false -> Dec.mul a b = Ok r ->
  Dec.is_nan r = false.
Proof.
  intros Ha Hb. destruct a as [? ? ? | ? | ? ?]; [| | discriminate Ha];
    destruct b as [? ? ? | ? | ? ?]; try discriminate Hb; cbn; intros H;
    repeat match type of H with
           | context [if ?c then _ else _] => destruct c
           end;
    try discriminate H;
    try (exact (fix_fin_not_nan _ _ _ _ H));
    injection H as <-; reflexivity.
Qed.

Lemma scaled_negb (s : bool) (c : N) (e e0 : Z) :
  Dec.scaled (negb s) c e e0 = - Dec.scaled s c e e0.
Proof. unfold Dec.scaled. destruct s; cbn [negb]; lia. Qed.

Lemma fix_fin_negated (s s' : bool) (c : N) (e : Z) (r : Dec.t) :
  s' = negb s -> Dec.fix_fin s c e = Ok r ->
  exists r', Dec.fix_fin s' c e = Ok r' /\ negated r r' /\ Dec.is_nan r = false.
Proof.
  intros -> H. destruct (fix_fin_sign s (negb s) c e r H) as (q & e1 & -> & H').
  exists (Dec.Fin (negb s) q e1). split; [exact H' |]. split; [| reflexivity].
  cbn. auto.
Qed.

Lemma fix_fin_zero_negated (s s' : bool) (e : Z) (r : Dec.t) :
  Dec.fix_fin s 0 e = Ok r ->
  exists r', Dec.fix_fin s' 0 e = Ok r' /\ negated r r' /\ Dec.is_nan r = false.
Proof.
  rewrite !fix_fin_of_zero. intros H. injection H as <-.
  eexists. split; [reflexivity |]. split; [| reflexivity].
  cbn. split; [reflexivity |]. split; [reflexivity |]. intros K. contradiction K.
  reflexivity.
Qed.

Lemma sub_negated (a b r : Dec.t) :
  Dec.is_nan a = false -> Dec.is_nan b = false -> Dec.sub a b = Ok r ->
  exists r', Dec.sub b a = Ok r' /\ negated r r' /\ Dec.is_nan r = false.
Proof.
  intros Ha Hb.
  destruct a as [s1 c1 e1 | s1 | ? ?]; [| | discriminate Ha];
    destruct b as [s2 c2 e2 | s2 | ? ?]; try discriminate Hb.
  - cbn. rewrite (Z.min_comm e2 e1).
    destruct (c1 =? 0)%N eqn:E1; destruct (c2 =? 0)%N eqn:E2; cbn [andb].
    + apply fix_fin_zero_negated.
    + apply fix_fin_negated. destruct s2; reflexivity.
    + apply fix_fin_negated. reflexivity.
    + rewrite !scaled_negb.
      set (x := Dec.scaled s1 c1 e1 (Z.min e1 e2)).
      set (y := Dec.scaled s2 c2 e2 (Z.min e1 e2)).
      replace (y + - x) with (- (x + - y)) by lia.
      set (t := x + - y).
      destruct (t =? 0) eqn:Et.
      * apply Z.eqb_eq in Et. rewrite Et. cbn [Z.opp Z.eqb].
        apply fix_fin_zero_negated.
      * apply Z.eqb_neq in Et.
        assert (E' : (- t =? 0) = false) by (apply Z.eqb_neq; lia).
        rewrite E', Z.abs_opp.
        apply fix_fin_negated.
        destruct (t <? 0) eqn:L1; destruct (- t <? 0) eqn:L2; try reflexivity;
          [apply Z.ltb_lt in L1, L2 | apply Z.ltb_ge in L1, L2]; lia.
  - cbn. intros H. injection H as <-. eexists. split; [reflexivity |].
    split; [| reflexivity]. cbn. destruct s2; reflexivity.
  - cbn. intros H. injection H as <-. eexists. split; [reflexivity |].
    split; [| reflexivity]. cbn. reflexivity.
  - cbn. destruct s1, s2; cbn; intros H; try discriminate H; injection H as <-;
      eexists; (split; [reflexivity |]); split; reflexivity.
Qed.

Lemma neg_rounded_val (s : bool) (c : N) (e : Z) :
  rounded (Dec.Fin s c e) ->
  Dec.neg (Dec.Fin s c e)
  = Ok (Dec.Fin (if (c =? 0)%N then false else negb s) c e).
Proof.
  intros Hr. cbn [Dec.neg]. destruct (c =? 0)%N; apply Hr.
Qed.

Lemma mul_minus_one (r : Dec.t) :
  rounded r -> Dec.is_nan r = false ->
  Dec.mul r (Dec.of_Z (-1)) = Ok (Dec.copy_negate r).
Proof.
  intros Hr Hn. destruct r as [s c e | s | ? ?]; [| | discriminate Hn].
  - change (Dec.of_Z (-1)) with (Dec.Fin true 1 0). cbn.
    rewrite N.mul_1_r, Z.add_0_r, xorb_true_r. apply Hr.
  - change (Dec.of_Z (-1)) with (Dec.Fin true 1 0). cbn.
    rewrite xorb_true_r. reflexivity.
Qed.

Lemma eq_same (s s' : bool) (c : N) (e : Z) :
  (c <> 0%N -> s = s') -> Dec.eq (Dec.Fin s c e) (Dec.Fin s' c e) = Ok true.
Proof.
  intros H. unfold Dec.eq. cbn [Dec.is_snan Dec.is_nan orb Dec.cmp].
  destruct (N.eq_dec c 0) as [-> | Hc].
  - unfold Dec.scaled. change (Z.of_N 0) with 0.
    rewrite !Z.mul_0_r, !Z.mul_0_l. reflexivity.
  - rewrite (H Hc), Z.compare_refl. reflexivity.
Qed.

Lemma negated_eq (r r' : Dec.t) :
  negated r r' -> Dec.eq r (Dec.copy_negate r') = Ok true.
Proof.
  destruct r as [s c e | s | ? ?], r' as [s' c' e' | s' | ? ?]; cbn;
    try contradiction.
  - intros (-> & -> & H). apply eq_same. intros Hc. rewrite (H Hc).
    destruct s; reflexivity.
  - intros ->. destruct s; reflexivity.
Qed.

Lemma neg_negated (c c' : Dec.t) :
  rounded c -> negated c c' ->
  exists y y', Dec.neg c = Ok y /\ Dec.neg c' = Ok y'
               /\ rounded y' /\ Dec.is_nan y' = false
               /\ Dec.eq y (Dec.copy_negate y') = Ok true.
Proof.
  destruct c as [s q e | s | ? ?], c' as [s' q' e' | s' | ? ?]; cbn [negated];
    try contradiction.
  - intros Hr (-> & -> & Hs).
    assert (Hr' : rounded (Dec.Fin s' q e)) by exact Hr.
    rewrite (neg_rounded_val _ _ _ Hr), (neg_rounded_val _ _ _ Hr').
    do 2 eexists. split; [reflexivity |]. split; [reflexivity |].
    split; [exact Hr |]. split; [reflexivity |].
    cbn [Dec.copy_negate]. apply eq_same. intros Hq.
    apply N.eqb_neq in Hq. rewrite Hq.
    apply N.eqb_neq in Hq. rewrite (Hs Hq). destruct s; reflexivity.
  - intros _ ->. cbn. do 2 eexists. split; [reflexivity |]. split; [reflexivity |].
    split; [exact I |]. split; [reflexivity |]. destruct s; reflexivity.
Qed.

(** ** Anti-commutativity of the cross product *)

Lemma negated_not_nan (r r' : Dec.t) : negated r r' -> Dec.is_nan r' = false.
Proof.
  destruct r as [? ? ? | ? | ? ?], r' as [? ? ? | ? | ? ?]; cbn; try contradiction;
    reflexivity.
Qed.

Lemma sub_swapped (a b x : Dec.t) :
  Dec.is_nan a = false -> Dec.is_nan b = false -> Dec.sub a b = Ok x ->
  exists x', Dec.sub b a = Ok x' /\ negated x x' /\ rounded x /\ rounded x'
             /\ Dec.is_nan x' = false.
Proof.
  intros Ha Hb H. destruct (sub_negated _ _ _ Ha Hb H) as (x' & H' & Hn & _).
  exists x'. split; [exact H' |]. split; [exact Hn |].
  split; [exact (sub_rounded _ _ _ H) |].
  split; [exact (sub_rounded _ _ _ H') | exact (negated_not_nan _ _ Hn)].
Qed.

(** The components of the cross product with the operands exchanged
    are the negated components. *)
Lemma cross_spec_swap (x1 y1 z1 x2 y2 z2 x y z : Dec.t) :
  Forall (fun d => Dec.is_nan d = false) [x1; y1; z1] ->
  Forall (fun d => Dec.is_nan d = false) [x2; y2; z2] ->
  cross_spec x1 y1 z1 x2 y2 z2 = Ok [x; y; z] ->
  exists x' y' z',
    cross_spec x2 y2 z2 x1 y1 z1 = Ok [x'; y'; z']
    /\ Forall (fun d => rounded d /\ Dec.is_nan d = false) [x'; y'; z']
    /\ Dec.eq x (Dec.copy_negate x') = Ok true
    /\ Dec.eq y (Dec.copy_negate y') = Ok true
    /\ Dec.eq z (Dec.copy_negate z') = Ok true.
Proof.
  intros Hv Hw H.
  inversion Hv as [| ? ? Nx1 Hv1]; subst. inversion Hv1 as [| ? ? Ny1 Hv2]; subst.
  inversion Hv2 as [| ? ? Nz1 _]; subst.
  inversion Hw as [| ? ? Nx2 Hw1]; subst. inversion Hw1 as [| ? ? Ny2 Hw2]; subst.
  inversion Hw2 as [| ? ? Nz2 _]; subst.
  unfold cross_spec in H.
  apply bind_ok_inv in H. destruct H as (a1 & Ha1 & H).
  apply bind_ok_inv in H. destruct H as (b1 & Hb1 & H).
  apply bind_ok_inv in H. destruct H as (x0 & Hx & H).
  apply bind_ok_inv in H. destruct H as (a2 & Ha2 & H).
  apply bind_ok_inv in H. destruct H as (b2 & Hb2 & H).
  apply bind_ok_inv in H. destruct H as (c & Hc & H).
  apply bind_ok_inv in H. destruct H as (y0 & Hy & H).
  apply bind_ok_inv in H. destruct H as (a3 & Ha3 & H).
  apply bind_ok_inv in H. destruct H as (b3 & Hb3 & H).
  apply bind_ok_inv in H. destruct H as (z0 & Hz & H).
  injection H as <- <- <-.
  destruct (sub_swapped _ _ _ (mul_not_nan _ _ _ Ny1 Nz2 Ha1)
              (mul_not_nan _ _ _ Ny2 Nz1 Hb1) Hx)
    as (x' & Hx' & Nx & _ & Rx' & Fx').
  destruct (sub_swapped _ _ _ (mul_not_nan _ _ _ Nx1 Nz2 Ha2)
              (mul_not_nan _ _ _ Nx2 Nz1 Hb2) Hc)
    as (c' & Hc' & Nc & Rc & _ & _).
  destruct (sub_swapped _ _ _ (mul_not_nan _ _ _ Nx1 Ny2 Ha3)
              (mul_not_nan _ _ _ Nx2 Ny1 Hb3) Hz)
    as (z' & Hz' & Nz & _ & Rz' & Fz').
  destruct (neg_negated _ _ Rc Nc) as (y1' & y' & Hy1 & Hy' & Ry' & Fy' & Ey).
  rewrite Hy in Hy1. injection Hy1 as <-.
  exists x', y', z'. split.
  { unfold cross_spec. rewrite Hb1, Ha1. cbn [bind]. rewrite Hx'. cbn [bind].
    rewrite Hb2, Ha2. cbn [bind]. rewrite Hc'. cbn [bind]. rewrite Hy'. cbn [bind].
    rewrite Hb3, Ha3. cbn [bind]. rewrite Hz'. reflexivity. }
  split; [repeat constructor; assumption |].
  split; [exact (negated_eq _ _ Nx) |].
  split; [exact Ey | exact (negated_eq _ _ Nz)].
Qed.

Lemma cross_ok_coords (v w a : Vector) :
  cross v (AVec w) = Ok a ->
  exists x1 y1 z1 x2 y2 z2,
    coordinates v = [x1; y1; z1] /\ coordinates w = [x2; y2; z2]
    /\ dimension v = 3 /\ dimension w = 3.
Proof.
  intros H. destruct (cross_ok_dims _ _ _ H) as [H1 H2].
  unfold cross in H. cbn [as_Vector] in H. rewrite H1, H2 in H. cbn in H.
  destruct (coordinates v) as [| x1 [| y1 [| z1 [| ? ?]]]]; try discriminate H;
    destruct (coordinates w) as [| x2 [| y2 [| z2 [| ? ?]]]]; try discriminate H.
  exists x1, y1, z1, x2, y2, z2. auto.
Qed.

(** C8, as stated, fails: a NaN coordinate is accepted by the
    constructor, both cross products are computed, and their comparison
    is false because a NaN is not equal to itself. *)
Lemma cross_nan_not_anticommutative :
  exists v w a b c,
    vec_str ["NaN"; "0"; "0"]%string = Ok v /\ vec [0; 0; 0] = Ok w
    /\ dimension v = 3 /\ dimension w = 3
    /\ cross v (AVec w) = Ok a
    /\ cross w (AVec v) = Ok b
    /\ __mul__ b (AInt (-1)) = Ok c
    /\ __eq__ a (AVec c) = Ok false.
Proof.
  do 5 eexists. repeat (split; [vm_compute; reflexivity |]).
  vm_compute. reflexivity.
Qed.

(** C8, amended.  For two vectors without NaN coordinates, whenever
    [v.cross(w)] returns, [w.cross(v)] and its product by [-1] return as
    well and [v.cross(w) == w.cross(v) * -1] is true. *)
Theorem cross_anticommutative (v w a : Vector) :
  Forall (fun d => Dec.is_nan d = false) (coordinates v) ->
  Forall (fun d => Dec.is_nan d = false) (coordinates w) ->
  cross v (AVec w) = Ok a ->
  exists b c,
    cross w (AVec v) = Ok b
    /\ __mul__ b (AInt (-1)) = Ok c
    /\ __eq__ a (AVec c) = Ok true.
Proof.
  intros Nv Nw H.
  destruct (cross_ok_coords _ _ _ H)
    as (x1 & y1 & z1 & x2 & y2 & z2 & Cv & Cw & Dv & Dw).
  rewrite (cross_three _ _ _ _ _ _ _ _ Cv Cw Dv Dw) in H.
  apply bind_ok_inv in H. destruct H as (cs & Hs & H). injection H as <-.
  destruct (cross_spec_length _ _ _ _ _ _ _ Hs) as (x & y & z & ->).
  rewrite Cv in Nv. rewrite Cw in Nw.
  destruct (cross_spec_swap _ _ _ _ _ _ _ _ _ Nv Nw Hs)
    as (x' & y' & z' & Hs' & Hall & Ex & Ey & Ez).
  inversion Hall as [| ? ? [Rx Fx] Hall1]; subst.
  inversion Hall1 as [| ? ? [Ry Fy] Hall2]; subst.
  inversion Hall2 as [| ? ? [Rz Fz] _]; subst.
  exists (mkVector [x'; y'; z'] 3).
  exists (mkVector [Dec.copy_negate x'; Dec.copy_negate y'; Dec.copy_negate z'] 3).
  split.
  { rewrite (cross_three _ _ _ _ _ _ _ _ Cw Cv Dw Dv), Hs'. reflexivity. }
  split.
  { unfold __mul__. cbn [is_number coordinates mapM mul_operand].
    rewrite (mul_minus_one _ Rx Fx), (mul_minus_one _ Ry Fy), (mul_minus_one _ Rz Fz).
    reflexivity. }
  unfold __eq__. cbn [as_Vector coordinates tuple_eq].
  rewrite Ex. cbn [bind]. rewrite Ey. cbn [bind]. rewrite Ez. reflexivity.
Qed.

Lemma cross_anticommutative_witness :
  exists b c,
    cross (mkVector [Dec.of_Z 0; Dec.of_Z 1; Dec.of_Z 0] 3)
          (AVec (mkVector [Dec.of_Z 1; Dec.of_Z 0; Dec.of_Z 0] 3)) = Ok b
    /\ __mul__ b (AInt (-1)) = Ok c
    /\ __eq__ (mkVector [Dec.of_Z 0; Dec.of_Z 0; Dec.of_Z 1] 3) (AVec c) = Ok true.
Proof.
  apply (cross_anticommutative
           (mkVector [Dec.of_Z 1; Dec.of_Z 0; Dec.of_Z 0] 3)
           (mkVector [Dec.of_Z 0; Dec.of_Z 1; Dec.of_Z 0] 3)
           (mkVector [Dec.of_Z 0; Dec.of_Z 0; Dec.of_Z 1] 3)).
  - repeat constructor.
  - repeat constructor.
  - vm_compute. reflexivity.
Defined.

(** ** Numbers inside the exponent range *)

Lemma small_mono (B B' : Z) (d : Dec.t) : B <= B' -> small B d -> small B' d.
Proof. destruct d; cbn; [lia | tauto | tauto]. Qed.

Lemma ndigits_mul_upper (a b : Z) :
  0 <= a -> 0 <= b -> Dec.ndigits (a * b) <= Dec.ndigits a + Dec.ndigits b.
Proof.
  intros Ha Hb. pose proof (ndigits_pos a). pose proof (ndigits_pos b).
  destruct (Z.eq_dec a 0) as [-> | Ha0].
  { rewrite Z.mul_0_l. change (Dec.ndigits 0) with 1. lia. }
  destruct (Z.eq_dec b 0) as [-> | Hb0].
  { rewrite Z.mul_0_r. change (Dec.ndigits 0) with 1. lia. }
  apply ndigits_le; [nia | lia |].
  pose proof (ndigits_spec a ltac:(lia)) as [_ Ha1].
  pose proof (ndigits_spec b ltac:(lia)) as [_ Hb1].
  rewrite Z.pow_add_r by lia. nia.
Qed.

Lemma ndigits_mul_pow10 (c k : Z) :
  0 <= c -> 0 <= k -> Dec.ndigits (c * 10 ^ k) <= Dec.ndigits c + k.
Proof.
  intros Hc Hk. pose proof (ndigits_pos c).
  assert (Hp : 0 < 10 ^ k) by (apply Z.pow_pos_nonneg; lia).
  destruct (Z.eq_dec c 0) as [-> | Hc0].
  { rewrite Z.mul_0_l. change (Dec.ndigits 0) with 1. lia. }
  apply ndigits_le; [nia | lia |].
  pose proof (ndigits_spec c ltac:(lia)) as [_ Hc1].
  rewrite Z.pow_add_r by lia. nia.
Qed.

(** Rounding never overflows below the top of the exponent range, and
    raises the position of the leading digit by at most one. *)
Lemma fix_fin_small (s : bool) (c : N) (e B : Z) :
  Dec.ndigits (Z.of_N c) + e <= B -> 0 <= B -> B <= Dec.Emax ->
  exists r, Dec.fix_fin s c e = Ok r /\ small (B + 1) r.
Proof.
  intros Htop HB0 HB.
  assert (Hconst : Dec.Etiny = -1000028 /\ Dec.Etop = 999970 /\ Dec.Emax = 999999
                   /\ Dec.prec = 30) by (repeat split; reflexivity).
  destruct Hconst as (HEt & HEo & HEm & HP).
  unfold Dec.fix_fin.
  destruct (c =? 0)%N eqn:Ec.
  { apply N.eqb_eq in Ec. subst c. eexists. split; [reflexivity |].
    cbn [small]. change (Dec.ndigits (Z.of_N 0)) with 1 in *. lia. }
  apply N.eqb_neq in Ec. assert (Hc : 0 < Z.of_N c) by lia.
  set (len := Dec.ndigits (Z.of_N c)) in *.
  assert (E1 : (Dec.Etop <? len + e - Dec.prec) = false) by (apply Z.ltb_ge; lia).
  rewrite E1.
  remember (Z.max (len + e - Dec.prec) Dec.Etiny) as em eqn:Eem.
  destruct (e <? em) eqn:Er.
  - apply Z.ltb_lt in Er.
    pose proof (round_half_even_nonneg (Z.of_N c) (em - e) ltac:(lia)) as Hq0.
    assert (Hup : Dec.round_half_even (Z.of_N c) (em - e) <= 10 ^ Dec.prec).
    { apply round_half_even_upper; [lia | lia | lia |].
      pose proof (ndigits_spec _ Hc) as [_ Hlt]. fold len in Hlt.
      eapply Z.lt_le_trans; [exact Hlt |].
      apply Z.pow_le_mono_r; lia. }
    remember (Dec.round_half_even (Z.of_N c) (em - e)) as q eqn:Eq.
    destruct (Dec.prec <? Dec.ndigits q) eqn:Ep.
    + apply Z.ltb_lt in Ep.
      assert (E2 : (Dec.Etop <? em + 1) = false) by (apply Z.ltb_ge; lia).
      rewrite E2. eexists. split; [reflexivity |]. cbn [small].
      assert (H10 : 10 <= q) by (apply ndigits_small; lia).
      assert (Hq1 : 1 <= q / 10) by (apply Z.div_le_lower_bound; lia).
      assert (Hq2 : q / 10 < 10 ^ Dec.prec).
      { apply Z.div_lt_upper_bound; [lia |].
        assert (0 < 10 ^ Dec.prec) by (apply Z.pow_pos_nonneg; lia). lia. }
      rewrite Z2N.id by lia.
      assert (Dec.ndigits (q / 10) <= Dec.prec) by (apply ndigits_le; lia).
      lia.
    + apply Z.ltb_ge in Ep.
      assert (E2 : (Dec.Etop <? em) = false) by (apply Z.ltb_ge; lia).
      rewrite E2. eexists. split; [reflexivity |]. cbn [small].
      rewrite Z2N.id by lia. lia.
  - eexists. split; [reflexivity |]. cbn [small]. fold len. lia.
Qed.

Lemma mul_small (a b : Dec.t) (B1 B2 : Z) :
  small B1 a -> small B2 b -> 0 <= B1 + B2 -> B1 + B2 <= Dec.Emax ->
  exists r, Dec.mul a b = Ok r /\ small (B1 + B2 + 1) r.
Proof.
  destruct a as [s1 c1 e1 | |], b as [s2 c2 e2 | |]; cbn [small]; try tauto.
  intros H1 H2 H0 HB. cbn.
  apply fix_fin_small; [| lia | lia].
  rewrite N2Z.inj_mul.
  pose proof (ndigits_mul_upper (Z.of_N c1) (Z.of_N c2) ltac:(lia) ltac:(lia)).
  lia.
Qed.

Lemma scaled_bound (s : bool) (c : N) (e e0 B : Z) :
  e0 <= e -> Dec.ndigits (Z.of_N c) + e <= B ->
  Z.abs (Dec.scaled s c e e0) < 10 ^ (B - e0).
Proof.
  intros He Htop. unfold Dec.scaled.
  pose proof (ndigits_pos (Z.of_N c)) as Hd.
  assert (Hp : 0 < 10 ^ (e - e0)) by (apply Z.pow_pos_nonneg; lia).
  assert (Hc : Z.of_N c < 10 ^ Dec.ndigits (Z.of_N c)).
  { destruct (N.eq_dec c 0) as [-> | Hc0].
    - change (Z.of_N 0) with 0 in *. apply Z.pow_pos_nonneg; lia.
    - apply ndigits_spec. lia. }
  assert (Hm : Z.of_N c * 10 ^ (e - e0) < 10 ^ (Dec.ndigits (Z.of_N c) + (e - e0))).
  { rewrite Z.pow_add_r by lia. nia. }
  assert (Hle : 10 ^ (Dec.ndigits (Z.of_N c) + (e - e0)) <= 10 ^ (B - e0))
    by (apply Z.pow_le_mono_r; lia).
  destruct s; lia.
Qed.

Lemma add_small (a b : Dec.t) (B : Z) :
  small B a -> small B b -> 0 <= B -> B + 1 <= Dec.Emax ->
  exists r, Dec.add a b = Ok r /\ small (B + 2) r.
Proof.
  destruct a as [s1 c1 e1 | |], b as [s2 c2 e2 | |]; cbn [small]; try tauto.
  intros H1 H2 H0 HB. cbn.
  pose proof (ndigits_pos (Z.of_N c1)) as Hd1.
  pose proof (ndigits_pos (Z.of_N c2)) as Hd2.
  assert (HP : Dec.prec = 30) by reflexivity.
  destruct (c1 =? 0)%N eqn:E1; destruct (c2 =? 0)%N eqn:E2; cbn [andb].
  - destruct (fix_fin_small (s1 && s2) 0 (Z.min e1 e2) B) as (r & Hr & Hs);
      [change (Dec.ndigits (Z.of_N 0)) with 1; apply N.eqb_eq in E1; subst c1;
       change (Dec.ndigits (Z.of_N 0)) with 1 in H1; lia | lia | lia |].
    exists r. split; [exact Hr | apply (small_mono (B + 1)); [lia | exact Hs]].
  - set (ex := Z.max (Z.min e1 e2) (e2 - Dec.prec - 1)).
    destruct (fix_fin_small s2 (Z.to_N (Z.of_N c2 * 10 ^ (e2 - ex))) ex B)
      as (r & Hr & Hs); [| lia | lia |].
    { assert (0 <= e2 - ex) by (unfold ex; lia).
      assert (0 < 10 ^ (e2 - ex)) by (apply Z.pow_pos_nonneg; lia).
      rewrite Z2N.id by nia.
      pose proof (ndigits_mul_pow10 (Z.of_N c2) (e2 - ex) ltac:(lia) ltac:(lia)).
      lia. }
    exists r. split; [exact Hr | apply (small_mono (B + 1)); [lia | exact Hs]].
  - set (ex := Z.max (Z.min e1 e2) (e1 - Dec.prec - 1)).
    destruct (fix_fin_small s1 (Z.to_N (Z.of_N c1 * 10 ^ (e1 - ex))) ex B)
      as (r & Hr & Hs); [| lia | lia |].
    { assert (0 <= e1 - ex) by (unfold ex; lia).
      assert (0 < 10 ^ (e1 - ex)) by (apply Z.pow_pos_nonneg; lia).
      rewrite Z2N.id by nia.
      pose proof (ndigits_mul_pow10 (Z.of_N c1) (e1 - ex) ltac:(lia) ltac:(lia)).
      lia. }
    exists r. split; [exact Hr | apply (small_mono (B + 1)); [lia | exact Hs]].
  - set (ex := Z.min e1 e2).
    pose proof (scaled_bound s1 c1 e1 ex B ltac:(unfold ex; lia) H1) as K1.
    pose proof (scaled_bound s2 c2 e2 ex B ltac:(unfold ex; lia) H2) as K2.
    set (x := Dec.scaled s1 c1 e1 ex) in *. set (y := Dec.scaled s2 c2 e2 ex) in *.
    destruct (x + y =? 0) eqn:Ez.
    + destruct (fix_fin_small false 0 ex B) as (r & Hr & Hs);
        [change (Dec.ndigits (Z.of_N 0)) with 1; unfold ex; lia | lia | lia |].
      exists r. split; [exact Hr | apply (small_mono (B + 1)); [lia | exact Hs]].
    + destruct (fix_fin_small (x + y <? 0) (Z.to_N (Z.abs (x + y))) ex (B + 1))
        as (r & Hr & Hs); [| lia | lia |].
      { rewrite Z2N.id by lia.
        assert (Hex : 0 <= B - ex) by (unfold ex; lia).
        assert (Hlt : Z.abs (x + y) < 10 ^ (B - ex + 1)).
        { rewrite Z.pow_add_r by lia. change (10 ^ 1) with 10.
          assert (0 < 10 ^ (B - ex)) by (apply Z.pow_pos_nonneg; lia). lia. }
        pose proof (ndigits_le (Z.abs (x + y)) (B - ex + 1) ltac:(lia) ltac:(lia) Hlt).
        lia. }
      exists r. split; [exact Hr |]. apply (small_mono (B + 1 + 1)); [lia | exact Hs].
Qed.

Lemma small_negate (B : Z) (d : Dec.t) : small B d -> small B (Dec.copy_negate d).
Proof. destruct d; cbn; tauto. Qed.

Lemma sub_small (a b : Dec.t) (B : Z) :
  small B a -> small B b -> 0 <= B -> B + 1 <= Dec.Emax ->
  exists r, Dec.sub a b = Ok r /\ small (B + 2) r.
Proof.
  intros Ha Hb H0 HB.
  destruct (add_small a (Dec.copy_negate b) B Ha (small_negate _ _ Hb) H0 HB)
    as (r & Hr & Hs).
  exists r. split; [| exact Hs].
  destruct a as [? ? ? | |], b as [? ? ? | |]; cbn [small] in Ha, Hb;
    try contradiction.
  exact Hr.
Qed.

Lemma neg_small (a : Dec.t) (B : Z) :
  small B a -> 0 <= B -> B <= Dec.Emax ->
  exists r, Dec.neg a = Ok r /\ small (B + 1) r.
Proof.
  destruct a as [s c e | |]; cbn [small]; try tauto.
  intros Ha H0 HB. cbn [Dec.neg].
  destruct (c =? 0)%N; apply fix_fin_small; assumption.
Qed.

Lemma cross_spec_small (x1 y1 z1 x2 y2 z2 : Dec.t) (B : Z) :
  Forall (small B) [x1; y1; z1] -> Forall (small B) [x2; y2; z2] ->
  0 <= B -> 2 * B + 3 <= Dec.Emax ->
  exists cs, cross_spec x1 y1 z1 x2 y2 z2 = Ok cs.
Proof.
  intros Hv Hw H0 HB.
  inversion Hv as [| ? ? Sx1 Hv1]; subst. inversion Hv1 as [| ? ? Sy1 Hv2]; subst.
  inversion Hv2 as [| ? ? Sz1 _]; subst.
  inversion Hw as [| ? ? Sx2 Hw1]; subst. inversion Hw1 as [| ? ? Sy2 Hw2]; subst.
  inversion Hw2 as [| ? ? Sz2 _]; subst.
  unfold cross_spec.
  destruct (mul_small y1 z2 B B Sy1 Sz2 ltac:(lia) ltac:(lia)) as (a1 & -> & Sa1).
  destruct (mul_small y2 z1 B B Sy2 Sz1 ltac:(lia) ltac:(lia)) as (b1 & -> & Sb1).
  cbn [bind].
  destruct (sub_small a1 b1 (B + B + 1) Sa1 Sb1 ltac:(lia) ltac:(lia)) as (x & -> & _).
  cbn [bind].
  destruct (mul_small x1 z2 B B Sx1 Sz2 ltac:(lia) ltac:(lia)) as (a2 & -> & Sa2).
  destruct (mul_small x2 z1 B B Sx2 Sz1 ltac:(lia) ltac:(lia)) as (b2 & -> & Sb2).
  cbn [bind].
  destruct (sub_small a2 b2 (B + B + 1) Sa2 Sb2 ltac:(lia) ltac:(lia)) as (c & -> & Sc).
  cbn [bind].
  destruct (neg_small c (B + B + 1 + 2) Sc ltac:(lia) ltac:(lia)) as (y & -> & _).
  cbn [bind].
  destruct (mul_small x1 y2 B B Sx1 Sy2 ltac:(lia) ltac:(lia)) as (a3 & -> & Sa3).
  destruct (mul_small x2 y1 B B Sx2 Sy1 ltac:(lia) ltac:(lia)) as (b3 & -> & Sb3).
  cbn [bind].
  destruct (sub_small a3 b3 (B + B + 1) Sa3 Sb3 ltac:(lia) ltac:(lia)) as (z & -> & _).
  cbn [bind]. eexists. reflexivity.
Qed.

Lemma zip_with_small (op : Dec.t -> Dec.t -> result Dec.t) (B B' : Z) :
  (forall x y, small B x -> small B y -> exists r, op x y = Ok r /\ small B' r) ->
  forall a b, Forall (small B) a -> Forall (small B) b ->
    exists l, zip_with op a b = Ok l /\ Forall (small B') l.
Proof.
  intros Hop. unfold zip_with.
  induction a as [| x t IH]; intros b Ha Hb.
  - exists []. split; [reflexivity | constructor].
  - destruct b as [| y u].
    + exists []. split; [reflexivity | constructor].
    + inversion Ha as [| ? ? Sx Ht]; subst. inversion Hb as [| ? ? Sy Hu]; subst.
      destruct (Hop x y Sx Sy) as (r & Hr & Sr).
      destruct (IH u Ht Hu) as (l & Hl & Sl).
      exists (r :: l). split; [| constructor; assumption].
      cbn [combine mapM]. rewrite Hr. cbn [bind]. rewrite Hl. reflexivity.
Qed.

Lemma sum_from_small (l : list Dec.t) :
  forall acc T, 0 <= T -> small T acc -> Forall (small T) l ->
    T + 2 * Z.of_nat (List.length l) <= Dec.Emax ->
    exists r, sum_from acc l = Ok r.
Proof.
  induction l as [| x t IH]; intros acc T H0 Sa Sl HB.
  - exists acc. reflexivity.
  - inversion Sl as [| ? ? Sx St]; subst.
    cbn [List.length] in HB. rewrite Nat2Z.inj_succ in HB.
    destruct (add_small acc x T Sa Sx H0 ltac:(lia)) as (r & Hr & Sr).
    cbn [sum_from]. rewrite Hr. cbn [bind].
    apply (IH r (T + 2)); [lia | exact Sr | | lia].
    eapply Forall_impl; [| exact St]. intros d. apply small_mono. lia.
Qed.

Lemma sum_small (l : list Dec.t) (T : Z) :
  1 <= T -> Forall (small T) l ->
  T + 2 * Z.of_nat (List.length l) <= Dec.Emax ->
  exists r, sum l = Ok r.
Proof.
  intros H1 Sl HB. destruct l as [| x t]; [eexists; reflexivity |].
  inversion Sl as [| ? ? Sx St]; subst.
  cbn [List.length] in HB. rewrite Nat2Z.inj_succ in HB.
  assert (S0 : small T (Dec.of_Z 0)).
  { change (Dec.of_Z 0) with (Dec.Fin false 0 0). cbn [small].
    change (Dec.ndigits (Z.of_N 0)) with 1. lia. }
  destruct (add_small x (Dec.of_Z 0) T Sx S0 ltac:(lia) ltac:(lia)) as (r & Hr & Sr).
  cbn [sum]. rewrite Hr. cbn [bind].
  apply (sum_from_small t r (T + 2)); [lia | exact Sr | | lia].
  eapply Forall_impl; [| exact St]. intros d. apply small_mono. lia.
Qed.

Lemma Forall_firstn {A : Type} (P : A -> Prop) (n : nat) (l : list A) :
  Forall P l -> Forall P (firstn n l).
Proof.
  revert l. induction n as [| n IH]; intros l H; [constructor |].
  destruct l as [| x t]; [constructor |].
  inversion H; subst. cbn [firstn]. constructor; auto.
Qed.

Lemma dot_spec_small (a b : list Dec.t) :
  Forall (small 400000) a -> Forall (small 400000) b ->
  Z.of_nat (List.length a) <= 99999 ->
  exists r, dot_spec a b = Ok r.
Proof.
  intros Ha Hb Hn. unfold dot_spec.
  destruct (zip_with_small Dec.mul 400000 (400000 + 400000 + 1)) with (a := a) (b := b)
    as (ps & Hps & Sps); [| exact Ha | exact Hb |].
  { intros x y Sx Sy. apply mul_small; [exact Sx | exact Sy | lia |].
    change Dec.Emax with 999999. lia. }
  rewrite Hps. cbn [bind].
  apply (sum_small ps (400000 + 400000 + 1)); [lia | exact Sps |].
  unfold zip_with in Hps. apply mapM_length in Hps.
  rewrite Hps, length_combine. change Dec.Emax with 999999. lia.
Qed.

Lemma zip_add_small (a b : list Dec.t) :
  Forall (small 400000) a -> Forall (small 400000) b ->
  exists l, zip_with Dec.add a b = Ok l.
Proof.
  intros Ha Hb.
  destruct (zip_with_small Dec.add 400000 (400000 + 2)) with (a := a) (b := b)
    as (l & Hl & _); [| exact Ha | exact Hb | eauto].
  intros x y Sx Sy. apply add_small; [exact Sx | exact Sy | lia |].
  change Dec.Emax with 999999. lia.
Qed.

Lemma zip_sub_small (a b : list Dec.t) :
  Forall (small 400000) a -> Forall (small 400000) b ->
  exists l, zip_with Dec.sub a b = Ok l.
Proof.
  intros Ha Hb.
  destruct (zip_with_small Dec.sub 400000 (400000 + 2)) with (a := a) (b := b)
    as (l & Hl & _); [| exact Ha | exact Hb | eauto].
  intros x y Sx Sy. apply sub_small; [exact Sx | exact Sy | lia |].
  change Dec.Emax with 999999. lia.
Qed.

(** ** Mismatched dimensions *)

Lemma longer_operand (self w : Vector) :
  wf self -> wf w -> dimension self < dimension w ->
  let a := coordinates self in
  let b' := firstn (List.length a) (coordinates w) in
  dot self (AVec w) = dot_spec a b'
  /\ __add__ self (AVec w)
     = (cs <- zip_with Dec.add a b' ;; Ok (mkVector cs (dimension self)))
  /\ __sub__ self (AVec w)
     = (cs <- zip_with Dec.sub a b' ;; Ok (mkVector cs (dimension self))).
Proof.
  intros Hwf1 Hwf2 Hlt a b'. pose proof Hwf1 as [Hd1 _]. pose proof Hwf2 as [Hd2 _].
  fold a in Hd1.
  assert (Hlen : (List.length a <= List.length (coordinates w))%nat) by lia.
  assert (Hz : forall op, zip_with op a b' = zip_with op a (coordinates w)).
  { intros op. unfold zip_with, b'. rewrite <- combine_firstn_l. reflexivity. }
  rewrite dot_indexed, add_indexed, sub_indexed.
  fold a. rewrite !indexed_long by exact Hlen.
  unfold dot_spec. rewrite !Hz.
  split; [reflexivity |].
  split; apply paired_result; assumption.
Qed.

Lemma shorter_operand (self w : Vector) :
  wf self -> wf w -> dimension w < dimension self ->
  let b := coordinates w in
  let a' := firstn (List.length b) (coordinates self) in
  (exists e, dot self (AVec w) = Raise e)
  /\ (exists e, __add__ self (AVec w) = Raise e)
  /\ (exists e, __sub__ self (AVec w) = Raise e)
  /\ (forall l, zip_with Dec.mul a' b = Ok l -> dot self (AVec w) = Raise IndexError)
  /\ (forall l, zip_with Dec.add a' b = Ok l ->
        __add__ self (AVec w) = Raise IndexError)
  /\ (forall l, zip_with Dec.sub a' b = Ok l ->
        __sub__ self (AVec w) = Raise IndexError).
Proof.
  intros [Hd1 _] [Hd2 _] Hlt b a'. fold b in Hd2.
  assert (Hlen : (List.length b < List.length (coordinates self))%nat) by lia.
  rewrite dot_indexed, add_indexed, sub_indexed. fold b.
  destruct (indexed_short Dec.mul (coordinates self) [] b Hlen) as [[e1 H1] K1].
  destruct (indexed_short Dec.add (coordinates self) [] b Hlen) as [[e2 H2] K2].
  destruct (indexed_short Dec.sub (coordinates self) [] b Hlen) as [[e3 H3] K3].
  repeat split.
  - exists e1. rewrite H1. reflexivity.
  - exists e2. rewrite H2. reflexivity.
  - exists e3. rewrite H3. reflexivity.
  - intros l Hl. rewrite (K1 l Hl). reflexivity.
  - intros l Hl. rewrite (K2 l Hl). reflexivity.
  - intros l Hl. rewrite (K3 l Hl). reflexivity.
Qed.

(** C10, as stated, fails: with a longer operand the operation need
    not succeed, the addition of the paired coordinates can overflow
    the exponent range of the context. *)
Lemma longer_operand_can_overflow :
  exists self w,
    vec_str ["9e999999"%string] = Ok self
    /\ __init__ (PyList [AStr "9e999999"; AInt 0]) = Ok w
    /\ dimension self < dimension w
    /\ __add__ self (AVec w) = Raise Overflow.
Proof.
  do 2 eexists. split; [reflexivity |]. split; [reflexivity |].
  split; [reflexivity |]. vm_compute. reflexivity.
Qed.

(** C10, amended.  With mismatched dimensions [dot], [+] and [-] walk
    the coordinates of [self] and index into those of the operand.  A
    longer operand is read only up to the dimension of [self]: the
    outcome is the one for the operand cut to its first
    [dimension self] coordinates, and the operation succeeds, with a
    [Vector] of the dimension of [self] for [+] and [-], when the
    coordinates are finite and below [10^400000] in absolute value (and
    there are at most 99999 of them).  A shorter operand makes the
    operation fail, with [IndexError] once the coordinates it has have
    been combined. *)
Theorem mismatched_dimensions (self w : Vector) :
  wf self -> wf w ->
  let a := coordinates self in
  let b := coordinates w in
  (dimension self < dimension w ->
     let b' := firstn (List.length a) b in
     (dot self (AVec w) = dot_spec a b'
      /\ __add__ self (AVec w)
         = (cs <- zip_with Dec.add a b' ;; Ok (mkVector cs (dimension self)))
      /\ __sub__ self (AVec w)
         = (cs <- zip_with Dec.sub a b' ;; Ok (mkVector cs (dimension self))))
     /\ (Forall (small 400000) a -> Forall (small 400000) b ->
         dimension self <= 99999 ->
         (exists r, dot self (AVec w) = Ok r)
         /\ (exists p, __add__ self (AVec w) = Ok p /\ dimension p = dimension self)
         /\ (exists p, __sub__ self (AVec w) = Ok p /\ dimension p = dimension self)))
  /\ (dimension w < dimension self ->
       let a' := firstn (List.length b) a in
       (exists e, dot self (AVec w) = Raise e)
       /\ (exists e, __add__ self (AVec w) = Raise e)
       /\ (exists e, __sub__ self (AVec w) = Raise e)
       /\ (forall l, zip_with Dec.mul a' b = Ok l ->
             dot self (AVec w) = Raise IndexError)
       /\ (forall l, zip_with Dec.add a' b = Ok l ->
             __add__ self (AVec w) = Raise IndexError)
       /\ (forall l, zip_with Dec.sub a' b = Ok l ->
             __sub__ self (AVec w) = Raise IndexError)).
Proof.
  intros Hwf1 Hwf2 a b. split.
  - intros Hlt b'.
    destruct (longer_operand self w Hwf1 Hwf2 Hlt) as (Hdot & Hadd & Hsub).
    fold a in Hdot, Hadd, Hsub. fold b in Hdot, Hadd, Hsub.
    fold b' in Hdot, Hadd, Hsub.
    split; [auto |].
    intros Sa Sb Hn.
    assert (Sb' : Forall (small 400000) b') by (apply Forall_firstn; exact Sb).
    destruct Hwf1 as [Hd1 _]. fold a in Hd1.
    split; [| split].
    + rewrite Hdot. apply dot_spec_small; [exact Sa | exact Sb' | lia].
    + destruct (zip_add_small a b' Sa Sb') as (l & Hl).
      rewrite Hadd, Hl. eexists. split; reflexivity.
    + destruct (zip_sub_small a b' Sa Sb') as (l & Hl).
      rewrite Hsub, Hl. eexists. split; reflexivity.
  - intros Hlt. exact (shorter_operand self w Hwf1 Hwf2 Hlt).
Qed.

Lemma mismatched_dimensions_witness :
  (exists p,
     __add__ (mkVector [Dec.of_Z 1; Dec.of_Z 2] 2)
             (AVec (mkVector [Dec.of_Z 3; Dec.of_Z 4; Dec.of_Z 5] 3)) = Ok p
     /\ dimension p = 2)
  /\ dot (mkVector [Dec.of_Z 3; Dec.of_Z 4; Dec.of_Z 5] 3)
         (AVec (mkVector [Dec.of_Z 1; Dec.of_Z 2] 2))
     = Raise IndexError.
Proof.
  assert (W2 : wf (mkVector [Dec.of_Z 1; Dec.of_Z 2] 2))
    by (split; [reflexivity | discriminate]).
  assert (W3 : wf (mkVector [Dec.of_Z 3; Dec.of_Z 4; Dec.of_Z 5] 3))
    by (split; [reflexivity | discriminate]).
  split.
  - destruct (mismatched_dimensions _ _ W2 W3) as [Hlong _].
    destruct (Hlong eq_refl) as (_ & Hsucc).
    apply Hsucc.
    + repeat constructor; vm_compute; discriminate.
    + repeat constructor; vm_compute; discriminate.
    + vm_compute. discriminate.
  - destruct (mismatched_dimensions _ _ W3 W2) as [_ Hshort].
    destruct (Hshort eq_refl) as (_ & _ & _ & Hdot & _).
    apply (Hdot [Dec.of_Z 3; Dec.of_Z 8]). reflexivity.
Defined.

(** ** The dimension check of the cross product *)

(** C3, as stated, fails: two operands of dimension 3 need not make
    [cross] succeed, a product of coordinates can overflow the exponent
    range of the context. *)
Lemma cross_can_overflow :
  exists v w,
    vec_str ["1e999999"; "0"; "0"]%string = Ok v
    /\ vec_str ["0"; "1e999999"; "0"]%string = Ok w
    /\ dimension v = 3 /\ dimension w = 3
    /\ cross v (AVec w) = Raise Overflow.
Proof.
  do 2 eexists. repeat (split; [reflexivity |]). vm_compute. reflexivity.
Qed.

(** C3, amended.  [cross] fails with [NotAVectorError] when the operand
    is not a [Vector] and with [UnsupportedDimensionError] whenever the
    two dimensions are not both 3, equal dimensions other than 3
    included, so that it returns a value only when both are 3.  When
    both are 3 it evaluates
    [(y1*z2 - y2*z1, -(x1*z2 - x2*z1), x1*y2 - x2*y1)] in the arithmetic
    of the context and returns the [Vector] of these three numbers; it
    raises only if one of these operations raises its own signal, and
    it succeeds whenever the coordinates are finite and below
    [10^499998] in absolute value. *)
Theorem cross_dimension_check :
  (forall self v, as_Vector v = None -> cross self v = Raise NotAVectorError)
  /\ (forall self w,
        ~ (dimension self = 3 /\ dimension w = 3) ->
        cross self (AVec w) = Raise UnsupportedDimensionError)
  /\ (forall self w r, cross self (AVec w) = Ok r ->
        dimension self = 3 /\ dimension w = 3)
  /\ (forall self w, wf self -> wf w -> dimension self = 3 -> dimension w = 3 ->
        (exists x1 y1 z1 x2 y2 z2,
           coordinates self = [x1; y1; z1] /\ coordinates w = [x2; y2; z2]
           /\ cross self (AVec w)
              = (cs <- cross_spec x1 y1 z1 x2 y2 z2 ;; Ok (mkVector cs 3)))
        /\ (forall e, cross self (AVec w) = Raise e -> arith_exn e)
        /\ (Forall (small 499998) (coordinates self) ->
            Forall (small 499998) (coordinates w) ->
            exists r, cross self (AVec w) = Ok r)).
Proof.
  split; [| split; [| split]].
  - intros self v Hv. unfold cross. rewrite Hv. reflexivity.
  - exact cross_wrong_dimension.
  - exact cross_ok_dims.
  - intros self w W1 W2 H1 H2.
    destruct (wf_three _ W1 H1) as (x1 & y1 & z1 & Hc1).
    destruct (wf_three _ W2 H2) as (x2 & y2 & z2 & Hc2).
    pose proof (cross_three _ _ _ _ _ _ _ _ Hc1 Hc2 H1 H2) as Hx.
    split; [| split].
    + exists x1, y1, z1, x2, y2, z2. auto.
    + intros e He. rewrite Hx in He.
      apply bind_raise_inv in He. destruct He as [He | (? & _ & He)].
      * exact (cross_spec_exn _ _ _ _ _ _ _ He).
      * discriminate He.
    + intros S1 S2. rewrite Hc1 in S1. rewrite Hc2 in S2.
      destruct (cross_spec_small _ _ _ _ _ _ 499998 S1 S2) as (cs & Hcs);
        [lia | vm_compute; discriminate |].
      rewrite Hx, Hcs. eexists. reflexivity.
Qed.

Lemma cross_dimension_check_witness :
  cross (mkVector [Dec.of_Z 1; Dec.of_Z 2] 2) (AVec (mkVector [Dec.of_Z 1; Dec.of_Z 2] 2))
  = Raise UnsupportedDimensionError
  /\ cross (mkVector [Dec.of_Z 1] 1) (Atom (AInt 3)) = Raise NotAVectorError
  /\ exists r,
       cross (mkVector [Dec.of_Z 1; Dec.of_Z 0; Dec.of_Z 0] 3)
             (AVec (mkVector [Dec.of_Z 0; Dec.of_Z 1; Dec.of_Z 0] 3)) = Ok r.
Proof.
  destruct cross_dimension_check as (Hnv & Hgate & _ & Hthree).
  split; [| split].
  - apply Hgate. simpl. intros [H _]. discriminate H.
  - apply Hnv. reflexivity.
  - apply (Hthree (mkVector [Dec.of_Z 1; Dec.of_Z 0; Dec.of_Z 0] 3)
                  (mkVector [Dec.of_Z 0; Dec.of_Z 1; Dec.of_Z 0] 3)).
    + split; [reflexivity | discriminate].
    + split; [reflexivity | discriminate].
    + reflexivity.
    + reflexivity.
    + repeat constructor; vm_compute; discriminate.
    + repeat constructor; vm_compute; discriminate.
Defined.

(** * Further properties of the class *)

(** ** Sign of the magnitude *)

Lemma fix_fin_nonneg (c : N) (e : Z) (r : Dec.t) :
  Dec.fix_fin false c e = Ok r -> nonneg r.
Proof.
  intros H. destruct (fix_fin_sign false false c e r H) as (q & e1 & -> & _).
  reflexivity.
Qed.

Lemma sq_nonneg (a r : Dec.t) : Dec.sq a = Ok r -> nonneg r.
Proof.
  destruct a as [s c e | s | s []]; cbn [Dec.sq]; intros H; try discriminate H.
  - destruct (c =? 0)%N; [injection H as <-; reflexivity |].
    apply bind_ok_inv in H. destruct H as (r0 & Hr & H).
    destruct (fix_at_sign _ _ _ _ _ Hr) as (q & e1 & ->). cbn [Dec.fix_] in H.
    exact (fix_fin_nonneg _ _ _ H).
  - injection H as <-. reflexivity.
  - injection H as <-. reflexivity.
Qed.

Lemma scaled_false_nonneg (c : N) (e e0 : Z) : 0 <= Dec.scaled false c e e0.
Proof.
  unfold Dec.scaled. pose proof (Z.pow_nonneg 10 (e - e0) ltac:(lia)). nia.
Qed.

Lemma add_nonneg (a b r : Dec.t) :
  nonneg a -> nonneg b -> Dec.add a b = Ok r -> nonneg r.
Proof.
  destruct a as [s1 c1 e1 | s1 | s1 g1], b as [s2 c2 e2 | s2 | s2 g2];
    cbn [nonneg]; intros -> ->; unfold Dec.add, Dec.check_nans; cbn [bind];
    intros H; try (injection H as <-; reflexivity).
  destruct (c1 =? 0)%N; destruct (c2 =? 0)%N; cbn [andb] in H;
    try exact (fix_fin_nonneg _ _ _ H).
  pose proof (scaled_false_nonneg c1 e1 (Z.min e1 e2)).
  pose proof (scaled_false_nonneg c2 e2 (Z.min e1 e2)).
  destruct (_ =? 0); [exact (fix_fin_nonneg _ _ _ H) |].
  assert (E : (Dec.scaled false c1 e1 (Z.min e1 e2)
               + Dec.scaled false c2 e2 (Z.min e1 e2) <? 0) = false)
    by (apply Z.ltb_ge; lia).
  rewrite E in H. exact (fix_fin_nonneg _ _ _ H).
Qed.

(** Adding numbers that are not below zero never raises
    [InvalidOperation]: the only signal left is [Overflow]. *)
Lemma add_nonneg_exn (a b : Dec.t) (x : exn) :
  nonneg a -> nonneg b -> Dec.add a b = Raise x -> x = Overflow.
Proof.
  destruct a as [s1 c1 e1 | s1 | s1 g1], b as [s2 c2 e2 | s2 | s2 g2];
    cbn [nonneg]; intros -> ->; unfold Dec.add, Dec.check_nans; cbn [bind];
    intros H; try discriminate H.
  repeat match type of H with
         | context [if ?c then _ else _] => destruct c
         end; exact (fix_fin_exn _ _ _ _ H).
Qed.

Lemma sum_from_nonneg (l : list Dec.t) :
  forall acc, nonneg acc -> Forall nonneg l ->
    (forall r, sum_from acc l = Ok r -> nonneg r)
    /\ (forall x, sum_from acc l = Raise x -> x = Overflow).
Proof.
  induction l as [| y t IH]; intros acc Ha Hl; cbn [sum_from].
  - split; [intros r H; injection H as <-; exact Ha | intros x H; discriminate H].
  - inversion Hl as [| ? ? Hy Ht]; subst.
    destruct (Dec.add acc y) as [a | e] eqn:E; cbn [bind].
    + exact (IH a (add_nonneg _ _ _ Ha Hy E) Ht).
    + split; [intros r H; discriminate H |].
      intros x H. injection H as <-. exact (add_nonneg_exn _ _ _ Ha Hy E).
Qed.

Lemma of_Z_0_nonneg : nonneg (Dec.of_Z 0).
Proof. reflexivity. Qed.

Lemma sum_nonneg (l : list Dec.t) :
  Forall nonneg l ->
  (forall r, sum l = Ok r -> nonneg r)
  /\ (forall x, sum l = Raise x -> x = Overflow).
Proof.
  intros Hl. destruct l as [| y t]; cbn [sum].
  - split; [intros r H; injection H as <-; reflexivity | intros x H; discriminate H].
  - inversion Hl as [| ? ? Hy Ht]; subst.
    destruct (Dec.add y (Dec.of_Z 0)) as [a | e] eqn:E; cbn [bind].
    + exact (sum_from_nonneg t a (add_nonneg _ _ _ Hy of_Z_0_nonneg E) Ht).
    + split; [intros r H; discriminate H |].
      intros x H. injection H as <-. exact (add_nonneg_exn _ _ _ Hy of_Z_0_nonneg E).
Qed.

Lemma mapM_sq_nonneg (l sqs : list Dec.t) :
  mapM Dec.sq l = Ok sqs -> Forall nonneg sqs.
Proof.
  revert sqs. induction l as [| x t IH]; cbn [mapM]; intros sqs H.
  - injection H as <-. constructor.
  - apply bind_ok_inv in H. destruct H as (y & Hy & H).
    apply bind_ok_inv in H. destruct H as (ys & Hys & H). injection H as <-.
    constructor; [exact (sq_nonneg _ _ Hy) | exact (IH _ Hys)].
Qed.

Lemma round_fnonneg (m e : Z) : fnonneg (Flt.round false m e).
Proof.
  unfold Flt.round.
  repeat match goal with
         | |- context [if ?c then _ else _] => destruct c
         end; reflexivity.
Qed.

Lemma of_Dec_nonneg (d : Dec.t) :
  nonneg d -> exists f, Flt.of_Dec d = Ok f /\ fnonneg f.
Proof.
  destruct d as [s c e | s | s g]; cbn [nonneg]; intros ->; cbn [Flt.of_Dec].
  - destruct (c =? 0)%N; [eexists; split; reflexivity |].
    destruct (0 <=? e); eexists; (split; [reflexivity |]).
    + apply round_fnonneg.
    + unfold Flt.round_ratio. apply round_fnonneg.
  - eexists. split; reflexivity.
  - eexists. split; [reflexivity | exact I].
Qed.

Lemma sqrt_fnonneg (f : Flt.t) :
  fnonneg f -> exists r, Flt.sqrt f = Ok r /\ fnonneg r.
Proof.
  destruct f as [s m e | s |]; cbn [fnonneg]; [intros -> | intros -> | intros _];
    cbn [Flt.sqrt].
  - destruct (m =? 0)%N; eexists; (split; [reflexivity |]).
    + reflexivity.
    + apply round_fnonneg.
  - eexists. split; reflexivity.
  - eexists. split; [reflexivity | exact I].
Qed.

Lemma to_Dec_nonneg (f : Flt.t) : fnonneg f -> nonneg (Flt.to_Dec f).
Proof.
  destruct f as [s m e | s |]; cbn [fnonneg]; [intros -> | intros -> | intros _].
  - cbn [Flt.to_Dec]. destruct m; [reflexivity |]. destruct (0 <=? e); reflexivity.
  - reflexivity.
  - reflexivity.
Qed.

Lemma mag_inv (v : Vector) :
  (forall m, mag v = Ok m -> nonneg m)
  /\ (forall x, mag v = Raise x -> x = Overflow \/ x = InvalidOperation "sNaN").
Proof.
  unfold mag.
  destruct (mapM Dec.sq (coordinates v)) as [sqs | e] eqn:Hs; cbn [bind].
  2: { split; [intros m H; discriminate H |].
       intros x H. injection H as <-.
       apply mapM_raise_inv in Hs. destruct Hs as (d & _ & Hd).
       destruct d as [s c e0 | s | s []]; cbn [Dec.sq] in Hd; try discriminate Hd.
       - destruct (c =? 0)%N; [discriminate Hd |].
         left. apply bind_raise_inv in Hd. destruct Hd as [Hd | (r0 & Hr & Hd)].
         + exact (fix_at_exn _ _ _ _ _ Hd).
         + destruct (fix_at_sign _ _ _ _ _ Hr) as (q & e1 & ->).
           exact (fix_fin_exn _ _ _ _ Hd).
       - right. injection Hd as <-. reflexivity. }
  pose proof (mapM_sq_nonneg _ _ Hs) as Hn.
  destruct (sum_nonneg sqs Hn) as [Hok Hraise].
  destruct (sum sqs) as [t | e] eqn:Ht; cbn [bind].
  2: { split; [intros m H; discriminate H |].
       intros x H. injection H as <-. left. exact (Hraise _ eq_refl). }
  destruct (of_Dec_nonneg t (Hok _ eq_refl)) as (f & -> & Hf). cbn [bind].
  destruct (sqrt_fnonneg f Hf) as (r & -> & Hr). cbn [bind].
  split; [| intros x H; discriminate H].
  intros m H. injection H as <-. exact (to_Dec_nonneg _ Hr).
Qed.

(** ** Failures of the angle and of the projections *)

Lemma mag_arith_exn (v : Vector) (e : exn) : mag v = Raise e -> arith_exn e.
Proof.
  intros H. destruct (proj2 (mag_inv v) e H) as [-> | ->]; exact I.
Qed.

Lemma dot_long_exn (self w : Vector) (e : exn) :
  (List.length (coordinates self) <= List.length (coordinates w))%nat ->
  dot self (AVec w) = Raise e -> arith_exn e.
Proof.
  intros Hlen. rewrite dot_indexed, indexed_long by exact Hlen. intros H.
  step_raise H.
  - unfold zip_with in H. apply mapM_raise_inv in H.
    destruct H as ([x y] & _ & H). arith_raise H.
  - exact (sum_exn _ _ H).
Qed.

Section AngleErrors.

Variable acos : Flt.t -> Flt.t.

Lemma clean_then_acos (q : Dec.t) (deg : bool) (e : exn) :
  (a <- __clean_angle (ADec q) ;;
   t <- math_acos acos a ;; (if deg then Ok (Flt.degrees t) else Ok t)) = Raise e ->
  arith_exn e.
Proof.
  destruct (Dec.is_nan q) eqn:Hn.
  - rewrite (clean_angle_nan _ Hn). cbn [bind]. intros H. injection H as <-. exact I.
  - rewrite (clean_angle_clamp _ Hn). cbn [bind].
    destruct (math_acos_clamp acos q Hn) as (f & _ & _ & ->). cbn [bind].
    destruct deg; discriminate.
Qed.

Lemma theta_vec_exn (self w : Vector) (deg : bool) (e : exn) :
  theta acos self (AVec w) deg = Raise e ->
  e = ZeroMagnitudeError \/ arith_exn e
  \/ (e = IndexError
      /\ (List.length (coordinates w) < List.length (coordinates self))%nat).
Proof.
  unfold theta. cbn [as_Vector]. intros H.
  step_raise H; [right; left; exact (mag_arith_exn _ _ H) |].
  step_raise H; [right; left; exact (mag_arith_exn _ _ H) |].
  step_raise H; [right; left; arith_raise H |].
  step_raise H; [right; left; exact (eq_exn _ _ _ H) |].
  match type of H with
  | (if ?b then _ else _) = _ => destruct b
  end.
  { left. injection H as <-. reflexivity. }
  right.
  step_raise H.
  { destruct (Nat.le_gt_cases (List.length (coordinates self))
                              (List.length (coordinates w))) as [Hl | Hl].
    - left. exact (dot_long_exn _ _ _ Hl H).
    - apply dot_exn in H. destruct H as [H | H]; [left; exact H | right; auto]. }
  step_raise H; [left; arith_raise H |].
  left. exact (clean_then_acos _ _ _ H).
Qed.

(** [is_parallel_to] on a [Vector] raises only signals of the
    arithmetic, or [IndexError] for a shorter operand. *)
Lemma is_parallel_to_vec_exn (self w : Vector) (e : exn) :
  is_parallel_to acos self (AVec w) = Raise e ->
  arith_exn e
  \/ (e = IndexError
      /\ (List.length (coordinates w) < List.length (coordinates self))%nat).
Proof.
  unfold is_parallel_to. cbn [as_Vector]. intros H.
  destruct (is_zero self Flt.tol_default) as [[|] | e1] eqn:Z1; cbn [bind] in H;
    [discriminate H | |].
  2: { injection H as <-. unfold is_zero in Z1. step_raise Z1.
       - left. exact (mag_arith_exn _ _ Z1).
       - left. exact (lt_exn _ _ _ Z1). }
  destruct (is_zero w Flt.tol_default) as [[|] | e2] eqn:Z2; cbn [bind] in H;
    [discriminate H | |].
  2: { injection H as <-. unfold is_zero in Z2. step_raise Z2.
       - left. exact (mag_arith_exn _ _ Z2).
       - left. exact (lt_exn _ _ _ Z2). }
  apply is_zero_false_inv in Z1, Z2.
  destruct Z1 as (m1 & Hm1 & Hl1), Z2 as (m2 & Hm2 & Hl2).
  assert (Hth : forall x, theta acos self (AVec w) false = Raise x ->
                  arith_exn x
                  \/ (x = IndexError
                      /\ (List.length (coordinates w)
                          < List.length (coordinates self))%nat)).
  { intros x Hx. destruct (theta_vec_exn _ _ _ _ Hx) as [-> | K]; [| exact K].
    exfalso. apply theta_zero_inv in Hx.
    destruct Hx as (m1' & m2' & p & K1 & K2 & Kp & Kq).
    rewrite Hm1 in K1. rewrite Hm2 in K2. injection K1 as <-. injection K2 as <-.
    rewrite (mul_above_tol_nonzero _ _ _ Hl1 Hl2 Kp) in Kq. discriminate Kq. }
  destruct (theta acos self (AVec w) false) as [t | e3] eqn:Th; cbn [bind] in H.
  2: { injection H as <-. exact (Hth _ eq_refl). }
  left. unfold float_eq_Dec in H.
  step_raise H; [exact (eq_exn _ _ _ H) |].
  match type of H with
  | (if ?b then _ else _) = _ => destruct b
  end; [discriminate H | exact (eq_exn _ _ _ H)].
Qed.

End AngleErrors.

(** The other methods that project: [ZeroDivisionError] comes only
    from [norm]. *)
Lemma proj_on_zde (self w : Vector) (msg : string) :
  proj_on self (AVec w) = Raise (ZeroDivisionError msg) ->
  exists m, mag w = Ok m /\ Dec.eq m (Dec.of_Z 0) = Ok true.
Proof.
  unfold proj_on. cbn [as_Vector]. intros H.
  step_raise H; [exact (norm_zde _ _ H) |].
  step_raise H.
  { apply dot_exn in H. destruct H as [H | H]; [contradiction H | discriminate H]. }
  step_raise H; [exact (norm_zde _ _ H) |].
  rewrite mul_scalar in H. apply scale_spec_exn in H.
  destruct H as [H | H]; [contradiction H | discriminate H].
Qed.

Lemma sub_vec_exn (self p : Vector) (e : exn) :
  __sub__ self (AVec p) = Raise e ->
  arith_exn e \/ e = IndexError \/ e = ValueError EmptyString.
Proof.
  rewrite sub_indexed. intros H. step_raise H.
  - destruct (indexed_exn _ _ _ _ _ sub_exn H); auto.
  - right. right. apply Vector_of_raise in H. apply H.
Qed.

Lemma add_vec_exn (self p : Vector) (e : exn) :
  __add__ self (AVec p) = Raise e ->
  arith_exn e \/ e = IndexError \/ e = ValueError EmptyString.
Proof.
  rewrite add_indexed. intros H. step_raise H.
  - destruct (indexed_exn _ _ _ _ _ add_exn H); auto.
  - right. right. apply Vector_of_raise in H. apply H.
Qed.

Lemma orthogonal_to_zde (self w : Vector) :
  orthogonal_to self (AVec w) = Raise ZeroVectorError
  <-> exists m, mag w = Ok m /\ Dec.eq m (Dec.of_Z 0) = Ok true.
Proof.
  unfold orthogonal_to. cbn [as_Vector]. split.
  - intros H. step_raise H; [exact (proj_on_zde _ _ _ H) |].
    apply sub_vec_exn in H.
    destruct H as [H | [H | H]]; [contradiction H | discriminate H | discriminate H].
  - intros (m & Hm & Hz). unfold proj_on. cbn [as_Vector].
    rewrite (norm_of_zero _ _ Hm Hz). reflexivity.
Qed.

Lemma decompose_zde (self w : Vector) :
  decompose self (AVec w) = Raise ZeroVectorError
  <-> exists m, mag w = Ok m /\ Dec.eq m (Dec.of_Z 0) = Ok true.
Proof.
  unfold decompose. cbn [as_Vector]. split.
  - intros H. step_raise H; [exact (proj_on_zde _ _ _ H) |].
    step_raise H; [exact (proj1 (orthogonal_to_zde _ _) H) | discriminate H].
  - intros (m & Hm & Hz). unfold proj_on. cbn [as_Vector].
    rewrite (norm_of_zero _ _ Hm Hz). reflexivity.
Qed.

(** ** Commutativity *)

(** Commutativity of the arithmetic on numbers that are not NaN. *)
Lemma Dec_add_comm (a b : Dec.t) :
  Dec.is_nan a = false -> Dec.is_nan b = false -> Dec.add a b = Dec.add b a.
Proof.
  destruct a as [s1 c1 e1 | s1 | ? ?]; [| | discriminate];
    destruct b as [s2 c2 e2 | s2 | ? ?]; try discriminate; intros _ _;
    unfold Dec.add, Dec.check_nans; cbn [bind].
  - rewrite (Z.min_comm e2 e1), (andb_comm s2 s1), (Z.add_comm (Dec.scaled s2 _ _ _)).
    destruct (c1 =? 0)%N; destruct (c2 =? 0)%N; reflexivity.
  - reflexivity.
  - reflexivity.
  - destruct s1, s2; reflexivity.
Qed.

Lemma Dec_mul_comm_ok (a b r : Dec.t) :
  (Dec.is_nan a = true -> a = Dec.NaN false false) ->
  (Dec.is_nan b = true -> b = Dec.NaN false false) ->
  Dec.mul a b = Ok r -> Dec.mul b a = Ok r.
Proof.
  intros Ha Hb.
  destruct a as [s1 c1 e1 | s1 | s1 g1]; [| | rewrite (Ha eq_refl)];
    (destruct b as [s2 c2 e2 | s2 | s2 g2]; [| | rewrite (Hb eq_refl)]);
    unfold Dec.mul, Dec.check_nans; cbn [bind]; try (intros H; exact H).
  - rewrite (xorb_comm s2 s1), (N.mul_comm c2 c1), (Z.add_comm e2 e1). auto.
  - rewrite (xorb_comm s2 s1). destruct (c1 =? 0)%N; [discriminate | auto].
  - rewrite (xorb_comm s2 s1). destruct (c2 =? 0)%N; [discriminate | auto].
  - rewrite (xorb_comm s2 s1). auto.
Qed.

Lemma zip_with_comm (op : Dec.t -> Dec.t -> result Dec.t) (P : Dec.t -> Prop) :
  (forall x y, P x -> P y -> op x y = op y x) ->
  forall a b, Forall P a -> Forall P b -> zip_with op a b = zip_with op b a.
Proof.
  intros Hop. unfold zip_with. induction a as [| x t IH]; intros b Ha Hb.
  - destruct b; reflexivity.
  - destruct b as [| y u]; [reflexivity |].
    inversion Ha; subst. inversion Hb; subst. cbn [combine mapM].
    rewrite (Hop x y) by assumption. rewrite (IH u) by assumption. reflexivity.
Qed.

Lemma zip_with_comm_ok (op : Dec.t -> Dec.t -> result Dec.t) (P : Dec.t -> Prop) :
  (forall x y r, P x -> P y -> op x y = Ok r -> op y x = Ok r) ->
  forall a b l, Forall P a -> Forall P b ->
    zip_with op a b = Ok l -> zip_with op b a = Ok l.
Proof.
  intros Hop. unfold zip_with. induction a as [| x t IH]; intros b l Ha Hb H.
  - destruct b; exact H.
  - destruct b as [| y u]; [exact H |].
    inversion Ha; subst. inversion Hb; subst. cbn [combine mapM] in *.
    apply bind_ok_inv in H. destruct H as (r & Hr & H).
    apply bind_ok_inv in H. destruct H as (rs & Hrs & H). injection H as <-.
    rewrite (Hop x y r) by assumption. cbn [bind].
    rewrite (IH u rs) by assumption. reflexivity.
Qed.

Lemma equal_dimension_lengths (v w : Vector) :
  wf v -> wf w -> dimension v = dimension w ->
  List.length (coordinates v) = List.length (coordinates w).
Proof. intros [H1 _] [H2 _] H. lia. Qed.

(** X8.  Addition of two vectors of equal dimension without NaN
    coordinates is commutative, failures included: both orders return
    the same vector or raise the same exception. *)
Theorem add_commutative (v w : Vector) :
  wf v -> wf w -> dimension v = dimension w -> no_nan v -> no_nan w ->
  __add__ v (AVec w) = __add__ w (AVec v).
Proof.
  intros W1 W2 Hd N1 N2.
  pose proof (equal_dimension_lengths _ _ W1 W2 Hd) as Hl.
  rewrite !add_indexed, !indexed_long by lia.
  rewrite (paired_result Dec.add v _ W1) by lia.
  rewrite (paired_result Dec.add w _ W2) by lia.
  rewrite (zip_with_comm Dec.add _ Dec_add_comm _ _ N1 N2), Hd. reflexivity.
Qed.

Lemma dot_comm_ok (v w : Vector) (r : Dec.t) :
  wf v -> wf w -> dimension v = dimension w -> no_nan v -> no_nan w ->
  dot v (AVec w) = Ok r -> dot w (AVec v) = Ok r.
Proof.
  intros W1 W2 Hd N1 N2.
  pose proof (equal_dimension_lengths _ _ W1 W2 Hd) as Hl.
  rewrite !dot_indexed, !indexed_long by lia. intros H.
  apply bind_ok_inv in H. destruct H as (ps & Hps & H).
  rewrite (zip_with_comm_ok Dec.mul (fun d => Dec.is_nan d = false)) with (l := ps);
    [exact H | | exact N1 | exact N2 | exact Hps].
  intros x y t Hx Hy. apply Dec_mul_comm_ok; intros K; congruence.
Qed.

Lemma is_orthogonal_to_comm_ok (v w : Vector) (tol : Flt.t) (b : bool) :
  wf v -> wf w -> dimension v = dimension w -> no_nan v -> no_nan w ->
  is_orthogonal_to v (AVec w) tol = Ok b -> is_orthogonal_to w (AVec v) tol = Ok b.
Proof.
  intros W1 W2 Hd N1 N2. unfold is_orthogonal_to. cbn [as_Vector]. intros H.
  apply bind_ok_inv in H. destruct H as (d & Hdot & H).
  rewrite (dot_comm_ok _ _ _ W1 W2 Hd N1 N2 Hdot). exact H.
Qed.

Lemma mag_nan_form (v : Vector) (m : Dec.t) :
  mag v = Ok m -> Dec.is_nan m = true -> m = Dec.NaN false false.
Proof.
  unfold mag. intros H.
  apply bind_ok_inv in H. destruct H as (sqs & _ & H).
  apply bind_ok_inv in H. destruct H as (t & _ & H).
  apply bind_ok_inv in H. destruct H as (f & _ & H).
  apply bind_ok_inv in H. destruct H as (r & _ & H). injection H as <-.
  destruct r as [s n e | s |]; cbn [Flt.to_Dec].
  - destruct n; [discriminate |]. destruct (0 <=? e); discriminate.
  - discriminate.
  - reflexivity.
Qed.

Section AngleSymmetry.

Variable acos : Flt.t -> Flt.t.

(** X11.  The angle is symmetric: for two vectors of equal
    dimension without NaN coordinates, when [theta] succeeds in one
    order it returns the same [float] in the other. *)
Theorem theta_symmetric (v w : Vector) (deg : bool) (t : Flt.t) :
  wf v -> wf w -> dimension v = dimension w -> no_nan v -> no_nan w ->
  theta acos v (AVec w) deg = Ok t -> theta acos w (AVec v) deg = Ok t.
Proof.
  intros W1 W2 Hd N1 N2. unfold theta. cbn [as_Vector]. intros H.
  apply bind_ok_inv in H. destruct H as (m1 & H1 & H).
  apply bind_ok_inv in H. destruct H as (m2 & H2 & H).
  apply bind_ok_inv in H. destruct H as (p & Hp & H).
  apply bind_ok_inv in H. destruct H as (z & Hz & H).
  destruct z; [discriminate H |].
  apply bind_ok_inv in H. destruct H as (d & Hdot & H).
  rewrite H2, H1. cbn [bind].
  rewrite (Dec_mul_comm_ok m1 m2 p (mag_nan_form _ _ H1) (mag_nan_form _ _ H2) Hp).
  cbn [bind]. rewrite Hz. cbn [bind].
  rewrite (dot_comm_ok _ _ _ W1 W2 Hd N1 N2 Hdot). cbn [bind]. exact H.
Qed.

End AngleSymmetry.

(** ** The invariant of the constructor *)

Lemma Vector_of_wf (l : list Dec.t) (v : Vector) : Vector_of l = Ok v -> wf v.
Proof. apply Vector_init_wf. Qed.

Lemma add_wf (self : Vector) (x : pyval) (r : Vector) :
  __add__ self x = Ok r -> wf r.
Proof.
  unfold __add__. destruct (as_Vector x); [| discriminate]. intros H.
  apply bind_ok_inv in H. destruct H as (cs & _ & H). exact (Vector_of_wf _ _ H).
Qed.

Lemma sub_wf (self : Vector) (x : pyval) (r : Vector) :
  __sub__ self x = Ok r -> wf r.
Proof.
  unfold __sub__. destruct (as_Vector x); [| discriminate]. intros H.
  apply bind_ok_inv in H. destruct H as (cs & _ & H). exact (Vector_of_wf _ _ H).
Qed.

Lemma cross_wf (self : Vector) (x : pyval) (r : Vector) :
  cross self x = Ok r -> wf r.
Proof.
  unfold cross. destruct (as_Vector x) as [w |]; [| discriminate].
  destruct (negb _); [discriminate |].
  destruct (coordinates self) as [| x1 [| y1 [| z1 [| ? ?]]]]; try discriminate;
    destruct (coordinates w) as [| x2 [| y2 [| z2 [| ? ?]]]]; try discriminate.
  intros H.
  do 10 (apply bind_ok_inv in H; destruct H as (? & _ & H)).
  exact (Vector_of_wf _ _ H).
Qed.

Lemma mul_wf (self : Vector) (x : pyval) (r : Vector) :
  __mul__ self x = Ok r -> wf r.
Proof.
  unfold __mul__. destruct (is_number x).
  - intros H. apply bind_ok_inv in H. destruct H as (cs & _ & H).
    exact (Vector_of_wf _ _ H).
  - destruct (as_Vector x); [apply cross_wf | discriminate].
Qed.

Lemma norm_wf (self r : Vector) : norm self = Ok r -> wf r.
Proof.
  unfold norm. intros H.
  apply bind_ok_inv in H. destruct H as (m & _ & H).
  apply bind_ok_inv in H. destruct H as ([|] & _ & H); [| discriminate H].
  apply bind_ok_inv in H. destruct H as (m' & _ & H).
  apply bind_ok_inv in H. destruct H as (k & _ & H).
  exact (mul_wf _ _ _ H).
Qed.

Lemma proj_on_wf (self : Vector) (x : pyval) (r : Vector) :
  proj_on self x = Ok r -> wf r.
Proof.
  unfold proj_on. destruct (as_Vector x) as [w |]; [| discriminate]. intros H.
  apply bind_ok_inv in H. destruct H as (n & _ & H).
  apply bind_ok_inv in H. destruct H as (d & _ & H).
  apply bind_ok_inv in H. destruct H as (n' & _ & H).
  exact (mul_wf _ _ _ H).
Qed.

Lemma orthogonal_to_wf (self : Vector) (x : pyval) (r : Vector) :
  orthogonal_to self x = Ok r -> wf r.
Proof.
  unfold orthogonal_to. destruct (as_Vector x) as [w |]; [| discriminate]. intros H.
  apply bind_ok_inv in H. destruct H as (p & _ & H). exact (sub_wf _ _ _ H).
Qed.

(** X1.  Every [Vector] a method returns satisfies the invariant of
    the constructor: it has at least one coordinate and its [dimension]
    is the number of its coordinates.  This holds for [__init__],
    [__add__], [__sub__], [__mul__], [cross], [norm], [proj_on],
    [orthogonal_to] and both components of [decompose], whatever the
    operands are. *)
Theorem returned_vectors_well_formed :
  (forall input v, __init__ input = Ok v -> wf v)
  /\ (forall self x r, __add__ self x = Ok r -> wf r)
  /\ (forall self x r, __sub__ self x = Ok r -> wf r)
  /\ (forall self x r, __mul__ self x = Ok r -> wf r)
  /\ (forall self x r, cross self x = Ok r -> wf r)
  /\ (forall self r, norm self = Ok r -> wf r)
  /\ (forall self x r, proj_on self x = Ok r -> wf r)
  /\ (forall self x r, orthogonal_to self x = Ok r -> wf r)
  /\ (forall self x p o, decompose self x = Ok (p, o) -> wf p /\ wf o).
Proof.
  repeat split.
  - apply (Vector_init_wf input v H).
  - apply (Vector_init_wf input v H).
  - exact (proj1 (add_wf _ _ _ H)).
  - exact (proj2 (add_wf _ _ _ H)).
  - exact (proj1 (sub_wf _ _ _ H)).
  - exact (proj2 (sub_wf _ _ _ H)).
  - exact (proj1 (mul_wf _ _ _ H)).
  - exact (proj2 (mul_wf _ _ _ H)).
  - exact (proj1 (cross_wf _ _ _ H)).
  - exact (proj2 (cross_wf _ _ _ H)).
  - exact (proj1 (norm_wf _ _ H)).
  - exact (proj2 (norm_wf _ _ H)).
  - exact (proj1 (proj_on_wf _ _ _ H)).
  - exact (proj2 (proj_on_wf _ _ _ H)).
  - exact (proj1 (orthogonal_to_wf _ _ _ H)).
  - exact (proj2 (orthogonal_to_wf _ _ _ H)).
  - unfold decompose in H. destruct (as_Vector x); [| discriminate H].
    apply bind_ok_inv in H. destruct H as (p' & Hp & H).
    apply bind_ok_inv in H. destruct H as (o' & Ho & H). injection H as <- <-.
    exact (proj1 (proj_on_wf _ _ _ Hp)).
  - unfold decompose in H. destruct (as_Vector x); [| discriminate H].
    apply bind_ok_inv in H. destruct H as (p' & Hp & H).
    apply bind_ok_inv in H. destruct H as (o' & Ho & H). injection H as <- <-.
    exact (proj2 (proj_on_wf _ _ _ Hp)).
  - unfold decompose in H. destruct (as_Vector x); [| discriminate H].
    apply bind_ok_inv in H. destruct H as (p' & Hp & H).
    apply bind_ok_inv in H. destruct H as (o' & Ho & H). injection H as <- <-.
    exact (proj1 (orthogonal_to_wf _ _ _ Ho)).
  - unfold decompose in H. destruct (as_Vector x); [| discriminate H].
    apply bind_ok_inv in H. destruct H as (p' & Hp & H).
    apply bind_ok_inv in H. destruct H as (o' & Ho & H). injection H as <- <-.
    exact (proj2 (orthogonal_to_wf _ _ _ Ho)).
Qed.

(** ** Dimensions of the results *)

Lemma indexed_ok_length (op : Dec.t -> Dec.t -> result Dec.t)
      (pre b a l : list Dec.t) :
  indexed op pre b a = Ok l ->
  (List.length a <= List.length b)%nat /\ List.length l = List.length a.
Proof.
  intros H. split.
  - destruct (le_lt_dec (List.length a) (List.length b)) as [Hle | Hlt]; [exact Hle |].
    destruct (indexed_short op a pre b Hlt) as [[e He] _]. congruence.
  - unfold indexed in H. apply mapM_length in H. rewrite H.
    rewrite length_combine, length_seq. apply Nat.min_id.
Qed.

Lemma add_ok_length (self w r : Vector) :
  __add__ self (AVec w) = Ok r ->
  (List.length (coordinates self) <= List.length (coordinates w))%nat
  /\ List.length (coordinates r) = List.length (coordinates self).
Proof.
  rewrite add_indexed. intros H.
  apply bind_ok_inv in H. destruct H as (cs & Hcs & H).
  apply Vector_of_inv in H. destruct H as [_ ->].
  exact (indexed_ok_length _ _ _ _ _ Hcs).
Qed.

Lemma sub_ok_length (self w r : Vector) :
  __sub__ self (AVec w) = Ok r ->
  (List.length (coordinates self) <= List.length (coordinates w))%nat
  /\ List.length (coordinates r) = List.length (coordinates self).
Proof.
  rewrite sub_indexed. intros H.
  apply bind_ok_inv in H. destruct H as (cs & Hcs & H).
  apply Vector_of_inv in H. destruct H as [_ ->].
  exact (indexed_ok_length _ _ _ _ _ Hcs).
Qed.

Lemma dot_ok_length (self w : Vector) (d : Dec.t) :
  dot self (AVec w) = Ok d ->
  (List.length (coordinates self) <= List.length (coordinates w))%nat.
Proof.
  rewrite dot_indexed. intros H.
  apply bind_ok_inv in H. destruct H as (ps & Hps & _).
  exact (proj1 (indexed_ok_length _ _ _ _ _ Hps)).
Qed.

Lemma scalar_mul_length (self : Vector) (k : pyval) (r : Vector) :
  is_number k = true -> __mul__ self k = Ok r ->
  List.length (coordinates r) = List.length (coordinates self).
Proof.
  intros Hk. unfold __mul__. rewrite Hk. intros H.
  apply bind_ok_inv in H. destruct H as (cs & Hcs & H).
  apply Vector_of_inv in H. destruct H as [_ ->]. exact (mapM_length _ _ _ Hcs).
Qed.

Lemma wf_dimension_eq (v w : Vector) :
  wf v -> wf w -> List.length (coordinates v) = List.length (coordinates w) ->
  dimension v = dimension w.
Proof. intros [Hv _] [Hw _] H. rewrite Hv, Hw, H. reflexivity. Qed.

Lemma wf_dimension_le (v w : Vector) :
  wf v -> wf w ->
  (List.length (coordinates v) <= List.length (coordinates w))%nat ->
  dimension v <= dimension w.
Proof. intros [Hv _] [Hw _] H. rewrite Hv, Hw. lia. Qed.

Lemma proj_on_dims (self w p : Vector) :
  wf self -> wf w -> proj_on self (AVec w) = Ok p ->
  dimension p = dimension w /\ dimension self <= dimension w.
Proof.
  intros Hs Hw H. split.
  - apply wf_dimension_eq; [exact (proj_on_wf _ _ _ H) | exact Hw |].
    exact (proj1 (proj_on_length _ _ _ H)).
  - unfold proj_on in H. cbn [as_Vector] in H.
    apply bind_ok_inv in H. destruct H as (n & Hn & H).
    apply bind_ok_inv in H. destruct H as (d & Hd & _).
    apply dot_ok_length in Hd. rewrite (proj1 (norm_length _ _ Hn)) in Hd.
    exact (wf_dimension_le _ _ Hs Hw Hd).
Qed.

Lemma orthogonal_to_dims (self w o : Vector) :
  wf self -> wf w -> orthogonal_to self (AVec w) = Ok o ->
  dimension o = dimension self /\ dimension self <= dimension w.
Proof.
  intros Hs Hw H. pose proof (orthogonal_to_wf _ _ _ H) as Ho.
  unfold orthogonal_to in H. cbn [as_Vector] in H.
  apply bind_ok_inv in H. destruct H as (p & Hp & H).
  split.
  - apply wf_dimension_eq; [exact Ho | exact Hs |].
    exact (proj2 (sub_ok_length _ _ _ H)).
  - exact (proj2 (proj_on_dims _ _ _ Hs Hw Hp)).
Qed.

(** X2.  Dimensions of the results.  A scalar multiple and [norm]
    keep the dimension of [self]; [__add__] and [__sub__] return the
    dimension of [self] and succeed only when the operand is at least
    as long; [proj_on] returns a vector of the dimension of its
    operand, [orthogonal_to] one of the dimension of [self], and both
    succeed only when [self] is not longer than the operand, so the two
    components of [decompose] can have different dimensions. *)
Theorem result_dimensions (self w : Vector) :
  wf self -> wf w ->
  (forall k r, is_number k = true -> __mul__ self k = Ok r ->
     dimension r = dimension self)
  /\ (forall r, norm self = Ok r -> dimension r = dimension self)
  /\ (forall r, __add__ self (AVec w) = Ok r ->
        dimension r = dimension self /\ dimension self <= dimension w)
  /\ (forall r, __sub__ self (AVec w) = Ok r ->
        dimension r = dimension self /\ dimension self <= dimension w)
  /\ (forall p, proj_on self (AVec w) = Ok p ->
        dimension p = dimension w /\ dimension self <= dimension w)
  /\ (forall o, orthogonal_to self (AVec w) = Ok o ->
        dimension o = dimension self /\ dimension self <= dimension w)
  /\ (forall p o, decompose self (AVec w) = Ok (p, o) ->
        dimension p = dimension w /\ dimension o = dimension self
        /\ dimension self <= dimension w).
Proof.
  intros Hs Hw. repeat apply conj.
  - intros k r Hk H. apply wf_dimension_eq; [exact (mul_wf _ _ _ H) | exact Hs |].
    exact (scalar_mul_length _ _ _ Hk H).
  - intros r H. apply wf_dimension_eq; [exact (norm_wf _ _ H) | exact Hs |].
    exact (proj1 (norm_length _ _ H)).
  - intros r H. destruct (add_ok_length _ _ _ H) as [Hle Hlen]. split.
    + exact (wf_dimension_eq _ _ (add_wf _ _ _ H) Hs Hlen).
    + exact (wf_dimension_le _ _ Hs Hw Hle).
  - intros r H. destruct (sub_ok_length _ _ _ H) as [Hle Hlen]. split.
    + exact (wf_dimension_eq _ _ (sub_wf _ _ _ H) Hs Hlen).
    + exact (wf_dimension_le _ _ Hs Hw Hle).
  - intros p H. exact (proj_on_dims _ _ _ Hs Hw H).
  - intros o H. exact (orthogonal_to_dims _ _ _ Hs Hw H).
  - intros p o H. unfold decompose in H. cbn [as_Vector] in H.
    apply bind_ok_inv in H. destruct H as (p' & Hp & H).
    apply bind_ok_inv in H. destruct H as (o' & Ho & H). injection H as <- <-.
    destruct (proj_on_dims _ _ _ Hs Hw Hp) as [H1 H2].
    destruct (orthogonal_to_dims _ _ _ Hs Hw Ho) as [H3 _]. auto.
Qed.

Lemma result_dimensions_witness :
  exists p o,
    decompose (mkVector [Dec.of_Z 1; Dec.of_Z 2] 2)
              (AVec (mkVector [Dec.of_Z 3; Dec.of_Z 4; Dec.of_Z 5] 3)) = Ok (p, o)
    /\ dimension p = 3 /\ dimension o = 2.
Proof.
  assert (W2 : wf (mkVector [Dec.of_Z 1; Dec.of_Z 2] 2))
    by (split; [reflexivity | discriminate]).
  assert (W3 : wf (mkVector [Dec.of_Z 3; Dec.of_Z 4; Dec.of_Z 5] 3))
    by (split; [reflexivity | discriminate]).
  destruct (decompose (mkVector [Dec.of_Z 1; Dec.of_Z 2] 2)
              (AVec (mkVector [Dec.of_Z 3; Dec.of_Z 4; Dec.of_Z 5] 3)))
    as [[p o] | e] eqn:E.
  - exists p, o. split; [reflexivity |].
    destruct (proj2 (proj2 (proj2 (proj2 (proj2 (proj2
                (result_dimensions _ _ W2 W3)))))) p o E) as (H1 & H2 & _).
    split; assumption.
  - exfalso. revert E. vm_compute. discriminate.
Defined.

(** ** Results of the arithmetic are canonical *)

Lemma fix_fin_canonical (s : bool) (c : N) (e : Z) (r : Dec.t) :
  Dec.fix_fin s c e = Ok r -> canonical r.
Proof.
  intros H. split; [exact (fix_fin_rounded _ _ _ _ H) |].
  apply fix_fin_not_nan in H. destruct r; try discriminate; reflexivity.
Qed.

Lemma nan_free_canonical (r : Dec.t) :
  rounded r -> Dec.is_nan r = false -> canonical r.
Proof. intros Hr Hn. split; [exact Hr |]. destruct r; try discriminate; reflexivity. Qed.

Lemma is_snan_result (r : Dec.t) (H : rounded r) :
  (forall s, r <> Dec.NaN s true) -> canonical r.
Proof.
  intros Hn. split; [exact H |].
  destruct r as [| | s [|]]; try reflexivity. exfalso. exact (Hn s eq_refl).
Qed.

Lemma add_canonical (a b r : Dec.t) : Dec.add a b = Ok r -> canonical r.
Proof.
  intros H. apply is_snan_result; [exact (add_rounded _ _ _ H) |].
  intros s ->. revert H.
  destruct a as [s1 c1 e1 | s1 | s1 [|]], b as [s2 c2 e2 | s2 | s2 [|]];
    unfold Dec.add; cbn [Dec.check_nans bind]; try discriminate;
    repeat match goal with
           | |- context [if ?c then _ else _] => destruct c
           end; try discriminate;
    intros H; apply fix_fin_not_nan in H; discriminate.
Qed.

Lemma sub_canonical (a b r : Dec.t) : Dec.sub a b = Ok r -> canonical r.
Proof.
  unfold Dec.sub. intros H.
  destruct (Dec.check_nans a b) as [[n |] |] eqn:E; cbn [bind] in H.
  - injection H as <-.
    destruct a as [s1 c1 e1 | s1 | s1 [|]], b as [s2 c2 e2 | s2 | s2 [|]];
      cbn in E; try discriminate; injection E as <-; split; cbn; auto.
  - exact (add_canonical _ _ _ H).
  - discriminate.
Qed.

Lemma mul_canonical (a b r : Dec.t) : Dec.mul a b = Ok r -> canonical r.
Proof.
  intros H. apply is_snan_result; [exact (mul_rounded _ _ _ H) |].
  intros s ->. revert H.
  destruct a as [s1 c1 e1 | s1 | s1 [|]], b as [s2 c2 e2 | s2 | s2 [|]];
    unfold Dec.mul; cbn [Dec.check_nans bind]; try discriminate;
    repeat match goal with
           | |- context [if ?c then _ else _] => destruct c
           end; try discriminate;
    intros H; apply fix_fin_not_nan in H; discriminate.
Qed.

Lemma neg_canonical (a r : Dec.t) : Dec.neg a = Ok r -> canonical r.
Proof.
  destruct a as [s c e | s | s [|]]; cbn [Dec.neg]; try discriminate.
  - destruct (c =? 0)%N; apply fix_fin_canonical.
  - intros [= <-]. split; cbn; auto.
  - intros [= <-]. split; cbn; auto.
Qed.

Lemma mapM_Forall {A B : Type} (f : A -> result B) (P : B -> Prop) :
  (forall x r, f x = Ok r -> P r) ->
  forall l l', mapM f l = Ok l' -> Forall P l'.
Proof.
  intros Hf. induction l as [| x t IH]; intros l' H; cbn [mapM] in H.
  - injection H as <-. constructor.
  - apply bind_ok_inv in H. destruct H as (y & Hy & H).
    apply bind_ok_inv in H. destruct H as (ys & Hys & H). injection H as <-.
    constructor; [exact (Hf _ _ Hy) | exact (IH _ Hys)].
Qed.

Lemma add_result_canonical (self : Vector) (x : pyval) (r : Vector) :
  __add__ self x = Ok r -> Forall canonical (coordinates r).
Proof.
  unfold __add__. destruct (as_Vector x) as [w |]; [| discriminate]. intros H.
  apply bind_ok_inv in H. destruct H as (cs & Hcs & H).
  apply Vector_of_inv in H. destruct H as [_ ->]. cbn [coordinates].
  refine (mapM_Forall _ canonical _ _ _ Hcs).
  intros [i a] d Hd. apply bind_ok_inv in Hd. destruct Hd as (y & _ & Hd).
  exact (add_canonical _ _ _ Hd).
Qed.

Lemma sub_result_canonical (self : Vector) (x : pyval) (r : Vector) :
  __sub__ self x = Ok r -> Forall canonical (coordinates r).
Proof.
  unfold __sub__. destruct (as_Vector x) as [w |]; [| discriminate]. intros H.
  apply bind_ok_inv in H. destruct H as (cs & Hcs & H).
  apply Vector_of_inv in H. destruct H as [_ ->]. cbn [coordinates].
  refine (mapM_Forall _ canonical _ _ _ Hcs).
  intros [i a] d Hd. apply bind_ok_inv in Hd. destruct Hd as (y & _ & Hd).
  exact (sub_canonical _ _ _ Hd).
Qed.

Lemma cross_result_canonical (self : Vector) (x : pyval) (r : Vector) :
  cross self x = Ok r -> Forall canonical (coordinates r).
Proof.
  unfold cross. destruct (as_Vector x) as [w |]; [| discriminate].
  destruct (negb _); [discriminate |].
  destruct (coordinates self) as [| x1 [| y1 [| z1 [| ? ?]]]]; try discriminate;
    destruct (coordinates w) as [| x2 [| y2 [| z2 [| ? ?]]]]; try discriminate.
  intros H.
  apply bind_ok_inv in H. destruct H as (a1 & _ & H).
  apply bind_ok_inv in H. destruct H as (b1 & _ & H).
  apply bind_ok_inv in H. destruct H as (cx & Hx & H).
  apply bind_ok_inv in H. destruct H as (a2 & _ & H).
  apply bind_ok_inv in H. destruct H as (b2 & _ & H).
  apply bind_ok_inv in H. destruct H as (c2 & _ & H).
  apply bind_ok_inv in H. destruct H as (cy & Hy & H).
  apply bind_ok_inv in H. destruct H as (a3 & _ & H).
  apply bind_ok_inv in H. destruct H as (b3 & _ & H).
  apply bind_ok_inv in H. destruct H as (cz & Hz & H).
  apply Vector_of_inv in H. destruct H as [_ ->]. cbn [coordinates].
  repeat constructor.
  - exact (proj1 (sub_canonical _ _ _ Hx)).
  - exact (proj2 (sub_canonical _ _ _ Hx)).
  - exact (proj1 (neg_canonical _ _ Hy)).
  - exact (proj2 (neg_canonical _ _ Hy)).
  - exact (proj1 (sub_canonical _ _ _ Hz)).
  - exact (proj2 (sub_canonical _ _ _ Hz)).
Qed.

Lemma mul_result_canonical (self : Vector) (x : pyval) (r : Vector) :
  __mul__ self x = Ok r -> Forall canonical (coordinates r).
Proof.
  unfold __mul__. destruct (is_number x) eqn:En.
  - intros H. apply bind_ok_inv in H. destruct H as (cs & Hcs & H).
    apply Vector_of_inv in H. destruct H as [_ ->]. cbn [coordinates].
    refine (mapM_Forall _ canonical _ _ _ Hcs).
    intros a d Hd. unfold mul_operand in Hd.
    destruct x as [[| | | | |k|] | |]; try discriminate Hd;
      exact (mul_canonical _ _ _ Hd).
  - destruct (as_Vector x); [apply cross_result_canonical | discriminate].
Qed.

(** ** Multiplication by a scalar *)

Lemma Dec_mul_one (d : Dec.t) : canonical d -> Dec.mul d (Dec.of_Z 1) = Ok d.
Proof.
  intros [Hr Hs]. destruct d as [s c e | s | s [|]]; try discriminate Hs.
  - unfold Dec.mul, Dec.of_Z. cbn [Dec.check_nans bind Z.ltb Z.compare Z.abs Z.to_N].
    change (N.pos 1) with 1%N.
    rewrite xorb_false_r, N.mul_1_r, Z.add_0_r. exact (Hr s).
  - cbn. rewrite xorb_false_r. reflexivity.
  - reflexivity.
Qed.

Lemma mapM_mul_one (k : pyval) (l : list Dec.t) :
  (forall x, mul_operand x k = Dec.mul x (Dec.of_Z 1)) ->
  Forall canonical l -> mapM (fun x => mul_operand x k) l = Ok l.
Proof.
  intros Hk. induction 1 as [| d t Hd _ IH]; cbn [mapM]; [reflexivity |].
  rewrite Hk, (Dec_mul_one d Hd), IH. reflexivity.
Qed.

Lemma scale_one (v : Vector) (k : pyval) :
  is_number k = true ->
  (forall x, mul_operand x k = Dec.mul x (Dec.of_Z 1)) ->
  wf v -> Forall canonical (coordinates v) -> __mul__ v k = Ok v.
Proof.
  intros Hn Hk [Hd Hne] Hc. unfold __mul__. rewrite Hn.
  rewrite (mapM_mul_one k _ Hk Hc). cbn [bind].
  rewrite (Vector_of_ok _ Hne). destruct v as [cs d]. cbn in *. subst d. reflexivity.
Qed.

(** X14.  Multiplying by one gives back the same vector when
    the coordinates are already rounded to the context and hold no
    signalling NaN, which is the case of every vector returned by
    [__add__], [__sub__], [__mul__] and [cross]; for a vector that the
    constructor built from a number of more than 30 digits the product
    is rounded and differs. *)
Theorem scale_by_one_identity :
  (forall v, wf v -> Forall canonical (coordinates v) ->
     __mul__ v (AInt 1) = Ok v /\ __mul__ v (ABool true) = Ok v
     /\ __mul__ v (ADec (Dec.of_Z 1)) = Ok v)
  /\ (forall self x r, __add__ self x = Ok r -> __mul__ r (AInt 1) = Ok r)
  /\ (forall self x r, __sub__ self x = Ok r -> __mul__ r (AInt 1) = Ok r)
  /\ (forall self x r, __mul__ self x = Ok r -> __mul__ r (AInt 1) = Ok r)
  /\ (forall self x r, cross self x = Ok r -> __mul__ r (AInt 1) = Ok r)
  /\ (exists v, vec [10 ^ 30 + 1] = Ok v /\ __mul__ v (AInt 1) <> Ok v).
Proof.
  assert (H1 : forall v, wf v -> Forall canonical (coordinates v) ->
                 __mul__ v (AInt 1) = Ok v)
    by (intros v Hv Hc; apply scale_one; auto).
  repeat apply conj.
  - intros v Hv Hc. repeat split; apply scale_one; auto.
  - intros self x r H. apply H1; [exact (add_wf _ _ _ H) |].
    exact (add_result_canonical _ _ _ H).
  - intros self x r H. apply H1; [exact (sub_wf _ _ _ H) |].
    exact (sub_result_canonical _ _ _ H).
  - intros self x r H. apply H1; [exact (mul_wf _ _ _ H) |].
    exact (mul_result_canonical _ _ _ H).
  - intros self x r H. apply H1; [exact (cross_wf _ _ _ H) |].
    exact (cross_result_canonical _ _ _ H).
  - eexists. split; [vm_compute; reflexivity |]. vm_compute. discriminate.
Qed.

Lemma scale_by_one_identity_witness :
  __mul__ (mkVector [Dec.Fin false 3 (-1); Dec.Inf true; Dec.NaN false false] 3)
          (AInt 1)
  = Ok (mkVector [Dec.Fin false 3 (-1); Dec.Inf true; Dec.NaN false false] 3).
Proof.
  apply (proj1 scale_by_one_identity).
  - split; [reflexivity | discriminate].
  - repeat constructor.
Defined.

(** ** Zero vectors *)

Lemma mapM_sq_zero (l : list Dec.t) :
  Forall (fun d => Dec.is_zero d = true) l ->
  mapM Dec.sq l = Ok (map (fun _ => Dec.of_Z 0) l).
Proof.
  induction 1 as [| d t Hd _ IH]; cbn [mapM map]; [reflexivity |].
  destruct d as [s c e | |]; try discriminate Hd. cbn in Hd.
  cbn [Dec.sq]. rewrite Hd, IH. reflexivity.
Qed.

Lemma sum_from_zeros {A : Type} (l : list A) :
  sum_from (Dec.of_Z 0) (map (fun _ => Dec.of_Z 0) l) = Ok (Dec.of_Z 0).
Proof.
  induction l as [| x t IH]; cbn [map sum_from]; [reflexivity |].
  replace (Dec.add (Dec.of_Z 0) (Dec.of_Z 0)) with (Ok (Dec.of_Z 0))
    by (vm_compute; reflexivity).
  exact IH.
Qed.

Lemma sum_zeros {A : Type} (l : list A) :
  sum (map (fun _ => Dec.of_Z 0) l) = Ok (Dec.of_Z 0).
Proof.
  destruct l as [| x t]; cbn [map sum]; [reflexivity |].
  replace (Dec.add (Dec.of_Z 0) (Dec.of_Z 0)) with (Ok (Dec.of_Z 0))
    by (vm_compute; reflexivity).
  apply sum_from_zeros.
Qed.

Lemma mag_zero (z : Vector) : zero_vector z -> mag z = Ok (Dec.of_Z 0).
Proof.
  intros Hz. unfold mag. rewrite (mapM_sq_zero _ Hz). cbn [bind].
  rewrite sum_zeros. vm_compute. reflexivity.
Qed.

Lemma eq_zero_zero (s : bool) (e : Z) :
  Dec.eq (Dec.Fin s 0 e) (Dec.of_Z 0) = Ok true.
Proof.
  unfold Dec.eq, Dec.of_Z. cbn [Dec.is_snan Dec.is_nan orb Dec.cmp].
  unfold Dec.scaled. change (Z.of_N 0) with 0. cbn [Z.abs Z.to_N].
  change (Z.of_N 0) with 0. rewrite !Z.mul_0_r, !Z.mul_0_l. reflexivity.
Qed.

Lemma mul_zero_l (s : bool) (c : N) (e : Z) :
  exists s' e', Dec.mul (Dec.of_Z 0) (Dec.Fin s c e) = Ok (Dec.Fin s' 0 e').
Proof.
  unfold Dec.mul, Dec.of_Z. cbn [Dec.check_nans bind Z.ltb Z.compare Z.abs Z.to_N].
  rewrite N.mul_0_l, fix_fin_of_zero. eauto.
Qed.

Lemma mul_zero_r (s : bool) (c : N) (e : Z) :
  exists s' e', Dec.mul (Dec.Fin s c e) (Dec.of_Z 0) = Ok (Dec.Fin s' 0 e').
Proof.
  unfold Dec.mul, Dec.of_Z. cbn [Dec.check_nans bind Z.ltb Z.compare Z.abs Z.to_N].
  rewrite N.mul_0_r, fix_fin_of_zero. eauto.
Qed.

Section ZeroVectors.

Variable acos : Flt.t -> Flt.t.

Lemma theta_zero_left (z w : Vector) (m : Dec.t) (deg : bool) :
  zero_vector z -> mag w = Ok m -> is_finite m = true ->
  theta acos z (AVec w) deg = Raise ZeroMagnitudeError.
Proof.
  intros Hz Hm Hf. unfold theta. cbn [as_Vector].
  rewrite (mag_zero _ Hz), Hm. cbn [bind].
  destruct m as [s c e | |]; try discriminate Hf.
  destruct (mul_zero_l s c e) as (s' & e' & ->). cbn [bind].
  rewrite eq_zero_zero. reflexivity.
Qed.

Lemma theta_zero_right (z w : Vector) (m : Dec.t) (deg : bool) :
  zero_vector z -> mag w = Ok m -> is_finite m = true ->
  theta acos w (AVec z) deg = Raise ZeroMagnitudeError.
Proof.
  intros Hz Hm Hf. unfold theta. cbn [as_Vector].
  rewrite (mag_zero _ Hz), Hm. cbn [bind].
  destruct m as [s c e | |]; try discriminate Hf.
  destruct (mul_zero_r s c e) as (s' & e' & ->). cbn [bind].
  rewrite eq_zero_zero. reflexivity.
Qed.

Lemma is_zero_of_zero (z : Vector) :
  zero_vector z -> is_zero z Flt.tol_default = Ok true.
Proof.
  intros Hz. unfold is_zero. rewrite (mag_zero _ Hz). vm_compute. reflexivity.
Qed.

(** X16.  A vector whose coordinates are all zero has magnitude
    exactly 0: [is_zero] holds, [norm] and a projection on it fail with
    [ZeroVectorError], it is parallel to every vector in either order,
    and the angle with a vector of finite magnitude fails with
    [ZeroMagnitudeError] in either order. *)
Theorem zero_vector_behaviour (z : Vector) :
  zero_vector z ->
  mag z = Ok (Dec.of_Z 0)
  /\ is_zero z Flt.tol_default = Ok true
  /\ norm z = Raise ZeroVectorError
  /\ (forall self, proj_on self (AVec z) = Raise ZeroVectorError)
  /\ (forall w, is_parallel_to acos z (AVec w) = Ok true)
  /\ (forall w b, is_zero w Flt.tol_default = Ok b ->
        is_parallel_to acos w (AVec z) = Ok true)
  /\ (forall w m deg, mag w = Ok m -> is_finite m = true ->
        theta acos z (AVec w) deg = Raise ZeroMagnitudeError
        /\ theta acos w (AVec z) deg = Raise ZeroMagnitudeError).
Proof.
  intros Hz.
  assert (Hn : norm z = Raise ZeroVectorError).
  { apply (norm_of_zero z (Dec.of_Z 0)); [exact (mag_zero _ Hz) | reflexivity]. }
  repeat apply conj.
  - exact (mag_zero _ Hz).
  - exact (is_zero_of_zero _ Hz).
  - exact Hn.
  - intros self. unfold proj_on. cbn [as_Vector]. rewrite Hn. reflexivity.
  - intros w. unfold is_parallel_to. cbn [as_Vector].
    rewrite (is_zero_of_zero _ Hz). reflexivity.
  - intros w b Hb. unfold is_parallel_to. cbn [as_Vector].
    rewrite Hb. cbn [bind]. destruct b; [reflexivity |].
    rewrite (is_zero_of_zero _ Hz). reflexivity.
  - intros w m deg Hm Hf. split.
    + exact (theta_zero_left _ _ _ _ Hz Hm Hf).
    + exact (theta_zero_right _ _ _ _ Hz Hm Hf).
Qed.

End ZeroVectors.

Lemma zero_vector_behaviour_witness :
  norm (mkVector [Dec.Fin true 0 5; Dec.Fin false 0 (-3)] 2) = Raise ZeroVectorError.
Proof.
  apply (zero_vector_behaviour acos_sample).
  repeat constructor.
Defined.

(** ** Differences and products that vanish *)

Lemma sub_self (d : Dec.t) :
  is_finite d = true ->
  exists e', Dec.sub d d = Ok (Dec.Fin false 0 e').
Proof.
  destruct d as [s c e | |]; try discriminate. intros _.
  unfold Dec.sub. cbn [Dec.check_nans bind Dec.copy_negate]. unfold Dec.add.
  cbn [Dec.check_nans bind].
  destruct (c =? 0)%N eqn:Ec; cbn [andb].
  - rewrite fix_fin_of_zero. rewrite andb_negb_r. eauto.
  - rewrite scaled_negb, Z.add_opp_diag_r. cbn [Z.eqb].
    rewrite fix_fin_of_zero. eauto.
Qed.

Lemma zip_sub_self (l : list Dec.t) :
  Forall (fun d => is_finite d = true) l ->
  exists zs, zip_with Dec.sub l l = Ok zs
             /\ Forall (fun d => Dec.is_zero d = true) zs
             /\ List.length zs = List.length l.
Proof.
  unfold zip_with. induction 1 as [| d t Hd _ IH]; cbn [combine mapM].
  - exists []. repeat split. constructor.
  - destruct (sub_self d Hd) as (e' & ->). destruct IH as (zs & -> & Hz & Hl).
    cbn [bind]. eexists. split; [reflexivity |]. split.
    + constructor; [reflexivity | exact Hz].
    + cbn [List.length]. rewrite Hl. reflexivity.
Qed.

Lemma mapM_mul_zero (k : pyval) (l : list Dec.t) :
  (forall x, mul_operand x k = Dec.mul x (Dec.of_Z 0)) ->
  Forall (fun d => is_finite d = true) l ->
  exists zs, mapM (fun x => mul_operand x k) l = Ok zs
             /\ Forall (fun d => Dec.is_zero d = true) zs.
Proof.
  intros Hk. induction 1 as [| d t Hd _ IH]; cbn [mapM].
  - exists []. split; [reflexivity | constructor].
  - destruct d as [s c e | |]; try discriminate Hd.
    rewrite Hk. destruct (mul_zero_r s c e) as (s' & e' & ->).
    destruct IH as (zs & -> & Hz). cbn [bind].
    eexists. split; [reflexivity |]. constructor; [reflexivity | exact Hz].
Qed.

(** X17.  For a vector with finite coordinates, [v - v] and
    [v * 0] succeed and are zero vectors of the dimension of [v], for
    which [is_zero] holds. *)
Theorem difference_with_itself_is_zero (v : Vector) :
  wf v -> finite_vector v ->
  (exists z, __sub__ v (AVec v) = Ok z /\ zero_vector z
             /\ dimension z = dimension v
             /\ is_zero z Flt.tol_default = Ok true)
  /\ (exists z, __mul__ v (AInt 0) = Ok z /\ zero_vector z
                /\ dimension z = dimension v
                /\ is_zero z Flt.tol_default = Ok true).
Proof.
  intros Hv Hf. split.
  - destruct (zip_sub_self _ Hf) as (zs & Hzs & Hz & Hl).
    assert (Hs : __sub__ v (AVec v)
                 = Ok (mkVector zs (Z.of_nat (List.length zs)))).
    { rewrite sub_indexed, indexed_long by reflexivity. rewrite Hzs. cbn [bind].
      apply Vector_of_ok. destruct Hv as [_ Hne]. intros ->.
      destruct (coordinates v); [contradiction | discriminate Hl]. }
    eexists. split; [exact Hs |]. split; [exact Hz |]. split.
    + cbn [dimension]. rewrite Hl. symmetry. exact (proj1 Hv).
    + apply is_zero_of_zero. exact Hz.
  - destruct (mapM_mul_zero (AInt 0) _ (fun x => eq_refl) Hf) as (zs & Hzs & Hz).
    pose proof (mapM_length _ _ _ Hzs) as Hl.
    assert (Hs : __mul__ v (AInt 0)
                 = Ok (mkVector zs (Z.of_nat (List.length zs)))).
    { unfold __mul__. cbn [is_number]. rewrite Hzs. cbn [bind].
      apply Vector_of_ok. destruct Hv as [_ Hne]. intros ->.
      destruct (coordinates v); [contradiction | discriminate Hl]. }
    eexists. split; [exact Hs |]. split; [exact Hz |]. split.
    + cbn [dimension]. rewrite Hl. symmetry. exact (proj1 Hv).
    + apply is_zero_of_zero. exact Hz.
Qed.

Lemma difference_with_itself_is_zero_witness :
  exists z, __sub__ (mkVector [Dec.Fin false 15 (-1); Dec.Fin true 7 3] 2)
                    (AVec (mkVector [Dec.Fin false 15 (-1); Dec.Fin true 7 3] 2))
            = Ok z
            /\ zero_vector z /\ dimension z = 2
            /\ is_zero z Flt.tol_default = Ok true.
Proof.
  apply (difference_with_itself_is_zero
           (mkVector [Dec.Fin false 15 (-1); Dec.Fin true 7 3] 2)).
  - split; [reflexivity | discriminate].
  - repeat constructor.
Defined.

(** ** Equality of vectors *)

Lemma Dec_cmp_antisym (a b : Dec.t) : Dec.cmp b a = CompOpp (Dec.cmp a b).
Proof.
  destruct a as [s1 c1 e1 | [|] | s1 g1], b as [s2 c2 e2 | [|] | s2 g2];
    try reflexivity.
  cbn [Dec.cmp]. rewrite (Z.min_comm e2 e1). apply Z.compare_antisym.
Qed.

Lemma Dec_eq_sym (a b : Dec.t) : Dec.eq a b = Dec.eq b a.
Proof.
  unfold Dec.eq. rewrite (orb_comm (Dec.is_snan a)), (orb_comm (Dec.is_nan a)).
  rewrite (Dec_cmp_antisym a b). destruct (Dec.cmp a b); reflexivity.
Qed.

Lemma tuple_eq_sym (l1 : list Dec.t) :
  forall l2, tuple_eq l1 l2 = tuple_eq l2 l1.
Proof.
  induction l1 as [| x t IH]; intros [| y u]; cbn [tuple_eq]; try reflexivity.
  rewrite (Dec_eq_sym x y), (IH u). reflexivity.
Qed.

Lemma scaled_rebase (s : bool) (c : N) (e e0 e1 : Z) :
  e1 <= e0 <= e ->
  Dec.scaled s c e e1 = Dec.scaled s c e e0 * 10 ^ (e0 - e1).
Proof.
  intros H. unfold Dec.scaled.
  replace (e - e1) with ((e - e0) + (e0 - e1)) by lia.
  rewrite Z.pow_add_r by lia. ring.
Qed.

Lemma cmp_rebase (s1 s2 : bool) (c1 c2 : N) (e1 e2 e0 : Z) :
  e0 <= e1 -> e0 <= e2 ->
  Dec.cmp (Dec.Fin s1 c1 e1) (Dec.Fin s2 c2 e2)
  = (Dec.scaled s1 c1 e1 e0 ?= Dec.scaled s2 c2 e2 e0).
Proof.
  intros H1 H2. cbn [Dec.cmp].
  rewrite (scaled_rebase s1 c1 e1 (Z.min e1 e2) e0) by lia.
  rewrite (scaled_rebase s2 c2 e2 (Z.min e1 e2) e0) by lia.
  assert (Hp : 0 < 10 ^ (Z.min e1 e2 - e0)) by (apply Z.pow_pos_nonneg; lia).
  remember (10 ^ (Z.min e1 e2 - e0)) as p eqn:Ep. clear Ep.
  destruct (Z.compare_spec (Dec.scaled s1 c1 e1 (Z.min e1 e2))
                           (Dec.scaled s2 c2 e2 (Z.min e1 e2)));
    destruct (Z.compare_spec (Dec.scaled s1 c1 e1 (Z.min e1 e2) * p)
                             (Dec.scaled s2 c2 e2 (Z.min e1 e2) * p));
    try reflexivity; exfalso; nia.
Qed.

Lemma eq_refl_num (a : Dec.t) : Dec.is_nan a = false -> Dec.eq a a = Ok true.
Proof.
  destruct a as [s c e | [|] |]; try discriminate; intros _; try reflexivity.
  unfold Dec.eq. cbn [Dec.is_snan Dec.is_nan orb Dec.cmp].
  rewrite Z.compare_refl. reflexivity.
Qed.

Lemma eq_true_not_nan (a b : Dec.t) :
  Dec.eq a b = Ok true -> Dec.is_nan a = false /\ Dec.is_nan b = false.
Proof.
  unfold Dec.eq. destruct (Dec.is_snan a || Dec.is_snan b); [discriminate |].
  destruct (Dec.is_nan a || Dec.is_nan b) eqn:E; [discriminate |].
  intros _. apply orb_false_elim in E. exact E.
Qed.

Lemma eq_trans_num (a b c : Dec.t) :
  Dec.eq a b = Ok true -> Dec.eq b c = Ok true -> Dec.eq a c = Ok true.
Proof.
  intros Hab Hbc.
  destruct (eq_true_not_nan _ _ Hab) as [Ha Hb].
  destruct (eq_true_not_nan _ _ Hbc) as [_ Hc].
  revert Hab Hbc. unfold Dec.eq.
  destruct a as [s1 c1 e1 | s1 |]; try discriminate Ha;
    destruct b as [s2 c2 e2 | s2 |]; try discriminate Hb;
    destruct c as [s3 c3 e3 | s3 |]; try discriminate Hc;
    cbn [Dec.is_snan Dec.is_nan orb];
    try (destruct s1, s2, s3; cbn; congruence);
    try (destruct s1, s2; cbn; congruence);
    try (destruct s2, s3; cbn; congruence);
    try (destruct s1, s3; cbn; congruence).
  set (e0 := Z.min e1 (Z.min e2 e3)).
  rewrite (cmp_rebase s1 s2 c1 c2 e1 e2 e0), (cmp_rebase s2 s3 c2 c3 e2 e3 e0),
    (cmp_rebase s1 s3 c1 c3 e1 e3 e0) by (subst e0; lia).
  destruct (Z.compare_spec (Dec.scaled s1 c1 e1 e0) (Dec.scaled s2 c2 e2 e0))
    as [E1 | |]; try discriminate.
  destruct (Z.compare_spec (Dec.scaled s2 c2 e2 e0) (Dec.scaled s3 c3 e3 e0))
    as [E2 | |]; try discriminate.
  rewrite E1, E2, Z.compare_refl. reflexivity.
Qed.

Lemma tuple_eq_refl (l : list Dec.t) :
  Forall (fun d => Dec.is_nan d = false) l -> tuple_eq l l = Ok true.
Proof.
  induction 1 as [| d t Hd _ IH]; cbn [tuple_eq]; [reflexivity |].
  rewrite (eq_refl_num d Hd). exact IH.
Qed.

Lemma tuple_eq_trans (l1 : list Dec.t) :
  forall l2 l3, tuple_eq l1 l2 = Ok true -> tuple_eq l2 l3 = Ok true ->
                tuple_eq l1 l3 = Ok true.
Proof.
  induction l1 as [| x t IH]; intros [| y u] [| z r]; cbn [tuple_eq];
    try discriminate; try reflexivity.
  intros H1 H2.
  destruct (Dec.eq x y) as [[|] |] eqn:Exy; try discriminate H1.
  destruct (Dec.eq y z) as [[|] |] eqn:Eyz; try discriminate H2.
  cbn [bind] in *. rewrite (eq_trans_num _ _ _ Exy Eyz). cbn [bind].
  exact (IH _ _ H1 H2).
Qed.

Lemma tuple_eq_true_length (l1 : list Dec.t) :
  forall l2, tuple_eq l1 l2 = Ok true ->
             List.length l1 = List.length l2
             /\ Forall (fun d => Dec.is_nan d = false) l1.
Proof.
  induction l1 as [| x t IH]; intros [| y u]; cbn [tuple_eq]; try discriminate.
  - intros _. split; [reflexivity | constructor].
  - intros H. destruct (Dec.eq x y) as [[|] |] eqn:Exy; try discriminate H.
    cbn [bind] in H. destruct (IH _ H) as [Hl Hn]. split.
    + cbn [List.length]. rewrite Hl. reflexivity.
    + constructor; [exact (proj1 (eq_true_not_nan _ _ Exy)) | exact Hn].
Qed.

(** X18.  [==] between vectors compares the coordinates as
    numbers: it is symmetric, failures included, reflexive on vectors
    without NaN coordinates, transitive, and true only for vectors with
    the same number of coordinates; an operand that is not a [Vector]
    fails with [AttributeError]. *)
Theorem eq_equivalence :
  (forall self v, as_Vector v = None -> __eq__ self v = Raise AttributeError)
  /\ (forall v w, __eq__ v (AVec w) = __eq__ w (AVec v))
  /\ (forall v, no_nan v -> __eq__ v (AVec v) = Ok true)
  /\ (forall u v w, __eq__ u (AVec v) = Ok true -> __eq__ v (AVec w) = Ok true ->
        __eq__ u (AVec w) = Ok true)
  /\ (forall v w, __eq__ v (AVec w) = Ok true ->
        List.length (coordinates v) = List.length (coordinates w)).
Proof.
  repeat apply conj.
  - intros self v Hv. unfold __eq__. rewrite Hv. reflexivity.
  - intros v w. unfold __eq__. cbn [as_Vector]. apply tuple_eq_sym.
  - intros v Hv. unfold __eq__. cbn [as_Vector]. exact (tuple_eq_refl _ Hv).
  - intros u v w. unfold __eq__. cbn [as_Vector]. apply tuple_eq_trans.
  - intros v w H. unfold __eq__ in H. cbn [as_Vector] in H.
    exact (proj1 (tuple_eq_true_length _ _ H)).
Qed.

Lemma eq_equivalence_witness :
  __eq__ (mkVector [Dec.Fin false 10 (-1)] 1) (AVec (mkVector [Dec.Fin false 100 (-2)] 1))
  = Ok true.
Proof.
  apply (proj1 (proj2 (proj2 (proj2 eq_equivalence)))
           (mkVector [Dec.Fin false 10 (-1)] 1) (mkVector [Dec.of_Z 1] 1)
           (mkVector [Dec.Fin false 100 (-2)] 1)); reflexivity.
Defined.

(** ** Symmetry of the areas *)

Lemma sq_negated (r r' : Dec.t) : negated r r' -> Dec.sq r = Dec.sq r'.
Proof.
  destruct r as [s c e | s |], r' as [s' c' e' | s' |]; cbn [negated];
    try contradiction.
  - intros (-> & -> & _). reflexivity.
  - intros _. reflexivity.
Qed.

Lemma neg_negated_sq (c c' : Dec.t) :
  rounded c -> negated c c' ->
  exists y y', Dec.neg c = Ok y /\ Dec.neg c' = Ok y' /\ Dec.sq y = Dec.sq y'.
Proof.
  destruct c as [s q e | s | ? ?], c' as [s' q' e' | s' | ? ?]; cbn [negated];
    try contradiction.
  - intros Hr (-> & -> & _).
    assert (Hr' : rounded (Dec.Fin s' q e)) by exact Hr.
    rewrite (neg_rounded_val _ _ _ Hr), (neg_rounded_val _ _ _ Hr').
    do 2 eexists. split; [reflexivity |]. split; reflexivity.
  - intros _ _. cbn. do 2 eexists. split; [reflexivity |]. split; reflexivity.
Qed.

Lemma cross_spec_swap_sq (x1 y1 z1 x2 y2 z2 x y z : Dec.t) :
  Forall (fun d => Dec.is_nan d = false) [x1; y1; z1] ->
  Forall (fun d => Dec.is_nan d = false) [x2; y2; z2] ->
  cross_spec x1 y1 z1 x2 y2 z2 = Ok [x; y; z] ->
  exists x' y' z',
    cross_spec x2 y2 z2 x1 y1 z1 = Ok [x'; y'; z']
    /\ Dec.sq x = Dec.sq x' /\ Dec.sq y = Dec.sq y' /\ Dec.sq z = Dec.sq z'.
Proof.
  intros Hv Hw H.
  inversion Hv as [| ? ? Nx1 Hv1]; subst. inversion Hv1 as [| ? ? Ny1 Hv2]; subst.
  inversion Hv2 as [| ? ? Nz1 _]; subst.
  inversion Hw as [| ? ? Nx2 Hw1]; subst. inversion Hw1 as [| ? ? Ny2 Hw2]; subst.
  inversion Hw2 as [| ? ? Nz2 _]; subst.
  unfold cross_spec in H.
  apply bind_ok_inv in H. destruct H as (a1 & Ha1 & H).
  apply bind_ok_inv in H. destruct H as (b1 & Hb1 & H).
  apply bind_ok_inv in H. destruct H as (x0 & Hx & H).
  apply bind_ok_inv in H. destruct H as (a2 & Ha2 & H).
  apply bind_ok_inv in H. destruct H as (b2 & Hb2 & H).
  apply bind_ok_inv in H. destruct H as (c & Hc & H).
  apply bind_ok_inv in H. destruct H as (y0 & Hy & H).
  apply bind_ok_inv in H. destruct H as (a3 & Ha3 & H).
  apply bind_ok_inv in H. destruct H as (b3 & Hb3 & H).
  apply bind_ok_inv in H. destruct H as (z0 & Hz & H).
  injection H as <- <- <-.
  destruct (sub_swapped _ _ _ (mul_not_nan _ _ _ Ny1 Nz2 Ha1)
              (mul_not_nan _ _ _ Ny2 Nz1 Hb1) Hx)
    as (x' & Hx' & Nx & _ & _ & _).
  destruct (sub_swapped _ _ _ (mul_not_nan _ _ _ Nx1 Nz2 Ha2)
              (mul_not_nan _ _ _ Nx2 Nz1 Hb2) Hc)
    as (c' & Hc' & Nc & Rc & _ & _).
  destruct (sub_swapped _ _ _ (mul_not_nan _ _ _ Nx1 Ny2 Ha3)
              (mul_not_nan _ _ _ Nx2 Ny1 Hb3) Hz)
    as (z' & Hz' & Nz & _ & _ & _).
  destruct (neg_negated_sq _ _ Rc Nc) as (y1' & y' & Hy1 & Hy' & Ey).
  rewrite Hy in Hy1. injection Hy1 as <-.
  exists x', y', z'. split.
  { unfold cross_spec. rewrite Hb1, Ha1. cbn [bind]. rewrite Hx'. cbn [bind].
    rewrite Hb2, Ha2. cbn [bind]. rewrite Hc'. cbn [bind]. rewrite Hy'. cbn [bind].
    rewrite Hb3, Ha3. cbn [bind]. rewrite Hz'. reflexivity. }
  split; [exact (sq_negated _ _ Nx) |].
  split; [exact Ey | exact (sq_negated _ _ Nz)].
Qed.

Lemma mag_same_squares (a b : Vector) :
  mapM Dec.sq (coordinates a) = mapM Dec.sq (coordinates b) -> mag a = mag b.
Proof. intros H. unfold mag. rewrite H. reflexivity. Qed.

Lemma area_swap (v w : Vector) (r : Dec.t) :
  no_nan v -> no_nan w ->
  area_of_parallelogram v (AVec w) = Ok r ->
  area_of_parallelogram w (AVec v) = Ok r.
Proof.
  intros Nv Nw. unfold area_of_parallelogram. cbn [as_Vector]. intros H.
  apply bind_ok_inv in H. destruct H as (a & Ha & Hm).
  destruct (cross_ok_coords _ _ _ Ha)
    as (x1 & y1 & z1 & x2 & y2 & z2 & Ev & Ew & Dv & Dw).
  rewrite (cross_three v w _ _ _ _ _ _ Ev Ew Dv Dw) in Ha.
  apply bind_ok_inv in Ha. destruct Ha as (cs & Hcs & Ha). injection Ha as <-.
  destruct (cross_spec_length _ _ _ _ _ _ _ Hcs) as (x & y & z & ->).
  unfold no_nan in Nv, Nw. rewrite Ev in Nv. rewrite Ew in Nw.
  destruct (cross_spec_swap_sq _ _ _ _ _ _ _ _ _ Nv Nw Hcs)
    as (x' & y' & z' & Hswap & Ex & Ey & Ez).
  rewrite (cross_three w v _ _ _ _ _ _ Ew Ev Dw Dv), Hswap. cbn [bind].
  rewrite <- Hm. apply mag_same_squares. cbn [coordinates mapM].
  rewrite Ex, Ey, Ez. reflexivity.
Qed.

(** X12.  The areas are symmetric: for vectors without NaN
    coordinates, when [area_of_parallelogram] or [area_of_triangle]
    succeeds in one order it returns the same number in the other,
    although the cross products differ in sign. *)
Theorem area_symmetric (v w : Vector) (r : Dec.t) :
  no_nan v -> no_nan w ->
  (area_of_parallelogram v (AVec w) = Ok r ->
   area_of_parallelogram w (AVec v) = Ok r)
  /\ (area_of_triangle v (AVec w) = Ok r ->
      area_of_triangle w (AVec v) = Ok r).
Proof.
  intros Nv Nw. split; [exact (area_swap v w r Nv Nw) |].
  unfold area_of_triangle. cbn [as_Vector]. intros H.
  apply bind_ok_inv in H. destruct H as (a & Ha & H).
  rewrite (area_swap v w a Nv Nw Ha). exact H.
Qed.

Lemma area_symmetric_witness :
  area_of_triangle (mkVector [Dec.of_Z 0; Dec.of_Z 4; Dec.of_Z 0] 3)
                   (AVec (mkVector [Dec.of_Z 3; Dec.of_Z 0; Dec.of_Z 0] 3))
  = Ok (Dec.of_Z 6).
Proof.
  apply (area_symmetric (mkVector [Dec.of_Z 3; Dec.of_Z 0; Dec.of_Z 0] 3)
                        (mkVector [Dec.of_Z 0; Dec.of_Z 4; Dec.of_Z 0] 3)).
  - repeat constructor.
  - repeat constructor.
  - vm_compute. reflexivity.
Defined.

(** ** Failures of the areas *)

Lemma cross_raise_inv (self w : Vector) (e : exn) :
  wf self -> wf w -> cross self (AVec w) = Raise e ->
  (e = UnsupportedDimensionError /\ ~ (dimension self = 3 /\ dimension w = 3))
  \/ (arith_exn e /\ dimension self = 3 /\ dimension w = 3).
Proof.
  intros Hs Hw H.
  destruct (Z.eq_dec (dimension self) 3) as [Ds | Ds];
    [destruct (Z.eq_dec (dimension w) 3) as [Dw | Dw] |].
  - right. destruct (wf_three _ Hs Ds) as (x1 & y1 & z1 & Es).
    destruct (wf_three _ Hw Dw) as (x2 & y2 & z2 & Ew).
    rewrite (cross_three _ _ _ _ _ _ _ _ Es Ew Ds Dw) in H.
    destruct (cross_spec x1 y1 z1 x2 y2 z2) as [cs | x] eqn:E; [discriminate H |].
    injection H as <-. split; [exact (cross_spec_exn _ _ _ _ _ _ _ E) | auto].
  - left. assert (N : ~ (dimension self = 3 /\ dimension w = 3)) by tauto.
    rewrite (cross_wrong_dimension _ _ N) in H. injection H as <-. auto.
  - left. assert (N : ~ (dimension self = 3 /\ dimension w = 3)) by tauto.
    rewrite (cross_wrong_dimension _ _ N) in H. injection H as <-. auto.
Qed.

Lemma div_two_nonneg (a r : Dec.t) :
  nonneg a -> Dec.div a (Dec.of_Z 2) = Ok r -> nonneg r.
Proof.
  destruct a as [s c e | s | s g]; cbn [nonneg]; intros ->.
  - unfold Dec.div, Dec.of_Z.
    cbn [Dec.check_nans bind Z.ltb Z.compare Z.abs Z.to_N xorb N.eqb Pos.eqb].
    change (N.pos 2 =? 0)%N with false. cbv iota.
    destruct (c =? 0)%N; [apply fix_fin_nonneg |].
    repeat match goal with
           | |- context [let '(_, _) := ?p in _] => destruct p
           end.
    apply fix_fin_nonneg.
  - cbn. intros [= <-]. reflexivity.
  - cbn. intros [= <-]. reflexivity.
Qed.

(** X13.  [area_of_parallelogram] and [area_of_triangle] fail
    with [UnsupportedDimensionError] exactly when the two dimensions are
    not both 3; with both dimensions 3 they fail only with a trapped
    signal of the decimal arithmetic; and an area they return is never
    negative. *)
Theorem area_failures_and_sign (self w : Vector) :
  wf self -> wf w ->
  (area_of_parallelogram self (AVec w) = Raise UnsupportedDimensionError
   <-> ~ (dimension self = 3 /\ dimension w = 3))
  /\ (area_of_triangle self (AVec w) = Raise UnsupportedDimensionError
      <-> ~ (dimension self = 3 /\ dimension w = 3))
  /\ (forall e, dimension self = 3 -> dimension w = 3 ->
        (area_of_parallelogram self (AVec w) = Raise e -> arith_exn e)
        /\ (area_of_triangle self (AVec w) = Raise e -> arith_exn e))
  /\ (forall r, area_of_parallelogram self (AVec w) = Ok r -> nonneg r)
  /\ (forall r, area_of_triangle self (AVec w) = Ok r -> nonneg r).
Proof.
  intros Hs Hw.
  assert (Hp : forall e, area_of_parallelogram self (AVec w) = Raise e ->
             (e = UnsupportedDimensionError
              /\ ~ (dimension self = 3 /\ dimension w = 3))
             \/ (arith_exn e /\ dimension self = 3 /\ dimension w = 3)).
  { intros e H. unfold area_of_parallelogram in H. cbn [as_Vector] in H.
    destruct (cross self (AVec w)) as [c | x] eqn:Ec; cbn [bind] in H.
    - right. split; [exact (mag_arith_exn _ _ H) |].
      exact (cross_ok_dims _ _ _ Ec).
    - injection H as <-. exact (cross_raise_inv _ _ _ Hs Hw Ec). }
  assert (Hbad : ~ (dimension self = 3 /\ dimension w = 3) ->
                 area_of_parallelogram self (AVec w)
                 = Raise UnsupportedDimensionError).
  { intros N. unfold area_of_parallelogram. cbn [as_Vector].
    rewrite (cross_wrong_dimension _ _ N). reflexivity. }
  assert (Ht : forall e, area_of_triangle self (AVec w) = Raise e ->
             (e = UnsupportedDimensionError
              /\ ~ (dimension self = 3 /\ dimension w = 3))
             \/ (arith_exn e /\ dimension self = 3 /\ dimension w = 3)).
  { intros e H. unfold area_of_triangle in H. cbn [as_Vector] in H.
    destruct (area_of_parallelogram self (AVec w)) as [a | x] eqn:Ea;
      cbn [bind] in H.
    - right. split; [exact (div_exn _ _ _ H) |]. clear Hp Hbad.
      unfold area_of_parallelogram in Ea. cbn [as_Vector] in Ea.
      apply bind_ok_inv in Ea. destruct Ea as (c & Ec & _).
      exact (cross_ok_dims _ _ _ Ec).
    - injection H as <-. exact (Hp _ eq_refl). }
  repeat apply conj.
  - intros H. destruct (Hp _ H) as [[_ N] | [A _]]; [exact N | contradiction A].
  - exact Hbad.
  - intros H. destruct (Ht _ H) as [[_ N] | [A _]]; [exact N | contradiction A].
  - intros N. unfold area_of_triangle. cbn [as_Vector]. rewrite (Hbad N). reflexivity.
  - intros e Ds Dw. split; intros H.
    + destruct (Hp _ H) as [[_ N] | [A _]]; [tauto | exact A].
    + destruct (Ht _ H) as [[_ N] | [A _]]; [tauto | exact A].
  - intros r H. unfold area_of_parallelogram in H. cbn [as_Vector] in H.
    apply bind_ok_inv in H. destruct H as (c & _ & H).
    exact (proj1 (mag_inv c) _ H).
  - intros r H. unfold area_of_triangle in H. cbn [as_Vector] in H.
    apply bind_ok_inv in H. destruct H as (a & Ha & H).
    unfold area_of_parallelogram in Ha. cbn [as_Vector] in Ha.
    apply bind_ok_inv in Ha. destruct Ha as (c & _ & Ha).
    exact (div_two_nonneg _ _ (proj1 (mag_inv c) _ Ha) H).
Qed.

Lemma area_failures_and_sign_witness :
  area_of_triangle (mkVector [Dec.of_Z 1; Dec.of_Z 2] 2)
                   (AVec (mkVector [Dec.of_Z 3; Dec.of_Z 0; Dec.of_Z 0] 3))
  = Raise UnsupportedDimensionError.
Proof.
  apply (area_failures_and_sign (mkVector [Dec.of_Z 1; Dec.of_Z 2] 2)
                                (mkVector [Dec.of_Z 3; Dec.of_Z 0; Dec.of_Z 0] 3)).
  - split; [reflexivity | discriminate].
  - split; [reflexivity | discriminate].
  - intros [H _]. discriminate H.
Defined.

(** ** Construction from a string *)

Lemma Decimal_digit (c : ascii) :
  Parse.is_digit c = true ->
  Decimal (AStr (String c EmptyString)) = Ok (digit_value c).
Proof.
  destruct c as [[] [] [] [] [] [] [] []]; vm_compute; intros H;
    try discriminate H; reflexivity.
Qed.

Lemma Decimal_not_digit (c : ascii) :
  Parse.is_digit c = false ->
  Decimal (AStr (String c EmptyString))
  = Raise (InvalidOperation "Invalid literal for Decimal").
Proof.
  destruct c as [[] [] [] [] [] [] [] []]; vm_compute; intros H;
    try discriminate H; reflexivity.
Qed.

Lemma mapM_digits (l : list ascii) :
  forallb Parse.is_digit l = true ->
  mapM Decimal (map (fun c => AStr (String c EmptyString)) l)
  = Ok (map digit_value l).
Proof.
  induction l as [| c t IH]; cbn [forallb map mapM]; [reflexivity |].
  intros H. apply andb_prop in H. destruct H as [Hc Ht].
  rewrite (Decimal_digit c Hc), (IH Ht). reflexivity.
Qed.

Lemma mapM_not_digits (l : list ascii) :
  forallb Parse.is_digit l = false ->
  mapM Decimal (map (fun c => AStr (String c EmptyString)) l)
  = Raise (InvalidOperation "Invalid literal for Decimal").
Proof.
  induction l as [| c t IH]; cbn [forallb map mapM]; [discriminate |].
  intros H. destruct (Parse.is_digit c) eqn:Hc.
  - rewrite (Decimal_digit c Hc). cbn [bind]. rewrite (IH H). reflexivity.
  - rewrite (Decimal_not_digit c Hc). reflexivity.
Qed.

Lemma string_truthy (s : string) : s <> EmptyString -> truthy (AStr s) = true.
Proof.
  intros H. cbn [truthy]. destruct (String.eqb_spec s EmptyString); [contradiction |].
  reflexivity.
Qed.

(** X19.  A string given to the constructor is iterated
    character by character: a non-empty string of decimal digits
    builds the vector of its digits, one coordinate each, and an ASCII
    string with any other character fails with [InvalidNumberError]. *)
Theorem string_input_is_split_into_characters (s : string) :
  s <> EmptyString ->
  (forallb Parse.is_digit (chars s) = true ->
   __init__ (AStr s)
   = Ok (mkVector (map digit_value (chars s)) (Z.of_nat (List.length (chars s)))))
  /\ (forallb is_ascii (chars s) = true ->
      forallb Parse.is_digit (chars s) = false ->
      __init__ (AStr s) = Raise InvalidNumberError).
Proof.
  intros Hs. unfold __init__. rewrite (string_truthy s Hs). cbn [negb].
  unfold len. cbn [iterate bind]. fold (chars s). split.
  - intros Hd. rewrite (mapM_digits _ Hd). cbn [catch bind].
    rewrite length_map. reflexivity.
  - intros _ Hd. rewrite (mapM_not_digits _ Hd). reflexivity.
Qed.

Lemma string_input_is_split_into_characters_witness :
  __init__ (AStr "120")
  = Ok (mkVector [Dec.of_Z 1; Dec.of_Z 2; Dec.of_Z 0] 3)
  /\ __init__ (AStr "1.5") = Raise InvalidNumberError.
Proof.
  split.
  - apply (string_input_is_split_into_characters "120");
      [discriminate | reflexivity].
  - apply (string_input_is_split_into_characters "1.5");
      [discriminate | reflexivity | reflexivity].
Defined.

(** ** Subtraction and the dot product with itself *)

Lemma zip_sub_swap (a : list Dec.t) :
  forall b cs,
    Forall (fun d => Dec.is_nan d = false) a ->
    Forall (fun d => Dec.is_nan d = false) b ->
    zip_with Dec.sub a b = Ok cs ->
    exists cs', zip_with Dec.sub b a = Ok cs' /\ Forall2 negated cs cs'.
Proof.
  unfold zip_with. induction a as [| x t IH]; intros b cs Ha Hb H.
  - cbn in H. injection H as <-. exists []. destruct b; split; constructor.
  - destruct b as [| y u].
    + cbn in H. injection H as <-. exists []. split; constructor.
    + cbn [combine mapM] in H |- *.
      inversion Ha as [| ? ? Nx Ht]; subst. inversion Hb as [| ? ? Ny Hu]; subst.
      apply bind_ok_inv in H. destruct H as (c & Hc & H).
      apply bind_ok_inv in H. destruct H as (r & Hr & H). injection H as <-.
      destruct (sub_swapped _ _ _ Nx Ny Hc) as (c' & Hc' & Nc & _).
      destruct (IH _ _ Ht Hu Hr) as (r' & Hr' & Nr).
      rewrite Hc', Hr'. cbn [bind]. eexists. split; [reflexivity |].
      constructor; assumption.
Qed.

(** X9.  Subtraction is anti-commutative on vectors of equal
    dimension without NaN coordinates: when [v - w] succeeds so does
    [w - v], with the same dimension, and each coordinate of the one is
    the coordinate of the other with the opposite sign (a zero may keep
    its sign). *)
Theorem sub_anticommutative (v w a : Vector) :
  wf v -> wf w -> dimension v = dimension w -> no_nan v -> no_nan w ->
  __sub__ v (AVec w) = Ok a ->
  exists b, __sub__ w (AVec v) = Ok b
            /\ Forall2 negated (coordinates a) (coordinates b)
            /\ dimension b = dimension a.
Proof.
  intros W1 W2 Hd N1 N2.
  pose proof (equal_dimension_lengths _ _ W1 W2 Hd) as Hl.
  rewrite !sub_indexed, !indexed_long by lia. intros H.
  apply bind_ok_inv in H. destruct H as (cs & Hcs & H).
  apply Vector_of_inv in H. destruct H as [Hne ->].
  destruct (zip_sub_swap _ _ _ N1 N2 Hcs) as (cs' & Hcs' & Hneg).
  rewrite Hcs'. cbn [bind].
  assert (Hlen : List.length cs' = List.length cs).
  { symmetry. clear - Hneg. induction Hneg; cbn; congruence. }
  assert (Hne' : cs' <> []).
  { intros ->. destruct cs; [contradiction | discriminate Hlen]. }
  rewrite (Vector_of_ok _ Hne'). eexists. split; [reflexivity |].
  cbn [coordinates dimension]. split; [exact Hneg | rewrite Hlen; reflexivity].
Qed.

Lemma sub_anticommutative_witness :
  exists b,
    __sub__ (mkVector [Dec.of_Z 1; Dec.of_Z 5] 2) (AVec (mkVector [Dec.of_Z 4; Dec.of_Z 5] 2))
    = Ok b
    /\ Forall2 negated [Dec.of_Z 3; Dec.of_Z 0] (coordinates b)
    /\ dimension b = 2.
Proof.
  apply (sub_anticommutative (mkVector [Dec.of_Z 4; Dec.of_Z 5] 2)
           (mkVector [Dec.of_Z 1; Dec.of_Z 5] 2)
           (mkVector [Dec.of_Z 3; Dec.of_Z 0] 2)).
  - split; [reflexivity | discriminate].
  - split; [reflexivity | discriminate].
  - reflexivity.
  - repeat constructor.
  - repeat constructor.
  - vm_compute. reflexivity.
Defined.

Lemma mul_self_nonneg (x : Dec.t) :
  (forall r, Dec.mul x x = Ok r -> nonneg r)
  /\ (forall e, Dec.mul x x = Raise e ->
        e = Overflow \/ e = InvalidOperation "sNaN").
Proof.
  destruct x as [s c e | s | s [|]]; unfold Dec.mul; cbn [Dec.check_nans bind].
  - rewrite xorb_nilpotent. split.
    + intros r. apply fix_fin_nonneg.
    + intros x H. left. exact (fix_fin_exn _ _ _ _ H).
  - rewrite xorb_nilpotent. split; [intros r [= <-]; reflexivity | discriminate].
  - split; [discriminate | intros x [= <-]; auto].
  - split; [intros r [= <-]; reflexivity | discriminate].
Qed.

Lemma zip_mul_self (l : list Dec.t) :
  (forall ps, zip_with Dec.mul l l = Ok ps -> Forall nonneg ps)
  /\ (forall e, zip_with Dec.mul l l = Raise e ->
        e = Overflow \/ e = InvalidOperation "sNaN").
Proof.
  unfold zip_with. induction l as [| x t [IH1 IH2]]; cbn [combine mapM].
  - split; [intros ps [= <-]; constructor | discriminate].
  - destruct (mul_self_nonneg x) as [Hx1 Hx2].
    destruct (Dec.mul x x) as [r | e0]; cbn [bind].
    + destruct (mapM _ (combine t t)) as [rs | e1]; cbn [bind].
      * split; [| discriminate]. intros ps [= <-].
        constructor; [exact (Hx1 _ eq_refl) | exact (IH1 _ eq_refl)].
      * split; [discriminate |]. intros e [= <-]. exact (IH2 _ eq_refl).
    + split; [discriminate |]. intros e [= <-]. exact (Hx2 _ eq_refl).
Qed.

(** X4.  The dot product of a vector with itself is never
    negative, and it fails only with [Overflow] or with
    [InvalidOperation] on a signalling NaN coordinate. *)
Theorem dot_with_itself_nonnegative (v : Vector) :
  (forall r, dot v (AVec v) = Ok r -> nonneg r)
  /\ (forall e, dot v (AVec v) = Raise e ->
        e = Overflow \/ e = InvalidOperation "sNaN").
Proof.
  rewrite dot_indexed, indexed_long by reflexivity.
  destruct (zip_mul_self (coordinates v)) as [H1 H2].
  destruct (zip_with Dec.mul (coordinates v) (coordinates v)) as [ps | e0];
    cbn [bind].
  - destruct (sum_nonneg ps (H1 _ eq_refl)) as [S1 S2]. split.
    + exact S1.
    + intros e H. left. exact (S2 _ H).
  - split; [discriminate |]. intros e [= <-]. exact (H2 _ eq_refl).
Qed.

(** ** Summary theorems *)

(** X3.  The magnitude is never negative and never a signalling
    NaN; [mag] fails only with the trapped [Overflow] of the sum of
    squares or with [InvalidOperation] on a signalling NaN coordinate:
    the conversion to [float] and the square root never fail. *)
Theorem mag_nonnegative (v : Vector) :
  (forall m, mag v = Ok m -> nonneg m)
  /\ (forall e, mag v = Raise e -> e = Overflow \/ e = InvalidOperation "sNaN").
Proof. exact (mag_inv v). Qed.

Lemma mag_nonnegative_witness :
  nonneg (Dec.of_Z 5)
  /\ (InvalidOperation "sNaN" = Overflow
      \/ InvalidOperation "sNaN" = InvalidOperation "sNaN").
Proof.
  split.
  - apply (proj1 (mag_nonnegative (mkVector [Dec.of_Z (-3); Dec.of_Z 4] 2))).
    vm_compute. reflexivity.
  - apply (proj2 (mag_nonnegative (mkVector [Dec.of_Z 1; Dec.NaN true true] 2))).
    vm_compute. reflexivity.
Defined.

Lemma returned_vectors_well_formed_witness :
  wf (mkVector [Dec.of_Z 5; Dec.of_Z 7] 2).
Proof.
  apply (proj1 (proj2 returned_vectors_well_formed)
           (mkVector [Dec.of_Z 1; Dec.of_Z 2] 2)
           (AVec (mkVector [Dec.of_Z 4; Dec.of_Z 5; Dec.of_Z 6] 3))).
  vm_compute. reflexivity.
Defined.

Lemma dot_with_itself_nonnegative_witness : nonneg (Dec.of_Z 13).
Proof.
  apply (proj1 (dot_with_itself_nonnegative
                  (mkVector [Dec.of_Z (-2); Dec.of_Z 3] 2))).
  vm_compute. reflexivity.
Defined.

Section Failures.

Variable acos : Flt.t -> Flt.t.

(** X5.  The failures of [theta].  An operand that is not a
    [Vector] fails with [NotAVectorError]; with a [Vector] the only
    failures are [ZeroMagnitudeError], a trapped signal of the decimal
    arithmetic, and [IndexError], the last only when the operand has
    fewer coordinates than [self].  In particular the domain error of
    [math.acos] is never raised. *)
Theorem theta_failures (self : Vector) (in_degrees : bool) :
  (forall v, as_Vector v = None ->
     theta acos self v in_degrees = Raise NotAVectorError)
  /\ (forall w e, theta acos self (AVec w) in_degrees = Raise e ->
        e = ZeroMagnitudeError \/ arith_exn e
        \/ (e = IndexError
            /\ (List.length (coordinates w) < List.length (coordinates self))%nat)).
Proof.
  split.
  - intros v Hv. unfold theta. rewrite Hv. reflexivity.
  - intros w e. apply theta_vec_exn.
Qed.

(** X6.  The failures of [is_parallel_to].  An operand that is
    not a [Vector] fails with [NotAVectorError]; with a [Vector] the
    only failures are a trapped signal of the decimal arithmetic and
    [IndexError], the last only when the operand has fewer coordinates
    than [self]; [ZeroMagnitudeError] never escapes. *)
Theorem is_parallel_to_failures (self : Vector) :
  (forall v, as_Vector v = None ->
     is_parallel_to acos self v = Raise NotAVectorError)
  /\ (forall w e, is_parallel_to acos self (AVec w) = Raise e ->
        arith_exn e
        \/ (e = IndexError
            /\ (List.length (coordinates w) < List.length (coordinates self))%nat)).
Proof.
  split.
  - intros v Hv. unfold is_parallel_to. rewrite Hv. reflexivity.
  - intros w e. apply is_parallel_to_vec_exn.
Qed.

End Failures.

Lemma theta_failures_witness :
  IndexError = ZeroMagnitudeError \/ arith_exn IndexError
  \/ (IndexError = IndexError /\ (2 < 3)%nat).
Proof.
  apply (proj2 (theta_failures acos_sample
                  (mkVector [Dec.of_Z 1; Dec.of_Z 2; Dec.of_Z 3] 3) false)
           (mkVector [Dec.of_Z 1; Dec.of_Z 2] 2)).
  vm_compute. reflexivity.
Defined.

Lemma is_parallel_to_failures_witness :
  arith_exn IndexError \/ (IndexError = IndexError /\ (2 < 3)%nat).
Proof.
  apply (proj2 (is_parallel_to_failures acos_sample
                  (mkVector [Dec.of_Z 1; Dec.of_Z 2; Dec.of_Z 3] 3))
           (mkVector [Dec.of_Z 1; Dec.of_Z 2] 2)).
  vm_compute. reflexivity.
Defined.

Lemma theta_symmetric_witness :
  theta acos_sample (mkVector [Dec.of_Z 0; Dec.of_Z 2] 2)
        (AVec (mkVector [Dec.of_Z 3; Dec.of_Z 0] 2)) false
  = Ok (Flt.Fin false 7074237752028440 (-52)).
Proof.
  apply (theta_symmetric acos_sample (mkVector [Dec.of_Z 3; Dec.of_Z 0] 2)
           (mkVector [Dec.of_Z 0; Dec.of_Z 2] 2)).
  - split; [reflexivity | discriminate].
  - split; [reflexivity | discriminate].
  - reflexivity.
  - repeat constructor.
  - repeat constructor.
  - vm_compute. reflexivity.
Defined.

(** X7.  [orthogonal_to] and [decompose] fail with
    [ZeroVectorError] exactly when the magnitude of the operand is
    zero: the error of [norm] propagates through [proj_on], and nothing
    else in them raises it. *)
Theorem orthogonal_and_decompose_zero_vector (self w : Vector) :
  (orthogonal_to self (AVec w) = Raise ZeroVectorError
   <-> exists m, mag w = Ok m /\ Dec.eq m (Dec.of_Z 0) = Ok true)
  /\ (decompose self (AVec w) = Raise ZeroVectorError
      <-> exists m, mag w = Ok m /\ Dec.eq m (Dec.of_Z 0) = Ok true).
Proof. split; [apply orthogonal_to_zde | apply decompose_zde]. Qed.

Lemma orthogonal_and_decompose_zero_vector_witness :
  decompose (mkVector [Dec.of_Z 1; Dec.of_Z 2] 2)
            (AVec (mkVector [Dec.of_Z 0; Dec.of_Z 0] 2))
  = Raise ZeroVectorError.
Proof.
  apply (proj2 (orthogonal_and_decompose_zero_vector _ _)).
  exists (Dec.of_Z 0). split; vm_compute; reflexivity.
Defined.

Lemma add_commutative_witness :
  __add__ (mkVector [Dec.of_Z 1; Dec.Inf false] 2)
          (AVec (mkVector [Dec.Fin true 25 (-1); Dec.of_Z 7] 2))
  = __add__ (mkVector [Dec.Fin true 25 (-1); Dec.of_Z 7] 2)
            (AVec (mkVector [Dec.of_Z 1; Dec.Inf false] 2)).
Proof.
  apply add_commutative.
  - split; [reflexivity | discriminate].
  - split; [reflexivity | discriminate].
  - reflexivity.
  - repeat constructor.
  - repeat constructor.
Defined.

(** X10.  The dot product of two vectors of equal dimension
    without NaN coordinates is commutative where it succeeds, and so is
    the orthogonality test, with any tolerance. *)
Theorem dot_commutative (v w : Vector) :
  wf v -> wf w -> dimension v = dimension w -> no_nan v -> no_nan w ->
  (forall r, dot v (AVec w) = Ok r -> dot w (AVec v) = Ok r)
  /\ (forall tol b, is_orthogonal_to v (AVec w) tol = Ok b ->
        is_orthogonal_to w (AVec v) tol = Ok b).
Proof.
  intros W1 W2 Hd N1 N2. split.
  - intros r. apply dot_comm_ok; assumption.
  - intros tol b. apply is_orthogonal_to_comm_ok; assumption.
Qed.

Lemma dot_commutative_witness :
  dot (mkVector [Dec.of_Z 4; Dec.of_Z 5] 2) (AVec (mkVector [Dec.of_Z 1; Dec.of_Z 2] 2))
  = Ok (Dec.of_Z 14).
Proof.
  apply (dot_commutative (mkVector [Dec.of_Z 1; Dec.of_Z 2] 2)
           (mkVector [Dec.of_Z 4; Dec.of_Z 5] 2)).
  - split; [reflexivity | discriminate].
  - split; [reflexivity | discriminate].
  - reflexivity.
  - repeat constructor.
  - repeat constructor.
  - vm_compute. reflexivity.
Defined.

(** * The components of [decompose] sum back to the vector *)

(** ** Error of one rounding *)

Lemma round_half_even_error (c k : Z) :
  0 <= c -> 0 < k ->
  2 * Z.abs (c - Dec.round_half_even c k * 10 ^ k) <= 10 ^ k.
Proof.
  intros Hc Hk. unfold Dec.round_half_even.
  assert (H10 : 0 < 10 ^ (k - 1)) by (apply Z.pow_pos_nonneg; lia).
  assert (Hk10 : 10 ^ k = 10 * 10 ^ (k - 1)).
  { replace k with (1 + (k - 1)) at 1 by lia. rewrite Z.pow_add_r by lia. reflexivity. }
  pose proof (Z.div_mod c (10 ^ k) ltac:(lia)) as Hdm.
  pose proof (Z.mod_pos_bound c (10 ^ k) ltac:(lia)) as Hm.
  remember (c / 10 ^ k) as q eqn:Eq. remember (c mod 10 ^ k) as r eqn:Er.
  remember (10 ^ (k - 1)) as h eqn:Eh. rewrite Hk10 in *.
  destruct (5 * h <? r) eqn:E1; cbn [orb].
  - apply Z.ltb_lt in E1. lia.
  - apply Z.ltb_ge in E1. destruct (r =? 5 * h) eqn:E2; cbn [andb].
    + apply Z.eqb_eq in E2. destruct (Z.odd q); lia.
    + lia.
Qed.

Lemma ndigits_ge (n d : Z) : 0 < n -> 10 ^ (d - 1) <= n -> d <= Dec.ndigits n.
Proof.
  intros Hn Hd. pose proof (ndigits_spec n Hn) as [_ Hlt].
  pose proof (ndigits_pos n) as Hp.
  destruct (Z_lt_le_dec (Dec.ndigits n) d) as [Hlt' | Hge]; [| exact Hge].
  exfalso. assert (10 ^ Dec.ndigits n <= 10 ^ (d - 1)) by (apply Z.pow_le_mono_r; lia).
  lia.
Qed.

Lemma scaled_zero (s : bool) (e e0 : Z) : Dec.scaled s 0 e e0 = 0.
Proof. unfold Dec.scaled. change (Z.of_N 0) with 0. ring. Qed.

Lemma scaled_coeff_shift (s : bool) (c : Z) (e e' E : Z) :
  0 <= c -> E <= e' -> e' <= e ->
  Dec.scaled s (Z.to_N (c * 10 ^ (e - e'))) e' E = Dec.scaled s (Z.to_N c) e E.
Proof.
  intros Hc H1 H2. unfold Dec.scaled.
  assert (0 <= 10 ^ (e - e')) by (apply Z.pow_nonneg; lia).
  rewrite !Z2N.id by nia.
  replace (e - E) with ((e - e') + (e' - E)) by lia.
  rewrite Z.pow_add_r by lia. ring.
Qed.

Lemma scaled_diff_abs (s : bool) (c q e k E : Z) :
  0 <= c -> 0 <= q -> E <= e -> 0 <= k ->
  Z.abs (Dec.scaled s (Z.to_N c) e E - Dec.scaled s (Z.to_N q) (e + k) E)
  = Z.abs (c - q * 10 ^ k) * 10 ^ (e - E).
Proof.
  intros Hc Hq HE Hk. unfold Dec.scaled. rewrite !Z2N.id by lia.
  replace (e + k - E) with (k + (e - E)) by lia. rewrite Z.pow_add_r by lia.
  assert (HP : 0 <= 10 ^ (e - E)) by (apply Z.pow_nonneg; lia).
  rewrite <- (Z.abs_eq (10 ^ (e - E))) at 3 by exact HP. rewrite <- Z.abs_mul.
  destruct s.
  - rewrite <- Z.abs_opp. f_equal. ring.
  - f_equal. ring.
Qed.

Lemma rounding_step (s : bool) (c q e k E u : Z) :
  0 <= c -> 0 <= q -> E <= e -> 0 < k -> e + k <= u ->
  2 * Z.abs (c - q * 10 ^ k) <= 10 ^ k ->
  2 * Z.abs (Dec.scaled s (Z.to_N c) e E - Dec.scaled s (Z.to_N q) (e + k) E)
  <= 10 ^ (u - E).
Proof.
  intros Hc Hq HE Hk Hu Herr.
  rewrite scaled_diff_abs by lia.
  assert (HP : 0 < 10 ^ (e - E)) by (apply Z.pow_pos_nonneg; lia).
  assert (Hle : 10 ^ k * 10 ^ (e - E) <= 10 ^ (u - E)).
  { rewrite <- Z.pow_add_r by lia. apply Z.pow_le_mono_r; lia. }
  nia.
Qed.

Lemma fix_fin_error (s : bool) (c : N) (e : Z) (r : Dec.t) :
  Dec.fix_fin s c e = Ok r ->
  exists q e', r = Dec.Fin s q e'
    /\ forall E, E <= e -> E <= e' -> E <= ulp_exp r ->
         2 * Z.abs (Dec.scaled s c e E - Dec.scaled s q e' E)
         <= 10 ^ (ulp_exp r - E).
Proof.
  assert (Hconst : Dec.Etiny <= Dec.Etop /\ Dec.Etop <= Dec.Emax /\ 1 <= Dec.prec)
    by (vm_compute; repeat split; discriminate).
  unfold Dec.fix_fin.
  destruct (c =? 0)%N eqn:Ec.
  { apply N.eqb_eq in Ec. subst c. intros H. injection H as <-.
    do 2 eexists. split; [reflexivity |]. intros E _ _ HE.
    rewrite !scaled_zero. cbn [Z.sub Z.opp Z.add Z.abs Z.mul].
    apply Z.pow_nonneg. lia. }
  apply N.eqb_neq in Ec. assert (Hc : 0 < Z.of_N c) by lia.
  set (len := Dec.ndigits (Z.of_N c)).
  destruct (Dec.Etop <? len + e - Dec.prec) eqn:Eo; [discriminate |].
  apply Z.ltb_ge in Eo.
  remember (Z.max (len + e - Dec.prec) Dec.Etiny) as em eqn:Eem.
  destruct (e <? em) eqn:Er.
  - apply Z.ltb_lt in Er.
    pose proof (round_half_even_nonneg (Z.of_N c) (em - e) ltac:(lia)) as Hq0.
    pose proof (round_half_even_lower (Z.of_N c) (em - e) ltac:(lia)) as Hlow.
    pose proof (round_half_even_error (Z.of_N c) (em - e) ltac:(lia) ltac:(lia)) as Herr.
    pose proof (ndigits_spec _ Hc) as [Hge Hlt]. fold len in Hge, Hlt.
    assert (Hup : Dec.round_half_even (Z.of_N c) (em - e) <= 10 ^ Dec.prec).
    { apply round_half_even_upper; [lia | lia | lia |].
      eapply Z.lt_le_trans; [exact Hlt |].
      apply Z.pow_le_mono_r; lia. }
    remember (Dec.round_half_even (Z.of_N c) (em - e)) as q eqn:Eq.
    destruct (Dec.prec <? Dec.ndigits q) eqn:Ep.
    + apply Z.ltb_lt in Ep.
      destruct (Dec.Etop <? em + 1) eqn:Eo2; [discriminate |].
      intros H. injection H as <-.
      do 2 eexists. split; [reflexivity |]. intros E HE1 HE2 HE3.
      assert (Hq : q = 10 ^ Dec.prec).
      { destruct (Z_lt_le_dec q (10 ^ Dec.prec)) as [Hlt' | Hge']; [| lia].
        exfalso. assert (Dec.ndigits q <= Dec.prec) by (apply ndigits_le; lia). lia. }
      assert (Hq10 : q = 10 * 10 ^ (Dec.prec - 1)).
      { rewrite Hq. replace Dec.prec with (1 + (Dec.prec - 1)) at 1 by lia.
        rewrite Z.pow_add_r by lia. reflexivity. }
      assert (Hp1 : 0 < 10 ^ (Dec.prec - 1)) by (apply Z.pow_pos_nonneg; lia).
      assert (Hdiv : q / 10 = 10 ^ (Dec.prec - 1)).
      { rewrite Hq10. rewrite Z.mul_comm. apply Z.div_mul. lia. }
      assert (Hnd : Dec.prec <= Dec.ndigits (q / 10)).
      { apply ndigits_ge; lia. }
      cbn [ulp_exp] in HE3 |- *. rewrite Z2N.id in HE3 |- * by lia.
      rewrite <- (N2Z.id c) at 1.
      replace (em + 1) with (e + (em + 1 - e)) at 1 by lia.
      apply rounding_step; try lia.
      rewrite Hdiv. replace (em + 1 - e) with (1 + (em - e)) by lia.
      rewrite Z.pow_add_r by lia.
      assert (0 < 10 ^ (em - e)) by (apply Z.pow_pos_nonneg; lia).
      replace (10 ^ (Dec.prec - 1) * (10 ^ 1 * 10 ^ (em - e)))
        with (q * 10 ^ (em - e)) by (rewrite Hq10; ring).
      change (10 ^ 1) with 10. lia.
    + apply Z.ltb_ge in Ep.
      destruct (Dec.Etop <? em) eqn:Eo2; [discriminate |].
      intros H. injection H as <-.
      do 2 eexists. split; [reflexivity |]. intros E HE1 HE2 HE3.
      cbn [ulp_exp] in HE3 |- *. rewrite Z2N.id in HE3 |- * by lia.
      rewrite <- (N2Z.id c) at 1.
      replace em with (e + (em - e)) at 1 by lia.
      apply rounding_step; try lia.
      destruct (Z.max_spec (len + e - Dec.prec) Dec.Etiny) as [[Hlt' Hm] | [Hge' Hm]];
        rewrite <- Eem in Hm; [lia |].
      assert (Hk : em - e = len - Dec.prec) by lia.
      assert (Hq1 : 10 ^ (Dec.prec - 1) <= q).
      { eapply Z.le_trans; [| exact Hlow].
        apply Z.div_le_lower_bound; [apply Z.pow_pos_nonneg; lia |].
        rewrite <- Z.pow_add_r by lia.
        replace (em - e + (Dec.prec - 1)) with (len - 1) by lia. exact Hge. }
      assert (Hp1 : 0 < 10 ^ (Dec.prec - 1)) by (apply Z.pow_pos_nonneg; lia).
      assert (Hnd : Dec.prec <= Dec.ndigits q) by (apply ndigits_ge; lia).
      lia.
  - apply Z.ltb_ge in Er.
    intros H. injection H as <-.
    do 2 eexists. split; [reflexivity |]. intros E HE1 HE2 HE3.
    rewrite Z.sub_diag. cbn [Z.abs Z.mul]. apply Z.pow_nonneg. lia.
Qed.

(** ** Error of a sum and of a difference *)

Lemma scaled_signed (r : Z) (e E : Z) :
  E <= e ->
  Dec.scaled (r <? 0) (Z.to_N (Z.abs r)) e E = r * 10 ^ (e - E).
Proof.
  intros HE. unfold Dec.scaled. rewrite Z2N.id by lia.
  destruct (r <? 0) eqn:Hr; [apply Z.ltb_lt in Hr | apply Z.ltb_ge in Hr].
  - rewrite Z.abs_neq by lia. ring.
  - rewrite Z.abs_eq by lia. ring.
Qed.

(** The sum of two finite numbers is their exact sum, rounded once. *)
Lemma add_fin_error (s1 s2 : bool) (c1 c2 : N) (e1 e2 : Z) (r : Dec.t) :
  Dec.add (Dec.Fin s1 c1 e1) (Dec.Fin s2 c2 e2) = Ok r ->
  exists s q e', r = Dec.Fin s q e'
    /\ forall E, E <= e1 -> E <= e2 -> E <= e' -> E <= ulp_exp r ->
         2 * Z.abs (Dec.scaled s1 c1 e1 E + Dec.scaled s2 c2 e2 E
                    - Dec.scaled s q e' E)
         <= 10 ^ (ulp_exp r - E).
Proof.
  assert (Hprec : 0 <= Dec.prec) by (vm_compute; discriminate).
  unfold Dec.add. cbn [Dec.check_nans bind].
  destruct (c1 =? 0)%N eqn:E1; [apply N.eqb_eq in E1; subst c1 | apply N.eqb_neq in E1];
    (destruct (c2 =? 0)%N eqn:E2;
     [apply N.eqb_eq in E2; subst c2 | apply N.eqb_neq in E2]); cbn [andb].
  - intros H. destruct (fix_fin_error _ _ _ _ H) as (q & e' & -> & Hb).
    do 3 eexists. split; [reflexivity |]. intros E H1 H2 H3 H4.
    rewrite !scaled_zero. rewrite Z.add_0_l.
    rewrite <- (scaled_zero (s1 && s2) (Z.min e1 e2) E) at 1.
    apply Hb; lia.
  - intros H. destruct (fix_fin_error _ _ _ _ H) as (q & e' & -> & Hb).
    do 3 eexists. split; [reflexivity |]. intros E H1 H2 H3 H4.
    rewrite scaled_zero, Z.add_0_l.
    rewrite <- (N2Z.id c2) at 1.
    rewrite <- (scaled_coeff_shift s2 (Z.of_N c2) e2
                  (Z.max (Z.min e1 e2) (e2 - Dec.prec - 1)) E) by lia.
    apply Hb; lia.
  - intros H. destruct (fix_fin_error _ _ _ _ H) as (q & e' & -> & Hb).
    do 3 eexists. split; [reflexivity |]. intros E H1 H2 H3 H4.
    rewrite scaled_zero, Z.add_0_r.
    rewrite <- (N2Z.id c1) at 1.
    rewrite <- (scaled_coeff_shift s1 (Z.of_N c1) e1
                  (Z.max (Z.min e1 e2) (e1 - Dec.prec - 1)) E) by lia.
    apply Hb; lia.
  - remember (Dec.scaled s1 c1 e1 (Z.min e1 e2) + Dec.scaled s2 c2 e2 (Z.min e1 e2))
      as t eqn:Et.
    assert (Hsum : forall E, E <= e1 -> E <= e2 ->
               Dec.scaled s1 c1 e1 E + Dec.scaled s2 c2 e2 E
               = t * 10 ^ (Z.min e1 e2 - E)).
    { intros E H1 H2. rewrite Et.
      rewrite (scaled_rebase s1 c1 e1 (Z.min e1 e2) E) by lia.
      rewrite (scaled_rebase s2 c2 e2 (Z.min e1 e2) E) by lia. ring. }
    destruct (t =? 0) eqn:Ez.
    + apply Z.eqb_eq in Ez. intros H.
      destruct (fix_fin_error _ _ _ _ H) as (q & e' & -> & Hb).
      do 3 eexists. split; [reflexivity |]. intros E H1 H2 H3 H4.
      rewrite (Hsum E H1 H2), Ez, Z.mul_0_l.
      rewrite <- (scaled_zero false (Z.min e1 e2) E) at 1.
      apply Hb; lia.
    + intros H. destruct (fix_fin_error _ _ _ _ H) as (q & e' & -> & Hb).
      do 3 eexists. split; [reflexivity |]. intros E H1 H2 H3 H4.
      rewrite (Hsum E H1 H2).
      rewrite <- (scaled_signed t (Z.min e1 e2) E) by lia.
      apply Hb; lia.
Qed.

(** The difference of two finite numbers is their exact difference,
    rounded once. *)
Lemma sub_fin_error (s1 s2 : bool) (c1 c2 : N) (e1 e2 : Z) (r : Dec.t) :
  Dec.sub (Dec.Fin s1 c1 e1) (Dec.Fin s2 c2 e2) = Ok r ->
  exists s q e', r = Dec.Fin s q e'
    /\ forall E, E <= e1 -> E <= e2 -> E <= e' -> E <= ulp_exp r ->
         2 * Z.abs (Dec.scaled s1 c1 e1 E - Dec.scaled s2 c2 e2 E
                    - Dec.scaled s q e' E)
         <= 10 ^ (ulp_exp r - E).
Proof.
  unfold Dec.sub. cbn [Dec.check_nans bind Dec.copy_negate]. intros H.
  destruct (add_fin_error _ _ _ _ _ _ _ H) as (s & q & e' & -> & Hb).
  do 3 eexists. split; [reflexivity |]. intros E H1 H2 H3 H4.
  specialize (Hb E H1 H2 H3 H4). rewrite scaled_negb in Hb.
  replace (Dec.scaled s1 c1 e1 E - Dec.scaled s2 c2 e2 E)
    with (Dec.scaled s1 c1 e1 E + - Dec.scaled s2 c2 e2 E) by ring.
  exact Hb.
Qed.

(** One coordinate of the sum of the two components: [p + (x - p)] is
    [x] up to the two roundings. *)
Lemma sum_back_coordinate (x y o s : Dec.t) :
  is_finite x = true -> is_finite y = true ->
  Dec.sub x y = Ok o -> Dec.add y o = Ok s ->
  within_rounding x o s = true.
Proof.
  destruct x as [sx cx ex | |]; try discriminate.
  destruct y as [sy cy ey | |]; try discriminate. intros _ _ Ho Hs.
  destruct (sub_fin_error _ _ _ _ _ _ _ Ho) as (so & co & eo & -> & Hbo).
  destruct (add_fin_error _ _ _ _ _ _ _ Hs) as (ss & cs & es & -> & Hbs).
  unfold within_rounding.
  remember (ulp_exp (Dec.Fin so co eo)) as uo eqn:Euo.
  remember (ulp_exp (Dec.Fin ss cs es)) as us eqn:Eus.
  remember (Z.min (Z.min ex es) (Z.min uo us)) as E0 eqn:EE0.
  remember (Z.min E0 (Z.min ey eo)) as E eqn:EE.
  specialize (Hbo E ltac:(lia) ltac:(lia) ltac:(lia) ltac:(lia)).
  specialize (Hbs E ltac:(lia) ltac:(lia) ltac:(lia) ltac:(lia)).
  apply Z.leb_le.
  assert (HP : 0 < 10 ^ (E0 - E)) by (apply Z.pow_pos_nonneg; lia).
  rewrite (scaled_rebase ss cs es E0 E) in Hbs by lia.
  rewrite (scaled_rebase sx cx ex E0 E) in Hbo by lia.
  replace (uo - E) with ((uo - E0) + (E0 - E)) in Hbo by lia.
  replace (us - E) with ((us - E0) + (E0 - E)) in Hbs by lia.
  rewrite Z.pow_add_r in Hbo, Hbs by lia.
  remember (10 ^ (E0 - E)) as P eqn:EP.
  remember (Dec.scaled ss cs es E0) as S0. remember (Dec.scaled sx cx ex E0) as X0.
  remember (Dec.scaled sy cy ey E) as Y. remember (Dec.scaled so co eo E) as O.
  remember (10 ^ (uo - E0)) as A. remember (10 ^ (us - E0)) as B.
  assert (Hd : 2 * Z.abs ((S0 - X0) * P) <= (A + B) * P) by lia.
  rewrite Z.abs_mul, (Z.abs_eq P) in Hd by lia. nia.
Qed.

(** ** Finite operands *)

(** Finite operands give finite results: the arithmetic produces an
    infinity or a NaN only from one. *)
Lemma fix_fin_finite (s : bool) (c : N) (e : Z) (r : Dec.t) :
  Dec.fix_fin s c e = Ok r -> is_finite r = true.
Proof.
  intros H. destruct (fix_fin_sign s s c e r H) as (q & e1 & -> & _). reflexivity.
Qed.

Lemma add_finite (a b r : Dec.t) :
  is_finite a = true -> is_finite b = true -> Dec.add a b = Ok r ->
  is_finite r = true.
Proof.
  destruct a as [s1 c1 e1 | |], b as [s2 c2 e2 | |]; try discriminate.
  intros _ _ H. destruct (add_fin_error _ _ _ _ _ _ _ H) as (s & q & e' & -> & _).
  reflexivity.
Qed.

Lemma sub_finite (a b r : Dec.t) :
  is_finite a = true -> is_finite b = true -> Dec.sub a b = Ok r ->
  is_finite r = true.
Proof.
  destruct a as [s1 c1 e1 | |], b as [s2 c2 e2 | |]; try discriminate.
  intros _ _ H. destruct (sub_fin_error _ _ _ _ _ _ _ H) as (s & q & e' & -> & _).
  reflexivity.
Qed.

Lemma mul_finite (a b r : Dec.t) :
  is_finite a = true -> is_finite b = true -> Dec.mul a b = Ok r ->
  is_finite r = true.
Proof.
  destruct a as [s1 c1 e1 | |], b as [s2 c2 e2 | |]; try discriminate.
  intros _ _. unfold Dec.mul. cbn [Dec.check_nans bind]. apply fix_fin_finite.
Qed.

Lemma sq_finite (a r : Dec.t) :
  is_finite a = true -> Dec.sq a = Ok r -> is_finite r = true.
Proof.
  destruct a as [s c e | |]; try discriminate. intros _. cbn [Dec.sq].
  destruct (c =? 0)%N; [intros [= <-]; reflexivity |]. intros H.
  apply bind_ok_inv in H. destruct H as (r0 & Hr & H).
  destruct (fix_at_sign _ _ _ _ _ Hr) as (q & e1 & ->). cbn [Dec.fix_] in H.
  exact (fix_fin_finite _ _ _ _ H).
Qed.

Lemma div_finite (a b r : Dec.t) :
  is_finite a = true -> Dec.is_nan b = false -> Dec.div a b = Ok r ->
  is_finite r = true.
Proof.
  destruct a as [s1 c1 e1 | |]; try discriminate.
  destruct b as [s2 c2 e2 | s2 |]; try discriminate; intros _ _;
    unfold Dec.div; cbn [Dec.check_nans bind].
  - destruct (c2 =? 0)%N; [destruct (c1 =? 0)%N; discriminate |].
    destruct (c1 =? 0)%N; [apply fix_fin_finite |].
    repeat match goal with
           | |- context [let '(_, _) := ?p in _] => destruct p
           end.
    apply fix_fin_finite.
  - intros [= <-]. reflexivity.
Qed.

Lemma mapM_Forall_from {A B : Type} (f : A -> result B)
      (P : A -> Prop) (Q : B -> Prop) :
  (forall x r, P x -> f x = Ok r -> Q r) ->
  forall l l', Forall P l -> mapM f l = Ok l' -> Forall Q l'.
Proof.
  intros Hf. induction l as [| x t IH]; intros l' Hl H; cbn [mapM] in H.
  - injection H as <-. constructor.
  - inversion Hl as [| ? ? Hx Ht]; subst.
    apply bind_ok_inv in H. destruct H as (y & Hy & H).
    apply bind_ok_inv in H. destruct H as (ys & Hys & H). injection H as <-.
    constructor; [exact (Hf _ _ Hx Hy) | exact (IH _ Ht Hys)].
Qed.

Lemma sum_from_finite (l : list Dec.t) :
  forall acc r, is_finite acc = true ->
    Forall (fun d => is_finite d = true) l ->
    sum_from acc l = Ok r -> is_finite r = true.
Proof.
  induction l as [| x t IH]; intros acc r Ha Hl H; cbn [sum_from] in H.
  - injection H as <-. exact Ha.
  - inversion Hl as [| ? ? Hx Ht]; subst.
    apply bind_ok_inv in H. destruct H as (a & Hadd & H).
    exact (IH _ _ (add_finite _ _ _ Ha Hx Hadd) Ht H).
Qed.

Lemma sum_finite (l : list Dec.t) (r : Dec.t) :
  Forall (fun d => is_finite d = true) l -> sum l = Ok r -> is_finite r = true.
Proof.
  destruct l as [| x t]; cbn [sum]; intros Hl H.
  - injection H as <-. reflexivity.
  - inversion Hl as [| ? ? Hx Ht]; subst.
    apply bind_ok_inv in H. destruct H as (a & Hadd & H).
    exact (sum_from_finite _ _ _ (add_finite x (Dec.of_Z 0) a Hx eq_refl Hadd) Ht H).
Qed.

Lemma round_not_nan (s : bool) (m e : Z) : Flt.is_nan (Flt.round s m e) = false.
Proof.
  unfold Flt.round.
  repeat match goal with
         | |- context [if ?b then _ else _] => destruct b
         end; reflexivity.
Qed.

Lemma mag_not_nan (v : Vector) (m : Dec.t) :
  finite_vector v -> mag v = Ok m -> Dec.is_nan m = false.
Proof.
  intros Hv. unfold mag. intros H.
  apply bind_ok_inv in H. destruct H as (sqs & Hsq & H).
  apply bind_ok_inv in H. destruct H as (t & Ht & H).
  apply bind_ok_inv in H. destruct H as (f & Hf & H).
  apply bind_ok_inv in H. destruct H as (r & Hr & H). injection H as <-.
  assert (Hsqs : Forall (fun d => is_finite d = true) sqs).
  { refine (mapM_Forall_from Dec.sq _ _ _ _ _ Hv Hsq).
    intros x r0 Hx Hx0. exact (sq_finite _ _ Hx Hx0). }
  pose proof (sum_finite _ _ Hsqs Ht) as Hfin.
  destruct t as [s c e | |]; try discriminate Hfin.
  assert (Hfn : Flt.is_nan f = false).
  { cbn [Flt.of_Dec] in Hf.
    destruct (c =? 0)%N; [injection Hf as <-; reflexivity |].
    destruct (0 <=? e); injection Hf as <-; [apply round_not_nan |].
    unfold Flt.round_ratio. apply round_not_nan. }
  assert (Hrn : Flt.is_nan r = false).
  { destruct f as [sf mf ef | [|] |]; try discriminate Hfn; cbn [Flt.sqrt] in Hr;
      try discriminate Hr.
    - destruct (mf =? 0)%N; [injection Hr as <-; reflexivity |].
      destruct sf; [discriminate Hr |]. injection Hr as <-. apply round_not_nan.
    - injection Hr as <-. reflexivity. }
  destruct r as [sr mr er | sr |]; try discriminate Hrn; cbn [Flt.to_Dec].
  - destruct mr; [reflexivity |]. destruct (0 <=? er); reflexivity.
  - reflexivity.
Qed.

Lemma scale_finite (v p : Vector) (k : Dec.t) :
  finite_vector v -> is_finite k = true -> __mul__ v (ADec k) = Ok p ->
  finite_vector p.
Proof.
  intros Hv Hk. unfold __mul__. cbn [is_number]. intros H.
  apply bind_ok_inv in H. destruct H as (cs & Hcs & H).
  apply Vector_of_inv in H. destruct H as [_ ->]. unfold finite_vector. cbn [coordinates].
  refine (mapM_Forall_from _ _ _ _ _ _ Hv Hcs).
  intros x r Hx Hr. cbn [mul_operand] in Hr. exact (mul_finite _ _ _ Hx Hk Hr).
Qed.

Lemma norm_finite (w n : Vector) :
  finite_vector w -> norm w = Ok n -> finite_vector n.
Proof.
  intros Hw. unfold norm. intros H.
  apply bind_ok_inv in H. destruct H as (m & _ & H).
  apply bind_ok_inv in H. destruct H as ([|] & _ & H); [| discriminate H].
  apply bind_ok_inv in H. destruct H as (m' & Hm & H).
  apply bind_ok_inv in H. destruct H as (k & Hk & H).
  refine (scale_finite _ _ _ Hw _ H).
  exact (div_finite (Flt.to_Dec Flt.one) m' k eq_refl (mag_not_nan _ _ Hw Hm) Hk).
Qed.

Lemma indexed_Forall (op : Dec.t -> Dec.t -> result Dec.t)
      (P Q : Dec.t -> Prop) :
  (forall x y r, P x -> P y -> op x y = Ok r -> Q r) ->
  forall a pre b l, Forall P a -> Forall P (pre ++ b) ->
    indexed op pre b a = Ok l -> Forall Q l.
Proof.
  intros Hop a pre b l Ha Hb H. unfold indexed in H.
  remember (seq (List.length pre) (List.length a)) as idx eqn:Ei. clear Ei.
  revert idx l H. induction Ha as [| x t Hx Ht IH]; intros idx l H.
  - destruct idx; cbn in H; injection H as <-; constructor.
  - destruct idx as [| i idx]; [cbn in H; injection H as <-; constructor |].
    cbn [combine mapM] in H.
    apply bind_ok_inv in H. destruct H as (r & Hr & H).
    apply bind_ok_inv in H. destruct H as (rs & Hrs & H). injection H as <-.
    cbn beta iota in Hr.
    apply bind_ok_inv in Hr. destruct Hr as (y & Hy & Hr).
    unfold index in Hy. destruct (nth_error (pre ++ b) i) as [y' |] eqn:En;
      [| discriminate Hy].
    injection Hy as <-.
    assert (Py : P y').
    { apply nth_error_In in En. rewrite Forall_forall in Hb. exact (Hb _ En). }
    constructor; [exact (Hop _ _ _ Hx Py Hr) | exact (IH _ _ Hrs)].
Qed.

Lemma dot_finite (v w : Vector) (d : Dec.t) :
  finite_vector v -> finite_vector w -> dot v (AVec w) = Ok d ->
  is_finite d = true.
Proof.
  intros Hv Hw. rewrite dot_indexed. intros H.
  apply bind_ok_inv in H. destruct H as (ps & Hps & H).
  refine (sum_finite _ _ _ H).
  refine (indexed_Forall Dec.mul _ _ _ (coordinates v) [] (coordinates w) ps Hv Hw Hps).
  intros x y r Hx Hy Hr. exact (mul_finite _ _ _ Hx Hy Hr).
Qed.

Lemma proj_on_finite (v w p : Vector) :
  finite_vector v -> finite_vector w -> proj_on v (AVec w) = Ok p ->
  finite_vector p.
Proof.
  intros Hv Hw. unfold proj_on. cbn [as_Vector]. intros H.
  apply bind_ok_inv in H. destruct H as (n & Hn & H).
  apply bind_ok_inv in H. destruct H as (d & Hd & H).
  apply bind_ok_inv in H. destruct H as (n' & Hn' & H).
  refine (scale_finite _ _ _ (norm_finite _ _ Hw Hn') _ H).
  exact (dot_finite _ _ _ Hv (norm_finite _ _ Hw Hn) Hd).
Qed.

(** ** The sum of the components, coordinate by coordinate *)

Lemma fix_fin_ok_of_bound (s : bool) (c e E : Z) :
  0 <= c -> E <= e -> c * 10 ^ (e - E) < 10 ^ (Dec.Emax - E) ->
  exists r, Dec.fix_fin s (Z.to_N c) e = Ok r.
Proof.
  intros Hc HE Hb.
  destruct (Z.eq_dec c 0) as [-> | Hnz].
  { cbn [Z.to_N]. rewrite fix_fin_of_zero. eauto. }
  assert (HP : 0 < 10 ^ (e - E)) by (apply Z.pow_pos_nonneg; lia).
  assert (Hd : 1 <= Dec.Emax - e).
  { destruct (Z_lt_le_dec (Dec.Emax - e) 1) as [Hlt |]; [| lia]. exfalso.
    assert (10 ^ (Dec.Emax - E) <= 10 ^ (e - E)) by (apply Z.pow_le_mono_r; lia).
    nia. }
  assert (Hsplit : 10 ^ (Dec.Emax - E) = 10 ^ (Dec.Emax - e) * 10 ^ (e - E)).
  { rewrite <- Z.pow_add_r by lia. f_equal. lia. }
  assert (Hlt : c < 10 ^ (Dec.Emax - e)) by nia.
  assert (Hn : Dec.ndigits c <= Dec.Emax - e) by (apply ndigits_le; lia).
  destruct (fix_fin_small s (Z.to_N c) e Dec.Emax) as (r & Hr & _).
  - rewrite Z2N.id by lia. lia.
  - vm_compute. discriminate.
  - lia.
  - eauto.
Qed.

(** An addition of finite numbers succeeds when the exact sum is below
    [10 ^ Emax] in absolute value. *)
Lemma add_ok_of_bound (s1 s2 : bool) (c1 c2 : N) (e1 e2 E : Z) :
  E <= e1 -> E <= e2 ->
  Z.abs (Dec.scaled s1 c1 e1 E + Dec.scaled s2 c2 e2 E) < 10 ^ (Dec.Emax - E) ->
  exists r, Dec.add (Dec.Fin s1 c1 e1) (Dec.Fin s2 c2 e2) = Ok r.
Proof.
  assert (Hprec : 0 <= Dec.prec) by (vm_compute; discriminate).
  intros H1 H2 Hb. unfold Dec.add. cbn [Dec.check_nans bind].
  destruct (c1 =? 0)%N eqn:E1; [apply N.eqb_eq in E1; subst c1 | apply N.eqb_neq in E1];
    (destruct (c2 =? 0)%N eqn:E2;
     [apply N.eqb_eq in E2; subst c2 | apply N.eqb_neq in E2]); cbn [andb].
  - rewrite fix_fin_of_zero. eauto.
  - rewrite scaled_zero, Z.add_0_l in Hb.
    remember (Z.max (Z.min e1 e2) (e2 - Dec.prec - 1)) as ex eqn:Eex.
    apply (fix_fin_ok_of_bound s2 _ ex E).
    + assert (0 <= 10 ^ (e2 - ex)) by (apply Z.pow_nonneg; lia). nia.
    + lia.
    + rewrite <- Z.mul_assoc, <- Z.pow_add_r by lia.
      replace (e2 - ex + (ex - E)) with (e2 - E) by lia.
      unfold Dec.scaled in Hb. rewrite Z.abs_mul, Z.abs_mul in Hb.
      assert (Z.abs (if s2 then -1 else 1) = 1) by (destruct s2; reflexivity).
      assert (0 <= 10 ^ (e2 - E)) by (apply Z.pow_nonneg; lia).
      rewrite (Z.abs_eq (Z.of_N c2)), (Z.abs_eq (10 ^ (e2 - E))) in Hb by lia. lia.
  - rewrite scaled_zero, Z.add_0_r in Hb.
    remember (Z.max (Z.min e1 e2) (e1 - Dec.prec - 1)) as ex eqn:Eex.
    apply (fix_fin_ok_of_bound s1 _ ex E).
    + assert (0 <= 10 ^ (e1 - ex)) by (apply Z.pow_nonneg; lia). nia.
    + lia.
    + rewrite <- Z.mul_assoc, <- Z.pow_add_r by lia.
      replace (e1 - ex + (ex - E)) with (e1 - E) by lia.
      unfold Dec.scaled in Hb. rewrite Z.abs_mul, Z.abs_mul in Hb.
      assert (Z.abs (if s1 then -1 else 1) = 1) by (destruct s1; reflexivity).
      assert (0 <= 10 ^ (e1 - E)) by (apply Z.pow_nonneg; lia).
      rewrite (Z.abs_eq (Z.of_N c1)), (Z.abs_eq (10 ^ (e1 - E))) in Hb by lia. lia.
  - remember (Dec.scaled s1 c1 e1 (Z.min e1 e2) + Dec.scaled s2 c2 e2 (Z.min e1 e2))
      as t eqn:Et.
    assert (Hsum : Dec.scaled s1 c1 e1 E + Dec.scaled s2 c2 e2 E
                   = t * 10 ^ (Z.min e1 e2 - E)).
    { rewrite Et.
      rewrite (scaled_rebase s1 c1 e1 (Z.min e1 e2) E) by lia.
      rewrite (scaled_rebase s2 c2 e2 (Z.min e1 e2) E) by lia. ring. }
    destruct (t =? 0); [rewrite fix_fin_of_zero; eauto |].
    apply (fix_fin_ok_of_bound _ _ _ E); [lia | lia |].
    rewrite Hsum, Z.abs_mul in Hb.
    assert (0 <= 10 ^ (Z.min e1 e2 - E)) by (apply Z.pow_nonneg; lia).
    rewrite (Z.abs_eq (10 ^ (Z.min e1 e2 - E))) in Hb by lia. exact Hb.
Qed.

Lemma rounded_ulp (s : bool) (c : N) (e : Z) :
  rounded (Dec.Fin s c e) -> ulp_exp (Dec.Fin s c e) <= Dec.Etop.
Proof.
  assert (Hconst : Dec.Etiny <= Dec.Etop /\ Dec.Etop = Dec.Emax - Dec.prec + 1
                   /\ 1 <= Dec.prec)
    by (vm_compute; repeat split; discriminate).
  cbn [rounded ulp_exp]. intros H. specialize (H s). unfold Dec.fix_fin in H.
  destruct (c =? 0)%N eqn:Ec.
  - apply N.eqb_eq in Ec. subst c. injection H as H.
    change (Dec.ndigits (Z.of_N 0)) with 1. lia.
  - destruct (Dec.Etop <? Dec.ndigits (Z.of_N c) + e - Dec.prec) eqn:Eo;
      [discriminate H |].
    apply Z.ltb_ge in Eo. lia.
Qed.

(** Adding the projection back succeeds when the coordinate of the
    vector is below [10 ^ (Emax - 1)] in absolute value. *)
Lemma add_back_ok (x y o : Dec.t) :
  is_finite x = true -> is_finite y = true -> small (Dec.Emax - 1) x ->
  Dec.sub x y = Ok o -> exists s, Dec.add y o = Ok s.
Proof.
  assert (Hconst : Dec.Etop <= Dec.Emax - 1) by (vm_compute; discriminate).
  destruct x as [sx cx ex | |]; try discriminate.
  destruct y as [sy cy ey | |]; try discriminate. intros _ _ Hx Ho.
  pose proof (sub_rounded _ _ _ Ho) as Hro.
  destruct (sub_fin_error _ _ _ _ _ _ _ Ho) as (so & co & eo & -> & Hbo).
  pose proof (rounded_ulp _ _ _ Hro) as Hu.
  remember (ulp_exp (Dec.Fin so co eo)) as uo eqn:Euo.
  remember (Z.min (Z.min ex ey) (Z.min eo uo)) as E eqn:EE.
  specialize (Hbo E ltac:(lia) ltac:(lia) ltac:(lia) ltac:(lia)).
  cbn [small] in Hx.
  pose proof (ndigits_pos (Z.of_N cx)) as Hnd.
  pose proof (scaled_bound sx cx ex E (Dec.Emax - 1) ltac:(lia) Hx) as HX.
  apply (add_ok_of_bound sy so cy co ey eo E); [lia | lia |].
  assert (H10 : 10 ^ (Dec.Emax - E) = 10 * 10 ^ (Dec.Emax - 1 - E)).
  { replace (Dec.Emax - E) with (1 + (Dec.Emax - 1 - E)) by lia.
    rewrite Z.pow_add_r by lia. reflexivity. }
  assert (Hle : 10 ^ (uo - E) <= 10 ^ (Dec.Emax - 1 - E))
    by (apply Z.pow_le_mono_r; lia).
  assert (0 < 10 ^ (Dec.Emax - 1 - E)) by (apply Z.pow_pos_nonneg; lia).
  lia.
Qed.

Lemma zip_sum_back (v : list Dec.t) :
  forall p o,
    Forall (fun d => is_finite d = true) v ->
    Forall (fun d => is_finite d = true) p ->
    zip_with Dec.sub v p = Ok o ->
    (forall s, zip_with Dec.add p o = Ok s ->
       List.length s = List.length o
       /\ Forall (fun '(x, (oi, si)) => within_rounding x oi si = true)
            (combine v (combine o s)))
    /\ (Forall (small (Dec.Emax - 1)) v -> exists s, zip_with Dec.add p o = Ok s).
Proof.
  unfold zip_with. induction v as [| x t IH]; intros p o Hv Hp Ho.
  - cbn in Ho. injection Ho as <-. split.
    + intros s Hs. destruct p; cbn in Hs; injection Hs as <-; split; constructor.
    + intros _. exists []. destruct p; reflexivity.
  - destruct p as [| y u].
    { cbn in Ho. injection Ho as <-. split.
      - intros s Hs. cbn in Hs. injection Hs as <-. split; constructor.
      - intros _. exists []. reflexivity. }
    inversion Hv as [| ? ? Hx Ht]; subst. inversion Hp as [| ? ? Hy Hu]; subst.
    cbn [combine mapM] in Ho.
    apply bind_ok_inv in Ho. destruct Ho as (o1 & Ho1 & Ho).
    apply bind_ok_inv in Ho. destruct Ho as (os & Hos & Ho). injection Ho as <-.
    destruct (IH _ _ Ht Hu Hos) as [IH1 IH2]. split.
    + intros s Hs. cbn [combine mapM] in Hs.
      apply bind_ok_inv in Hs. destruct Hs as (s1 & Hs1 & Hs).
      apply bind_ok_inv in Hs. destruct Hs as (ss & Hss & Hs). injection Hs as <-.
      destruct (IH1 _ Hss) as [Hl Hf]. split.
      * cbn [List.length]. rewrite Hl. reflexivity.
      * cbn [combine]. constructor; [| exact Hf].
        exact (sum_back_coordinate _ _ _ _ Hx Hy Ho1 Hs1).
    + intros Hsm. inversion Hsm as [| ? ? Sx St]; subst.
      destruct (add_back_ok _ _ _ Hx Hy Sx Ho1) as (s1 & Hs1).
      destruct (IH2 St) as (ss & Hss).
      cbn [combine mapM]. rewrite Hs1. cbn [bind]. rewrite Hss. cbn [bind]. eauto.
Qed.

(** ** The sum of the components *)

Lemma decompose_unfold (self w : Vector) :
  decompose self (AVec w)
  = (p <- proj_on self (AVec w) ;; o <- __sub__ self (AVec p) ;; Ok (p, o)).
Proof.
  unfold decompose, orthogonal_to. cbn [as_Vector].
  destruct (proj_on self (AVec w)) as [p | e]; reflexivity.
Qed.

Lemma decompose_components (self w p o : Vector) :
  wf self -> wf w -> dimension self = dimension w ->
  decompose self (AVec w) = Ok (p, o) ->
  proj_on self (AVec w) = Ok p
  /\ orthogonal_to self (AVec w) = Ok o
  /\ zip_with Dec.sub (coordinates self) (coordinates p) = Ok (coordinates o)
  /\ dimension p = dimension self /\ dimension o = dimension self.
Proof.
  intros W1 W2 Hdim H. rewrite decompose_unfold in H.
  apply bind_ok_inv in H. destruct H as (p' & Hp & H).
  apply bind_ok_inv in H. destruct H as (o' & Ho & H).
  injection H as -> ->.
  destruct (proj_on_length _ _ _ Hp) as [Hl Hd].
  pose proof W1 as [Hd1 _]. pose proof W2 as [Hd2 _].
  assert (Hlen : (List.length (coordinates self) <= List.length (coordinates p))%nat)
    by lia.
  split; [exact Hp |]. split.
  { unfold orthogonal_to. cbn [as_Vector]. rewrite Hp. exact Ho. }
  rewrite sub_indexed, indexed_long in Ho by exact Hlen.
  rewrite (paired_result Dec.sub self (coordinates p) W1 Hlen) in Ho.
  apply bind_ok_inv in Ho. destruct Ho as (cs & Hz & Ho). injection Ho as <-.
  cbn [coordinates dimension]. split; [exact Hz |]. split; [lia | reflexivity].
Qed.

Lemma decompose_sum_back (self w p o : Vector) :
  wf self -> wf w -> dimension self = dimension w ->
  finite_vector self -> finite_vector w ->
  decompose self (AVec w) = Ok (p, o) ->
  (forall s, __add__ p (AVec o) = Ok s ->
     dimension s = dimension self
     /\ sums_back (coordinates self) (coordinates o) (coordinates s))
  /\ (Forall (small 999998) (coordinates self) ->
      exists s, __add__ p (AVec o) = Ok s).
Proof.
  intros W1 W2 Hdim F1 F2 H.
  destruct (decompose_components _ _ _ _ W1 W2 Hdim H) as (Hp & _ & Hz & Dp & Do).
  pose proof (proj_on_finite _ _ _ F1 F2 Hp) as Fp.
  destruct (proj_on_length _ _ _ Hp) as [Lp _].
  pose proof W1 as [Hd1 Hne1]. pose proof W2 as [Hd2 _].
  assert (Lvp : List.length (coordinates self) = List.length (coordinates p)) by lia.
  assert (Lo : List.length (coordinates o) = List.length (coordinates self)).
  { apply (zip_with_length Dec.sub _ (coordinates p)); [lia | exact Hz]. }
  destruct (zip_sum_back _ _ _ F1 Fp Hz) as [Hb Hok].
  assert (Hadd : __add__ p (AVec o)
                 = (cs <- zip_with Dec.add (coordinates p) (coordinates o) ;;
                    Vector_of cs)).
  { rewrite add_indexed, indexed_long by lia. reflexivity. }
  rewrite Hadd. split.
  - intros s Hs. apply bind_ok_inv in Hs. destruct Hs as (cs & Hcs & Hs).
    apply Vector_of_inv in Hs. destruct Hs as [_ ->]. cbn [coordinates dimension].
    destruct (Hb _ Hcs) as [Ls Hf]. split; [lia |].
    split; [exact Lo |]. split; [lia | exact Hf].
  - intros Hsm. destruct (Hok Hsm) as (cs & Hcs). rewrite Hcs. cbn [bind].
    destruct (Hb _ Hcs) as [Ls _].
    assert (Hne : cs <> []).
    { intros ->. cbn in Ls. destruct (coordinates self); [contradiction | ].
      cbn in Lo. lia. }
    rewrite (Vector_of_ok _ Hne). eauto.
Qed.

(** The sum of the two components is not always equal to the vector:
    for v = (-18, -8) and w = (1, -1) the second coordinate of the sum
    is -8.00000000000000000000000000001. *)
Lemma decompose_sum_not_exact :
  exists v w p o s,
    vec [-18; -8] = Ok v /\ vec [1; -1] = Ok w
    /\ decompose v (AVec w) = Ok (p, o)
    /\ __add__ p (AVec o) = Ok s
    /\ coordinates s
       = [Dec.Fin true 180000000000000000000000000000 (-28);
          Dec.Fin true 800000000000000000000000000001 (-29)]
    /\ __eq__ s (AVec v) = Ok false.
Proof.
  do 5 eexists.
  split; [vm_compute; reflexivity |].
  split; [vm_compute; reflexivity |].
  split; [vm_compute; reflexivity |].
  split; [vm_compute; reflexivity |].
  split; vm_compute; reflexivity.
Qed.

(** C7, amended.  [decompose] returns the pair of [project_on] and
    [orthogonal_to], and [orthogonal_to] is [self] minus [project_on];
    for two vectors of equal dimension both components have that
    dimension and each coordinate of the second is the coordinate of
    [self] minus the coordinate of the first, rounded to the context.
    For finite coordinates the two components sum back to [self] up to
    rounding: each coordinate of [p + o] differs from the coordinate of
    [self] by at most half a unit in the 30th digit of the coordinate
    of [o] plus half a unit in the 30th digit of the sum, and the sum
    is returned whenever the coordinates of [self] are below 10^999998
    in absolute value.  Nothing is promised about [is_orthogonal_to] on
    the second component. *)
Theorem decompose_pair (self w : Vector) :
  decompose self (AVec w)
  = (p <- proj_on self (AVec w) ;; o <- __sub__ self (AVec p) ;; Ok (p, o))
  /\ orthogonal_to self (AVec w)
     = (p <- proj_on self (AVec w) ;; __sub__ self (AVec p))
  /\ (wf self -> wf w -> dimension self = dimension w ->
      forall p o, decompose self (AVec w) = Ok (p, o) ->
        proj_on self (AVec w) = Ok p
        /\ orthogonal_to self (AVec w) = Ok o
        /\ zip_with Dec.sub (coordinates self) (coordinates p) = Ok (coordinates o)
        /\ dimension p = dimension self /\ dimension o = dimension self)
  /\ (wf self -> wf w -> dimension self = dimension w ->
      finite_vector self -> finite_vector w ->
      forall p o, decompose self (AVec w) = Ok (p, o) ->
        (forall s, __add__ p (AVec o) = Ok s ->
           dimension s = dimension self
           /\ sums_back (coordinates self) (coordinates o) (coordinates s))
        /\ (Forall (small 999998) (coordinates self) ->
            exists s, __add__ p (AVec o) = Ok s)).
Proof.
  split; [exact (decompose_unfold self w) |]. split; [reflexivity |]. split.
  - intros W1 W2 Hdim p o H. exact (decompose_components _ _ _ _ W1 W2 Hdim H).
  - intros W1 W2 Hdim F1 F2 p o H.
    exact (decompose_sum_back _ _ _ _ W1 W2 Hdim F1 F2 H).
Qed.

Lemma decompose_pair_witness :
  exists p o s,
    decompose (mkVector [Dec.of_Z (-18); Dec.of_Z (-8)] 2)
              (AVec (mkVector [Dec.of_Z 1; Dec.of_Z (-1)] 2)) = Ok (p, o)
    /\ zip_with Dec.sub [Dec.of_Z (-18); Dec.of_Z (-8)] (coordinates p)
       = Ok (coordinates o)
    /\ dimension p = 2 /\ dimension o = 2
    /\ __add__ p (AVec o) = Ok s
    /\ dimension s = 2
    /\ sums_back [Dec.of_Z (-18); Dec.of_Z (-8)] (coordinates o) (coordinates s).
Proof.
  assert (W1 : wf (mkVector [Dec.of_Z (-18); Dec.of_Z (-8)] 2))
    by (split; [reflexivity | discriminate]).
  assert (W2 : wf (mkVector [Dec.of_Z 1; Dec.of_Z (-1)] 2))
    by (split; [reflexivity | discriminate]).
  assert (F1 : finite_vector (mkVector [Dec.of_Z (-18); Dec.of_Z (-8)] 2))
    by (repeat constructor).
  assert (F2 : finite_vector (mkVector [Dec.of_Z 1; Dec.of_Z (-1)] 2))
    by (repeat constructor).
  destruct (decompose (mkVector [Dec.of_Z (-18); Dec.of_Z (-8)] 2)
              (AVec (mkVector [Dec.of_Z 1; Dec.of_Z (-1)] 2)))
    as [[p o] | e] eqn:E.
  - destruct (decompose_pair (mkVector [Dec.of_Z (-18); Dec.of_Z (-8)] 2)
                (mkVector [Dec.of_Z 1; Dec.of_Z (-1)] 2))
      as (_ & _ & H3 & H4).
    destruct (H3 W1 W2 eq_refl p o E) as (_ & _ & Hz & Dp & Do).
    destruct (H4 W1 W2 eq_refl F1 F2 p o E) as [Hb Hok].
    destruct Hok as (s & Hs).
    { repeat constructor; vm_compute; discriminate. }
    destruct (Hb s Hs) as [Ds Hsb].
    exists p, o, s.
    split; [reflexivity |]. split; [exact Hz |]. split; [exact Dp |].
    split; [exact Do |]. split; [exact Hs |]. split; [exact Ds | exact Hsb].
  - exfalso. revert E. vm_compute. discriminate.
Defined.
